(** * SFDX Data Move Utility: migration job and migration job task

    A shallow embedding of the task-chain builder of [MigrationJob.setup]
    and of the record retrieval, CSV validation / repair and API engine
    selection of [MigrationJobTask], with the properties stated about them. *)

From Stdlib Require Import ZArith List Bool Lia Permutation Ascii String.
From stdpp Require Import base list gmap strings fin_maps.
Import ListNotations.

Local Open Scope Z_scope.
Local Open Scope nat_scope.

(** ** JavaScript arrays: [indexOf] and [splice] *)

Module JsArray.

Section Arrays.
Context {A : Type}.

(** [Array.prototype.indexOf] for a given identity test: the first index
    holding the element, or -1. *)
Fixpoint indexOfFrom (same : A -> bool) (l : list A) (i : Z) : Z :=
  match l with
  | [] => (-1)%Z
  | x :: l' => if same x then i else indexOfFrom same l' (i + 1)%Z
  end.

Definition indexOf (same : A -> bool) (l : list A) : Z :=
  indexOfFrom same l 0%Z.

(** The clamping that [splice] applies to its [start] argument. *)
Definition spliceStart (start : Z) (len : nat) : nat :=
  if (start <? 0)%Z
  then Z.to_nat (Z.max (Z.of_nat len + start) 0)
  else Z.to_nat (Z.min start (Z.of_nat len)).

(** [l.splice(start, 1)] *)
Definition spliceDelete1 (start : Z) (l : list A) : list A :=
  let i := spliceStart start (length l) in
  take i l ++ drop (S i) l.

(** [l.splice(start, 0, x)] *)
Definition spliceInsert (start : Z) (x : A) (l : list A) : list A :=
  let i := spliceStart start (length l) in
  take i l ++ x :: drop i l.
End Arrays.

End JsArray.

(** ** The migration job: building the task chain *)

Module MigrationJob.
Import JsArray.

(** The fields of a script object that [setup] reads or writes.  Parent
    objects are only ever compared by [name], so the two parent sets are
    kept as lists of names. *)
Record ScriptObject : Type := mkScriptObject {
  name : string;
  allRecords : bool;
  isSpecialObject : bool;
  isObjectWithoutRelationships : bool;
  hasComplexExternalId : bool;
  hasAutonumberExternalId : bool;
  isReadonlyObject : bool;
  isLimitedQuery : bool;
  parentLookupObjects : list string;
  parentMasterDetailObjects : list string;
  processAllSource : bool;
  processAllTarget : bool
}.

(** A task.  [taskId] stands for the identity of the object created by
    [new Task(...)]: it is what [indexOf] compares. *)
Record Task : Type := mkTask {
  taskId : nat;
  scriptObject : ScriptObject
}.

Definition sObjectName (t : Task) : string := name (scriptObject t).

Definition sameTask (a b : Task) : bool := Nat.eqb (taskId a) (taskId b).

(** [task.sourceData.allRecords] *)
Definition sourceData_allRecords (t : Task) : bool :=
  processAllSource (scriptObject t).

(** The assignments to [processAllSource] / [processAllTarget] at the start
    of each iteration of [setup]. *)
Definition setProcessAll (o : ScriptObject) : ScriptObject :=
  let src := allRecords o || isSpecialObject o || isObjectWithoutRelationships o in
  let tgt := if src then true
             else hasComplexExternalId o || hasAutonumberExternalId o in
  mkScriptObject (name o) (allRecords o) (isSpecialObject o)
    (isObjectWithoutRelationships o) (hasComplexExternalId o)
    (hasAutonumberExternalId o) (isReadonlyObject o) (isLimitedQuery o)
    (parentLookupObjects o) (parentMasterDetailObjects o) src tgt.

Record Chain : Type := mkChain {
  tasks : list Task;
  lowerIndexForAnyObjects : nat;
  lowerIndexForReadonlyObjects : nat
}.

Definition namesObject (names : list string) (n : string) : bool :=
  existsb (fun x => String.eqb x n) names.

(** The backward scan for the insertion index; [n] is
    [existedTaskIndex + 1]. *)
Fixpoint scanForIndex (ts : list Task) (objName : string) (lower : nat)
    (n : nat) (indexToInsert : nat) : nat :=
  match n with
  | 0 => indexToInsert
  | S i =>
      if i <? lower then indexToInsert
      else
        let indexToInsert' :=
          match ts !! i with
          | Some existedTask =>
              if namesObject (parentLookupObjects (scriptObject existedTask)) objName
              then i else indexToInsert
          | None => indexToInsert
          end in
        scanForIndex ts objName lower i indexToInsert'
  end.

Section Setup.
(** [CONSTANTS.RECORD_TYPE_SOBJECT_NAME] *)
Variable RECORD_TYPE_SOBJECT_NAME : string.

(** One iteration of [this.script.objects.forEach(objectToAdd => ...)];
    [ix] is the identity given to the new task. *)
Definition addObject (c : Chain) (ix : nat) (objectToAdd : ScriptObject) : Chain :=
  let o := setProcessAll objectToAdd in
  let newTask := mkTask ix o in
  if String.eqb (name o) RECORD_TYPE_SOBJECT_NAME then
    mkChain (newTask :: tasks c)
            (S (lowerIndexForAnyObjects c))
            (S (lowerIndexForReadonlyObjects c))
  else if isReadonlyObject o then
    mkChain (spliceInsert (Z.of_nat (lowerIndexForReadonlyObjects c)) newTask (tasks c))
            (S (lowerIndexForAnyObjects c))
            (lowerIndexForReadonlyObjects c)
  else if length (tasks c) =? 0 then
    mkChain (tasks c ++ [newTask])
            (lowerIndexForAnyObjects c) (lowerIndexForReadonlyObjects c)
  else
    let indexToInsert :=
      scanForIndex (tasks c) (name o) (lowerIndexForAnyObjects c)
                   (length (tasks c)) (length (tasks c)) in
    mkChain (spliceInsert (Z.of_nat indexToInsert) newTask (tasks c))
            (lowerIndexForAnyObjects c) (lowerIndexForReadonlyObjects c).

Fixpoint addObjects (c : Chain) (ix : nat) (objects : list ScriptObject) : Chain :=
  match objects with
  | [] => c
  | o :: rest => addObjects (addObject c ix o) (S ix) rest
  end.

(** The task chain after the placement loop. *)
Definition placeObjects (objects : list ScriptObject) : list Task :=
  tasks (addObjects (mkChain [] 0 0) 0 objects).
End Setup.

(** [child.scriptObject.parentMasterDetailObjects.some(object =>
    object.name == parent.sObjectName)] *)
Definition declaresMaster (child parent : Task) : bool :=
  namesObject (parentMasterDetailObjects (scriptObject child)) (sObjectName parent).

(** The body of the inner loop of [___putMasterDetailsBefore]. *)
Definition putRightBeforeLeft (leftTask : Task) (acc : list Task * bool)
    (rightTask : Task) : list Task * bool :=
  let rightIsParentMasterDetailOfLeft := declaresMaster leftTask rightTask in
  let leftTaskIndex := indexOf (sameTask leftTask) (fst acc) in
  let rightTaskIndex := indexOf (sameTask rightTask) (fst acc) in
  if rightIsParentMasterDetailOfLeft
  then (spliceInsert leftTaskIndex rightTask (spliceDelete1 rightTaskIndex (fst acc)), true)
  else acc.

(** The two nested loops over the copy [tempTasks]. *)
Fixpoint scanPairs (tempTasks : list Task) (acc : list Task * bool) : list Task * bool :=
  match tempTasks with
  | [] => acc
  | leftTask :: rest =>
      scanPairs rest (fold_left (putRightBeforeLeft leftTask) rest acc)
  end.

Definition putMasterDetailsBefore (ts : list Task) : list Task * bool :=
  scanPairs ts (ts, false).

(** [for (iteration = 0; iteration < 10 && swapped; iteration++)] with
    [n] iterations left. *)
Fixpoint relax (n : nat) (swapped : bool) (ts : list Task) : list Task * bool :=
  match n with
  | 0 => (ts, swapped)
  | S n' =>
      if swapped
      then let r := putMasterDetailsBefore ts in relax n' (snd r) (fst r)
      else (ts, swapped)
  end.

Definition queryFirst (t : Task) : bool :=
  sourceData_allRecords t || isLimitedQuery (scriptObject t).

(** The two [forEach] loops that fill [queryTasks]. *)
Definition pushQueryFirst (q : list Task) (task : Task) : list Task :=
  if queryFirst task then q ++ [task] else q.

Definition pushIfAbsent (q : list Task) (task : Task) : list Task :=
  if (indexOf (sameTask task) q <? 0)%Z then q ++ [task] else q.

Definition createQueryTasks (ts : list Task) : list Task :=
  fold_left pushIfAbsent ts (fold_left pushQueryFirst ts []).

Record Job : Type := mkJob {
  jobTasks : list Task;
  queryTasks : list Task;
  lastSwapped : bool
}.

Definition setup (RECORD_TYPE_SOBJECT_NAME : string) (objects : list ScriptObject) : Job :=
  let r := relax 10 true (placeObjects RECORD_TYPE_SOBJECT_NAME objects) in
  mkJob (fst r) (createQueryTasks (fst r)) (snd r).

(** *** The special prefix of the chain *)

(** Where the placement loop puts a task: the record type object (0),
    a read-only object (1), any other object (2). *)
Definition rank (RECORD_TYPE_SOBJECT_NAME : string) (t : Task) : nat :=
  if String.eqb (sObjectName t) RECORD_TYPE_SOBJECT_NAME then 0
  else if isReadonlyObject (scriptObject t) then 1
  else 2.

(** The chain as three blocks, with the two cursors at the block ends. *)
Definition blocks (RECORD_TYPE_SOBJECT_NAME : string) (c : Chain)
    (rts ros others : list Task) : Prop :=
  tasks c = rts ++ ros ++ others /\
  Forall (fun t => rank RECORD_TYPE_SOBJECT_NAME t = 0) rts /\
  Forall (fun t => rank RECORD_TYPE_SOBJECT_NAME t = 1) ros /\
  Forall (fun t => rank RECORD_TYPE_SOBJECT_NAME t = 2) others /\
  lowerIndexForReadonlyObjects c = length rts /\
  lowerIndexForAnyObjects c = length rts + length ros.

(** Record type tasks come first, read-only tasks next, all others after. *)
Definition specialPrefix (RECORD_TYPE_SOBJECT_NAME : string) (ts : list Task) : Prop :=
  forall (i j : nat) (a b : Task),
    ts !! i = Some a -> ts !! j = Some b -> i < j ->
    rank RECORD_TYPE_SOBJECT_NAME a <= rank RECORD_TYPE_SOBJECT_NAME b.

(** The record type task, when there is one, is at index 0. *)
Definition recordTypeFirst (RECORD_TYPE_SOBJECT_NAME : string) (ts : list Task) : Prop :=
  (exists (j : nat) (t : Task),
      ts !! j = Some t /\ sObjectName t = RECORD_TYPE_SOBJECT_NAME) ->
  exists t0 : Task, ts !! 0 = Some t0 /\ sObjectName t0 = RECORD_TYPE_SOBJECT_NAME.

Definition isSpecial (RECORD_TYPE_SOBJECT_NAME : string) (o : ScriptObject) : bool :=
  String.eqb (name o) RECORD_TYPE_SOBJECT_NAME || isReadonlyObject o.

(** No record type or read-only object names an object of the script as a
    master-detail parent. *)
Definition specialsHaveNoMaster (RECORD_TYPE_SOBJECT_NAME : string)
    (objects : list ScriptObject) : bool :=
  forallb (fun o =>
             negb (isSpecial RECORD_TYPE_SOBJECT_NAME o) ||
             forallb (fun o' => negb (namesObject (parentMasterDetailObjects o) (name o')))
                     objects)
          objects.

End MigrationJob.

(** ** JavaScript values, strings, objects and maps *)

Module Js.
Local Open Scope string_scope.

(** A property value: a string, or [undefined] ([None]). *)
Definition Value : Type := option string.

(** The truth value of [if (v)]. *)
Definition truthy (v : Value) : bool :=
  match v with
  | Some s => negb (String.eqb s "")
  | None => false
  end.

(** [String(v)] *)
Definition toString (v : Value) : string :=
  match v with
  | Some s => s
  | None => "undefined"
  end.

(** White space among the ASCII characters: tab, line feed, vertical tab,
    form feed, carriage return and space. *)
Definition isWhite (a : ascii) : bool :=
  let n := nat_of_ascii a in
  (Nat.leb 9 n && Nat.leb n 13) || Nat.eqb n 32.

Fixpoint trimStart (s : string) : string :=
  match s with
  | EmptyString => EmptyString
  | String a s' => if isWhite a then trimStart s' else s
  end.

Fixpoint trimEnd (s : string) : string :=
  match s with
  | EmptyString => EmptyString
  | String a s' =>
      match trimEnd s' with
      | EmptyString => if isWhite a then EmptyString else String a EmptyString
      | r => String a r
      end
  end.

(** [s.trim()], for strings of ASCII characters. *)
Definition trim (s : string) : string := trimEnd (trimStart s).

(** [s.split(sep)] for a one-character separator. *)
Fixpoint split (sep : ascii) (s : string) : list string :=
  match s with
  | EmptyString => [EmptyString]
  | String a s' =>
      match split sep s' with
      | [] => [String a EmptyString]
      | p :: ps => if Ascii.eqb a sep then EmptyString :: p :: ps
                   else String a p :: ps
      end
  end.

(** An object with string keys, or a [Map] with string keys: the entries
    in insertion order.  An object lists the property names that are
    array indices before the others; such names are not told apart here. *)
Definition JsMap (V : Type) : Type := list (string * V).

Section Maps.
Context {V : Type}.

Fixpoint get (k : string) (m : JsMap V) : option V :=
  match m with
  | [] => None
  | (k', v) :: m' => if String.eqb k' k then Some v else get k m'
  end.

(** [m.has(k)], [o.hasOwnProperty(k)] *)
Definition has (k : string) (m : JsMap V) : bool :=
  match get k m with Some _ => true | None => false end.

(** [m.set(k, v)], [o[k] = v]: an existing key keeps its place. *)
Fixpoint set (k : string) (v : V) (m : JsMap V) : JsMap V :=
  match m with
  | [] => [(k, v)]
  | (k', v') :: m' =>
      if String.eqb k' k then (k', v) :: m' else (k', v') :: set k v m'
  end.

(** [delete o[k]] *)
Fixpoint remove (k : string) (m : JsMap V) : JsMap V :=
  match m with
  | [] => []
  | (k', v') :: m' =>
      if String.eqb k' k then remove k m' else (k', v') :: remove k m'
  end.

(** The entries after a loop that replaces every value in place. *)
Definition mapValues (f : string -> V -> V) (m : JsMap V) : JsMap V :=
  map (fun kv => (fst kv, f (fst kv) (snd kv))) m.

Definition keys (m : JsMap V) : list string := map fst m.
Definition values (m : JsMap V) : list V := map snd m.
Definition size (m : JsMap V) : nat := length m.
End Maps.

(** A record or CSV row. *)
Definition Row : Type := JsMap Value.

(** [row[k]]: [undefined] when the row has no such property. *)
Definition prop (row : Row) (k : string) : Value :=
  match get k row with
  | Some v => v
  | None => None
  end.

(** [row'] has every property of [row], with the same value. *)
Definition extends (row row' : Row) : Prop :=
  forall k v, get k row = Some v -> get k row' = Some v.

End Js.
(** ** The migration job task *)

Module MigrationJobTask.
Import Js.

(** Modelled from the spec: the operation kinds of an entity descriptor
    (the enumeration itself is declared outside the sources at hand). *)
Inductive OPERATION : Type := Insert | Update | Upsert | Readonly | Delete.

Inductive DATA_MEDIA_TYPE : Type := Org | File.

Inductive QueryMode : Type := forwards | backwards | target.

Definition OPERATION_eqb (a b : OPERATION) : bool :=
  match a, b with
  | Insert, Insert | Update, Update | Upsert, Upsert
  | Readonly, Readonly | Delete, Delete => true
  | _, _ => false
  end.

Definition QueryMode_eqb (a b : QueryMode) : bool :=
  match a, b with
  | forwards, forwards | backwards, backwards | target, target => true
  | _, _ => false
  end.

Definition isFile (m : DATA_MEDIA_TYPE) : bool :=
  match m with File => true | Org => false end.

(** The properties of a field description that the task reads. *)
Record SFieldDescribe : Type := mkSField {
  fieldName : string;                  (* name *)
  isReference : bool;
  isSimpleSelfReference : bool;
  fullName__r : string;
  nameId : string;
  fullOriginalName__r : string;
  fullIdName__r : string;
  fieldObjectName : string;            (* scriptObject.name *)
  parentObjectName : string;           (* parentLookupObject.name *)
  parentExternalId : string            (* parentLookupObject.externalId *)
}.

(** The two maps of one side (source or target) of a task. *)
Record TaskOrgData : Type := mkOrgData {
  extIdRecordsMap : JsMap Value;
  idRecordsMap : JsMap Row
}.

Record TaskData : Type := mkTaskData {
  sourceData : TaskOrgData;
  targetData : TaskOrgData
}.

(** What a task reads from its script object and script. *)
Record Task : Type := mkTask {
  sObjectName : string;
  operation : OPERATION;
  externalId : string;
  originalExternalId : string;
  fieldsInQuery : list SFieldDescribe;
  fieldsToUpdate : list string;        (* the keys of fieldsToUpdateMap *)
  externalIdChild__rSFields : list SFieldDescribe;
                                       (* externalIdSFieldDescribe.child__rSFields, each as its idSField *)
  processAllSource : bool;
  processAllTarget : bool;
  isLimitedQuery : bool;
  useCSVValuesMapping : bool;
  sourceMedia : DATA_MEDIA_TYPE;
  targetMedia : DATA_MEDIA_TYPE;
  sourceCsvFilename : string
}.

(** A row of the CSV issues report. *)
Record ICSVIssues : Type := mkIssue {
  issueDate : string;
  childSObject : option string;
  childField : option string;
  childValue : option string;
  parentSObject : option string;
  parentField : option string;
  parentValue : option string;
  issueError : string
}.

Inductive RESOURCES : Type :=
| csvFileIsEmpty
| columnsMissingInCSV
| missingParentRecordForGivenLookupValue
| cantUpdateChildLookupCSVColumn.

(** Where a query is sent. *)
Inductive Endpoint : Type := SourceCsvFile | SourceOrg | TargetOrg.

(** *** Retrieval of records *)

Section Retrieve.
(** [Common.getRecordValue(thisSObjectName, record, propName,
    sObjectName, sFieldName)] *)
Variable getRecordValue :
  string -> Row -> string -> option string -> option string -> Value.
(** [Common.getComplexField] *)
Variable getComplexField : string -> string.
(** [Common.distinctStringArray] and [Common.createFieldInQueries] *)
Variable distinctStringArray : list string -> list string.
Variable createFieldInQueries :
  list string -> string -> string -> list string -> list string.
(** [new Sfdx(org).retrieveRecordsAsync(query, ...)] *)
Variable retrieveRecordsAsync : Endpoint -> string -> list Row.
(** [this.createQuery()] and [this._createFilteredQueries(queryMode, reversed)] *)
Variable createQuery : Task -> string.
Variable createFilteredQueries : Task -> TaskData -> QueryMode -> bool -> list string.

Definition complexExternalId (t : Task) : string := getComplexField (externalId t).

(** The body of [records.forEach] in [___setExternalIdMap]. *)
Definition setExternalIdMapStep (t : Task)
    (acc : JsMap Value * JsMap Row * nat) (record : Row)
    : JsMap Value * JsMap Row * nat :=
  let '(sourceExtIdRecordsMap, sourceIdRecordsMap, newRecordsCount) := acc in
  let value := getRecordValue (sObjectName t) record (complexExternalId t) None None in
  let extMap :=
    if truthy value
    then set (toString value) (prop record "Id"%string) sourceExtIdRecordsMap
    else sourceExtIdRecordsMap in
  if truthy (prop record "Id"%string) then
    if has (toString (prop record "Id"%string)) sourceIdRecordsMap
    then (extMap, sourceIdRecordsMap, newRecordsCount)
    else (extMap, set (toString (prop record "Id"%string)) record sourceIdRecordsMap,
          S newRecordsCount)
  else (extMap, sourceIdRecordsMap, newRecordsCount).

(** [self.getRecordValue(record, self.complexExternalId)]: the external
    id value that a record yields. *)
Definition yields (t : Task) (record : Row) : Value :=
  getRecordValue (sObjectName t) record (complexExternalId t) None None.

(** What one record does to the external id map, and to the identifier
    map. *)
Definition extStep (t : Task) (ext : JsMap Value) (record : Row) : JsMap Value :=
  if truthy (yields t record)
  then set (toString (yields t record)) (prop record "Id"%string) ext
  else ext.

Definition idStep (ids : JsMap Row) (record : Row) : JsMap Row :=
  if truthy (prop record "Id"%string) then
    if has (toString (prop record "Id"%string)) ids then ids
    else set (toString (prop record "Id"%string)) record ids
  else ids.

Definition setExternalIdMap (t : Task) (records : list Row)
    (sourceExtIdRecordsMap : JsMap Value) (sourceIdRecordsMap : JsMap Row)
    : JsMap Value * JsMap Row * nat :=
  fold_left (setExternalIdMapStep t) records
            (sourceExtIdRecordsMap, sourceIdRecordsMap, 0).

(** [___setExternalIdMap] applied to the two maps of one side. *)
Definition updateOrgData (t : Task) (records : list Row) (d : TaskOrgData) : TaskOrgData :=
  let r := setExternalIdMap t records (extIdRecordsMap d) (idRecordsMap d) in
  mkOrgData (fst (fst r)) (snd (fst r)).

Definition newRecordsCount (t : Task) (records : list Row) (d : TaskOrgData) : nat :=
  snd (setExternalIdMap t records (extIdRecordsMap d) (idRecordsMap d)).

(** [___retrieveFilteredRecords] *)
Definition retrieveFilteredRecords (e : Endpoint) (queries : list string) : list Row :=
  flat_map (retrieveRecordsAsync e) queries.

(** The values of the simple self reference fields found in the source
    records. *)
Definition selfReferenceValues (t : Task) (d : TaskOrgData) : list string :=
  flat_map
    (fun describe =>
       if isSimpleSelfReference describe
       then flat_map
              (fun sourceRec =>
                 if truthy (prop sourceRec (fieldName describe))
                 then [toString (prop sourceRec (fieldName describe))]
                 else [])
              (values (idRecordsMap d))
       else [])
    (fieldsInQuery t).

(** The outcome of [retrieveRecords]: the maps of the task and the
    queries sent, in order. *)
Definition Retrieved : Type := TaskData * list (Endpoint * string).

(** The source part, main data. *)
Definition retrieveSourceMain (t : Task) (d : TaskData)
    (queryMode : QueryMode) (reversed : bool) : Retrieved :=
  if isFile (sourceMedia t) && QueryMode_eqb queryMode forwards then
    let query := createQuery t in
    let records := retrieveRecordsAsync SourceCsvFile query in
    (mkTaskData (updateOrgData t records (sourceData d)) (targetData d),
     [(SourceCsvFile, query)])
  else if processAllSource t && QueryMode_eqb queryMode forwards then
    let query := createQuery t in
    let records := retrieveRecordsAsync SourceOrg query in
    (mkTaskData (updateOrgData t records (sourceData d)) (targetData d),
     [(SourceOrg, query)])
  else if negb (processAllSource t) then
    let queries := createFilteredQueries t d queryMode reversed in
    if 0 <? length queries then
      let records := retrieveFilteredRecords SourceOrg queries in
      (mkTaskData (updateOrgData t records (sourceData d)) (targetData d),
       map (pair SourceOrg) queries)
    else (d, [])
  else (d, []).

(** The source part, self reference records. *)
Definition retrieveSelfReference (t : Task) (d : TaskData)
    (queryMode : QueryMode) : Retrieved :=
  if negb (isFile (sourceMedia t)) && QueryMode_eqb queryMode forwards then
    let inValues := selfReferenceValues t (sourceData d) in
    if 0 <? length inValues then
      let queries :=
        createFieldInQueries (map fieldName (fieldsInQuery t)) "Id"%string (sObjectName t)
                             (distinctStringArray inValues) in
      let records := retrieveFilteredRecords SourceOrg queries in
      if 0 <? length queries
      then (mkTaskData (updateOrgData t records (sourceData d)) (targetData d),
            map (pair SourceOrg) queries)
      else (d, [])
    else (d, [])
  else (d, []).

(** The target part. *)
Definition retrieveTarget (t : Task) (d : TaskData)
    (queryMode : QueryMode) (reversed : bool) : Retrieved :=
  if negb (isFile (targetMedia t)) && negb (OPERATION_eqb (operation t) Insert) then
    if processAllTarget t then
      let query := createQuery t in
      let records := retrieveRecordsAsync TargetOrg query in
      (mkTaskData (sourceData d) (updateOrgData t records (targetData d)),
       [(TargetOrg, query)])
    else
      let queries := createFilteredQueries t d queryMode reversed in
      if 0 <? length queries then
        let records := retrieveFilteredRecords TargetOrg queries in
        (mkTaskData (sourceData d) (updateOrgData t records (targetData d)),
         map (pair TargetOrg) queries)
      else (d, [])
  else (d, []).

Definition retrieveRecords (t : Task) (d : TaskData)
    (queryMode : QueryMode) (reversed : bool) : Retrieved :=
  if OPERATION_eqb (operation t) Delete then (d, [])
  else if negb (QueryMode_eqb queryMode target) then
    let r1 := retrieveSourceMain t d queryMode reversed in
    let r2 := retrieveSelfReference t (fst r1) queryMode in
    (fst r2, snd r1 ++ snd r2)
  else retrieveTarget t d queryMode reversed.
End Retrieve.

(** The identifier under which a record enters the identifier map, when
    it has one. *)
Definition identifierOf (record : Row) : option string :=
  if truthy (prop record "Id"%string)
  then Some (toString (prop record "Id"%string))
  else None.

(** A record is new when it carries an identifier that the map lacks. *)
Definition isNew (ids : JsMap Row) (record : Row) : bool :=
  truthy (prop record "Id"%string)
  && negb (has (toString (prop record "Id"%string)) ids).

(** The identifiers carried by the records that the map does not hold. *)
Definition newIdentifiers (records : list Row) (idMap : JsMap Row) : gset string :=
  list_to_set (omap identifierOf records) ∖ list_to_set (keys idMap).

(** *** Validation of the source CSV file *)

Section Validate.
(** [Common.readCsvFileAsync(filename, linesToRead)] *)
Variable readCsvFileAsync : string -> option nat -> list Row.
(** [Common.formatDateTime(new Date())] and [logger.getResourceString] *)
Variable now : string.
Variable getResourceString : RESOURCES -> string.

Definition emptyFileIssue (t : Task) : ICSVIssues :=
  mkIssue now (Some (sObjectName t)) None None None None None
          (getResourceString csvFileIsEmpty).

Definition missingColumnIssue (t : Task) (fieldName : string) : ICSVIssues :=
  mkIssue now (Some (sObjectName t)) (Some fieldName) None None None None
          (getResourceString columnsMissingInCSV).

Definition columnExists (header : Row) (fieldName : string) : bool :=
  existsb
    (fun columnName =>
       let columnName := trim columnName in
       let nameParts := split "."%char columnName in
       String.eqb columnName fieldName
       || existsb (fun namePart => String.eqb namePart fieldName) nameParts)
    (keys header).

Definition validateCSV (t : Task) : list ICSVIssues :=
  let csvColumnsRow := readCsvFileAsync (sourceCsvFilename t) (Some 1) in
  match csvColumnsRow with
  | [] => [emptyFileIssue t]
  | header :: _ =>
      flat_map
        (fun fieldName =>
           if columnExists header fieldName then []
           else [missingColumnIssue t fieldName])
        (fieldsToUpdate t)
  end.
End Validate.

(** *** Choice of the API engine *)

Record Script : Type := mkScript {
  bulkThreshold : Z;
  alwaysUseRestApiToUpdateRecords : bool;
  bulkApiVersionNumber : Z;
  pollingIntervalMs : Z;
  bulkApiV1BatchSize : Z;
  allOrNone : bool;
  createTargetCSVFiles : bool
}.

(** The arguments common to the three engine constructors. *)
Record EngineInit : Type := mkEngineInit {
  engineConnection : string;
  engineSObjectName : string;
  engineOperation : OPERATION;
  enginePollingIntervalMs : Z;
  engineUpdateRecordId : bool;
  engineTargetCSVFullFilename : string;
  engineCreateTargetCSVFiles : bool
}.

Inductive IApiEngine : Type :=
| BulkApiV2_0Engine (init : EngineInit)
| BulkApiV1_0Engine (init : EngineInit) (batchSize : Z)
| RestApiEngine (init : EngineInit) (allOrNone : bool).

Section Engine.
(** [this.data.targetCSVFilename(operation)] *)
Variable targetCSVFilename : Task -> OPERATION -> string.

Definition createApiEngine (script : Script) (t : Task) (connectionData : string)
    (operation : OPERATION) (amountOfRecordsToProcess : Z)
    (updateRecordId : bool) : IApiEngine :=
  let init :=
    mkEngineInit connectionData (sObjectName t) operation
                 (pollingIntervalMs script) updateRecordId
                 (targetCSVFilename t operation) (createTargetCSVFiles script) in
  if (bulkThreshold script <? amountOfRecordsToProcess)%Z
     && negb (alwaysUseRestApiToUpdateRecords script)
  then
    if (bulkApiVersionNumber script =? 2)%Z
    then BulkApiV2_0Engine init
    else BulkApiV1_0Engine init (bulkApiV1BatchSize script)
  else RestApiEngine init (allOrNone script).
End Engine.

(** *** Repair of the source CSV file *)

(** A parsed CSV file: the rows under their keys, in file order. *)
Definition FileMap : Type := JsMap Row.

(** Modelled from the spec: the file cache of the job ([CachedCSVContent],
    declared outside the sources at hand).  It holds the parsed files by
    path, the set of paths changed in memory and the counter behind the
    synthetic identifiers. *)
Record CachedCSVContent : Type := mkCache {
  csvDataCacheMap : JsMap FileMap;
  updatedFilenames : gset string;
  idCounter : nat
}.

(** What [repairCSV] reads from the job. *)
Record Job : Type := mkJob {
  jobTasks : list Task;
  csvValuesMapping : JsMap (JsMap string)
}.

(** [job.getTaskBySObjectName] *)
Definition getTaskBySObjectName (job : Job) (name : string) : option Task :=
  find (fun x => String.eqb (sObjectName x) name) (jobTasks job).

(** The rows that the cache holds for a path. *)
Definition rowsOf (c : CachedCSVContent) (path : string) : FileMap :=
  match get path (csvDataCacheMap c) with
  | Some rows => rows
  | None => []
  end.

(** The first row of a file: [fileMap.values().next().value]. *)
Definition firstRowOf (rows : FileMap) : Row :=
  match rows with
  | (_, row) :: _ => row
  | [] => []
  end.

(** Rows are shared objects: a change to a row is a change in the cache. *)
Definition setRows (c : CachedCSVContent) (path : string) (rows : FileMap) : CachedCSVContent :=
  mkCache (set path rows (csvDataCacheMap c)) (updatedFilenames c) (idCounter c).

Definition setRow (c : CachedCSVContent) (path key : string) (row : Row) : CachedCSVContent :=
  setRows c path (set key row (rowsOf c path)).

(** [cachedCSVContent.updatedFilenames.add(path)] *)
Definition markUpdated (c : CachedCSVContent) (path : string) : CachedCSVContent :=
  mkCache (csvDataCacheMap c) ({[path]} ∪ updatedFilenames c) (idCounter c).

Definition setCounter (c : CachedCSVContent) (n : nat) : CachedCSVContent :=
  mkCache (csvDataCacheMap c) (updatedFilenames c) n.

(** [csvRow[newColumn] = csvRow[column]; delete csvRow[column]] *)
Definition renameColumn (row : Row) (column : string) : Row :=
  remove column (set (trim column) (prop row column) row).

(** The columns of the first row whose name changes when trimmed. *)
Definition columnsToTrim (firstRow : Row) : list string :=
  List.filter (fun field => negb (String.eqb field (trim field))) (keys firstRow).

(** [___trimColumnNames] *)
Definition trimColumnNames (t : Task) (c : CachedCSVContent) : CachedCSVContent :=
  let file := sourceCsvFilename t in
  let columnsToUpdate := columnsToTrim (firstRowOf (rowsOf c file)) in
  match columnsToUpdate with
  | [] => c
  | _ =>
      markUpdated
        (setRows c file
           (mapValues (fun _ csvRow => fold_left renameColumn columnsToUpdate csvRow)
                      (rowsOf c file)))
        file
  end.

(** The body of [fields.forEach] in [___updateWithCSVValueMapping], for one
    row. *)
Definition mapColumnValue (job : Job) (t : Task) (csvRow : Row) (field : string) : Row :=
  match get (sObjectName t ++ field)%string (csvValuesMapping job) with
  | Some valuesMap =>
      if 0 <? size valuesMap then
        let rawValue := trim (toString (prop csvRow field)) in
        match get rawValue valuesMap with
        | Some mapped => set field (Some mapped) csvRow
        | None => csvRow
        end
      else csvRow
  | None => csvRow
  end.

(** [___updateWithCSVValueMapping] *)
Definition updateWithCSVValueMapping (job : Job) (t : Task) (c : CachedCSVContent)
    : CachedCSVContent :=
  let file := sourceCsvFilename t in
  let fields := keys (firstRowOf (rowsOf c file)) in
  markUpdated
    (setRows c file
       (mapValues (fun _ csvRow => fold_left (mapColumnValue job t) fields csvRow)
                  (rowsOf c file)))
    file.

(** [___addMissingIdColumn] *)
Definition addMissingIdColumn (t : Task) (c : CachedCSVContent) : CachedCSVContent :=
  let file := sourceCsvFilename t in
  markUpdated
    (setRows c file
       (mapValues (fun id csvRow => set "Id"%string (Some id) csvRow) (rowsOf c file)))
    file.

Section Repair.
(** [Common.getRecordValue], [Common.formatDateTime(new Date())] and
    [logger.getResourceString] *)
Variable getRecordValue :
  string -> Row -> string -> option string -> option string -> Value.
Variable now : string.
Variable getResourceString : RESOURCES -> string.
(** The parse of the file at a path, keyed by row, as
    [Common.readCsvFileOnceAsync] obtains it when the path is not cached
    yet; the flag tells the call of [repairCSV] for its own file, which
    passes its own options, from the calls that use the defaults.  A
    missing file gives no rows. *)
Variable readCsvFile : string -> bool -> FileMap.
(** The rendering of the counter by [cachedCSVContent.nextId]. *)
Variable formatId : nat -> string.

(** Modelled from the spec: [Common.readCsvFileOnceAsync] is not among the
    sources; the cache parses each path once and afterwards hands out the
    rows it holds. *)
Definition readCsvFileOnce (c : CachedCSVContent) (path : string) (own : bool)
    : FileMap * CachedCSVContent :=
  match get path (csvDataCacheMap c) with
  | Some rows => (rows, c)
  | None => (readCsvFile path own, setRows c path (readCsvFile path own))
  end.

(** Modelled from the spec: [cachedCSVContent.nextId] hands out the next
    value of the job-wide counter, which never repeats. *)
Definition nextId (c : CachedCSVContent) : Value * CachedCSVContent :=
  (Some (formatId (idCounter c)), setCounter c (S (idCounter c))).

(** A map from the value that [getRecordValue] finds in each row to the key
    of that row; later rows replace earlier ones. *)
Definition rowsByValue (thisSObjectName propName : string) (rows : FileMap)
    : JsMap string :=
  fold_left
    (fun acc kv =>
       let key := getRecordValue thisSObjectName (snd kv) propName None None in
       if truthy key then set (toString key) (fst kv) acc else acc)
    rows [].

(** The state of the two loops over rows: the cache, the issues so far and
    [isFileChanged]. *)
Definition LoopState : Type := CachedCSVContent * list ICSVIssues * bool.

(** The body of [[...childFileMap.values()].forEach] in
    [___updateChildOriginalIdColumnsAsync], for the row under [key]. *)
Definition updateChildRow (t : Task) (childTask : Task) (childIdSField : SFieldDescribe)
    (parentCSVExtIdMap : JsMap string) (st : LoopState) (key : string) : LoopState :=
  let '(c, issues, isFileChanged) := st in
  let childFile := sourceCsvFilename childTask in
  match get key (rowsOf c childFile) with
  | None => st
  | Some csvRow =>
      let extIdValue :=
        getRecordValue (sObjectName t) csvRow (originalExternalId t)
                       (Some (sObjectName childTask))
                       (Some (fullOriginalName__r childIdSField)) in
      if truthy extIdValue then
        match get (toString extIdValue) parentCSVExtIdMap with
        | Some parentKey =>
            let parentRow :=
              match get parentKey (rowsOf c (sourceCsvFilename t)) with
              | Some row => row
              | None => []
              end in
            let csvRow1 := set (nameId childIdSField) (prop parentRow "Id"%string) csvRow in
            let csvRow2 :=
              set (fullIdName__r childIdSField) (prop csvRow1 (nameId childIdSField))
                  csvRow1 in
            (setRow c childFile key csvRow2, issues, true)
        | None => st
        end
      else st
  end.

Definition cantUpdateChildIssue (t : Task) (childTask : Task)
    (childIdSField : SFieldDescribe) : ICSVIssues :=
  mkIssue now (Some (sObjectName childTask))
          (Some (fullOriginalName__r childIdSField)) None
          (Some (sObjectName t)) (Some "Id"%string) None
          (getResourceString cantUpdateChildLookupCSVColumn).

(** [___updateChildOriginalIdColumnsAsync] *)
Definition updateChildOriginalIdColumns (job : Job) (t : Task)
    (acc : CachedCSVContent * list ICSVIssues) (childIdSField : SFieldDescribe)
    : CachedCSVContent * list ICSVIssues :=
  let '(c, issues) := acc in
  if negb (String.eqb (originalExternalId t) "Id") then
    match getTaskBySObjectName job (fieldObjectName childIdSField) with
    | Some childTask =>
        let '(childFileMap, c1) := readCsvFileOnce c (sourceCsvFilename childTask) false in
        if 0 <? size childFileMap then
          if has (fullOriginalName__r childIdSField) (firstRowOf childFileMap) then
            let parentCSVExtIdMap :=
              rowsByValue (sObjectName t) (originalExternalId t)
                          (rowsOf c1 (sourceCsvFilename t)) in
            let '(c2, issues2, isFileChanged) :=
              fold_left (updateChildRow t childTask childIdSField parentCSVExtIdMap)
                        (keys childFileMap) (c1, issues, false) in
            (if isFileChanged then markUpdated c2 (sourceCsvFilename childTask) else c2,
             issues2)
          else (c1, issues ++ [cantUpdateChildIssue t childTask childIdSField])
        else (c1, issues)
    | None => (c, issues)
    end
  else (c, issues).

Definition missingParentIssue (t : Task) (sField : SFieldDescribe)
    (field : string) (value : Value) (parentFieldName : string) : ICSVIssues :=
  mkIssue now (Some (sObjectName t)) (Some field) (Some (toString value))
          (Some (parentObjectName sField)) (Some parentFieldName) None
          (getResourceString missingParentRecordForGivenLookupValue).

(** [parentTask.getRecordValue(csvRow, parentExternalId, self.sObjectName,
    columnName__r)] *)
Definition desiredExternalIdValue (t : Task) (parentTask : Task)
    (sField : SFieldDescribe) (csvRow : Row) : Value :=
  getRecordValue (sObjectName parentTask) csvRow (parentExternalId sField)
                 (Some (sObjectName t)) (Some (fullName__r sField)).

(** The rows that the loop body of [___addMissingLookupColumnsAsync]
    changes: both columns are missing, or one is missing and the other holds
    a value to resolve it from. *)
Definition rowToRepair (t : Task) (parentTask : Task) (sField : SFieldDescribe)
    (csvRow : Row) : bool :=
  if negb (has (nameId sField) csvRow) then
    if negb (has (fullName__r sField) csvRow) then true
    else truthy (desiredExternalIdValue t parentTask sField csvRow)
  else if negb (has (fullName__r sField) csvRow) then
    truthy (prop csvRow (nameId sField))
  else false.

(** The body of [[...currentFileMap.keys()].forEach] in
    [___addMissingLookupColumnsAsync], for the row under [id]. *)
Definition addLookupColumnsToRow (t : Task) (parentTask : Task) (sField : SFieldDescribe)
    (parentCSVRowsMap : JsMap string) (st : LoopState) (id : string) : LoopState :=
  let '(c, issues, isFileChanged) := st in
  let file := sourceCsvFilename t in
  let parentFile := sourceCsvFilename parentTask in
  let columnName__r := fullName__r sField in
  let columnNameId := nameId sField in
  match get id (rowsOf c file) with
  | None => st
  | Some csvRow =>
      if negb (has columnNameId csvRow) then
        if negb (has columnName__r csvRow) then
          let '(id1, c1) := nextId c in
          let '(id2, c2) := nextId c1 in
          (setRow c2 file id (set columnName__r id2 (set columnNameId id1 csvRow)),
           issues, true)
        else
          let desired := desiredExternalIdValue t parentTask sField csvRow in
          if truthy desired then
            match get (toString desired) parentCSVRowsMap with
            | None =>
                let '(id1, c1) := nextId c in
                (setRow c1 file id (set columnNameId id1 csvRow),
                 issues ++ [missingParentIssue t sField columnName__r
                              desired (parentExternalId sField)],
                 true)
            | Some parentKey =>
                let parentCsvRow :=
                  match get parentKey (rowsOf c parentFile) with
                  | Some row => row
                  | None => []
                  end in
                (setRow c file id (set columnNameId (prop parentCsvRow "Id"%string) csvRow),
                 issues, true)
            end
          else st
      else if negb (has columnName__r csvRow) then
        let idValue := prop csvRow columnNameId in
        if truthy idValue then
          match get (toString idValue) (rowsOf c parentFile) with
          | None =>
              let '(id1, c1) := nextId c in
              (setRow c1 file id (set columnName__r id1 csvRow),
               issues ++ [missingParentIssue t sField columnNameId idValue "Id"%string],
               true)
          | Some parentCsvRow =>
              (setRow c file id
                      (set columnName__r (prop parentCsvRow (parentExternalId sField)) csvRow),
               issues, true)
          end
        else st
      else st
  end.

(** [___addMissingLookupColumnsAsync] *)
Definition addMissingLookupColumns (job : Job) (t : Task)
    (acc : CachedCSVContent * list ICSVIssues) (sField : SFieldDescribe)
    : CachedCSVContent * list ICSVIssues :=
  let '(c, issues) := acc in
  match getTaskBySObjectName job (parentObjectName sField) with
  | Some parentTask =>
      let '(parentFileMap, c1) := readCsvFileOnce c (sourceCsvFilename parentTask) false in
      let parentCSVRowsMap :=
        rowsByValue (sObjectName parentTask) (parentExternalId sField) parentFileMap in
      let '(c2, issues2, isFileChanged) :=
        fold_left (addLookupColumnsToRow t parentTask sField parentCSVRowsMap)
                  (keys (rowsOf c1 (sourceCsvFilename t))) (c1, issues, false) in
      (if isFileChanged then markUpdated c2 (sourceCsvFilename t) else c2, issues2)
  | None => (c, issues)
  end.

(** One round of the loop over [fieldsInQuery] at the end of [repairCSV]. *)
Definition repairLookupField (job : Job) (t : Task)
    (acc : CachedCSVContent * list ICSVIssues) (sField : SFieldDescribe)
    : CachedCSVContent * list ICSVIssues :=
  let firstRow := firstRowOf (rowsOf (fst acc) (sourceCsvFilename t)) in
  if isReference sField
     && (negb (has (fullName__r sField) firstRow) || negb (has (nameId sField) firstRow))
  then addMissingLookupColumns job t acc sField
  else acc.

Definition repairCSV (job : Job) (t : Task) (cachedCSVContent : CachedCSVContent)
    : CachedCSVContent * list ICSVIssues :=
  let file := sourceCsvFilename t in
  let '(currentFileMap, c0) := readCsvFileOnce cachedCSVContent file true in
  if size currentFileMap =? 0 then (c0, [])
  else
    let c1 := trimColumnNames t c0 in
    let c2 :=
      if useCSVValuesMapping t && (0 <? size (csvValuesMapping job))
      then updateWithCSVValueMapping job t c1
      else c1 in
    let acc3 :=
      if negb (has "Id"%string (firstRowOf (rowsOf c2 file))) then
        fold_left (updateChildOriginalIdColumns job t)
                  (externalIdChild__rSFields t) (addMissingIdColumn t c2, [])
      else (c2, []) in
    fold_left (repairLookupField job t) (fieldsInQuery t) acc3.

(** **** Conditions under which a second repair finds nothing to do *)

(** Whether the value mapping step runs for the task. *)
Definition valueMappingApplies (job : Job) (t : Task) : bool :=
  useCSVValuesMapping t && (0 <? size (csvValuesMapping job)).

(** The value read for a relationship column depends on that column of
    the row only. *)
Definition readsNamedColumn : Prop :=
  forall (thisSObjectName propName sObjectName sFieldName : string) (row row' : Row),
    prop row sFieldName = prop row' sFieldName ->
    getRecordValue thisSObjectName row propName (Some sObjectName) (Some sFieldName) =
    getRecordValue thisSObjectName row' propName (Some sObjectName) (Some sFieldName).

(** A repaired file: its rows are in the cache, the first row has an [Id]
    column and only trimmed column names, and wherever the first row lacks
    a lookup column of a reference field with a parent task, no row is left
    for the loop body to change. *)
Definition repaired (job : Job) (t : Task) (c : CachedCSVContent) : Prop :=
  let rows := rowsOf c (sourceCsvFilename t) in
  let firstRow := firstRowOf rows in
  has (sourceCsvFilename t) (csvDataCacheMap c) = true
  /\ (rows <> [] ->
      has "Id"%string firstRow = true /\
      Forall (fun k => trim k = k) (keys firstRow))
  /\ (forall (sField : SFieldDescribe) (parentTask : Task) (id : string) (row : Row),
        In sField (fieldsInQuery t) ->
        isReference sField = true ->
        getTaskBySObjectName job (parentObjectName sField) = Some parentTask ->
        has (fullName__r sField) firstRow && has (nameId sField) firstRow = false ->
        get id rows = Some row ->
        rowToRepair t parentTask sField row = false).
End Repair.

(** The column names that the repair writes carry no surrounding white
    space. *)
Definition trimmedName (s : string) : bool := String.eqb (trim s) s.

Definition columnNamesTrimmed (t : Task) : bool :=
  forallb (fun f => trimmedName (nameId f) && trimmedName (fullName__r f))
          (fieldsInQuery t)
  && forallb (fun f => trimmedName (nameId f) && trimmedName (fullIdName__r f))
             (externalIdChild__rSFields t).

(** [row'] keeps the properties of [row], perhaps with other values, and
    every property it adds has a name that [ok] accepts. *)
Definition widens (ok : string -> Prop) (row row' : Row) : Prop :=
  (forall k, has k row = true -> has k row' = true)
  /\ (forall k, has k row' = true -> has k row = true \/ ok k).

(** [row'] keeps the properties of [row] with their values, and every
    property it adds has a name that [ok] accepts. *)
Definition grows (ok : string -> Prop) (row row' : Row) : Prop :=
  extends row row' /\ (forall k, has k row' = true -> has k row = true \/ ok k).

(** Names that do not change when trimmed, and all names. *)
Definition trimmed (k : string) : Prop := trim k = k.
Definition anyName (k : string) : Prop := True.

(** The same row keys in the same order, and each row related to what it
    was. *)
Definition rowwise (R : Row -> Row -> Prop) (rows rows' : FileMap) : Prop :=
  keys rows' = keys rows
  /\ (forall id row, get id rows = Some row ->
                     exists row', get id rows' = Some row' /\ R row row').


End MigrationJobTask.
(** ** The migration job: looking up a task *)

Module MigrationJobMethods.
Import MigrationJob.

(** [getTaskBySObjectName]:
    [this.tasks.filter(x => x.sObjectName == sObjectName)[0]] *)
Definition getTaskBySObjectName (tasks : list Task) (objectName : string) : option Task :=
  head (List.filter (fun x => String.eqb (sObjectName x) objectName) tasks).

(** No object of the script names an object of the script as
    master-detail parent. *)
Definition declaresNoMaster (objects : list ScriptObject) : bool :=
  forallb (fun o =>
             forallb (fun o' => negb (namesObject (parentMasterDetailObjects o) (name o')))
                     objects)
          objects.

(** An object that the placement loop treats as any other: neither the
    record type object nor read-only. *)
Definition isOrdinary (RECORD_TYPE_SOBJECT_NAME : string) (o : ScriptObject) : bool :=
  negb (isSpecial RECORD_TYPE_SOBJECT_NAME o).

End MigrationJobMethods.

(** ** The repair: what the value mapping does to a cell, and the files of
    the child objects *)

Module RepairMore.
Import Js MigrationJobTask.

(** The value that [___updateWithCSVValueMapping] leaves in the column
    [field] of a row that held [v] there: the entry of the mapping table of
    the object and the column for the trimmed text of [v], when there is
    one. *)
Definition mappedValue (job : Job) (t : Task) (field : string) (v : Value) : Value :=
  match get (sObjectName t ++ field)%string (csvValuesMapping job) with
  | Some valuesMap =>
      match get (trim (toString v)) valuesMap with
      | Some mapped => Some mapped
      | None => v
      end
  | None => v
  end.

(** The source files of the tasks that [___updateChildOriginalIdColumnsAsync]
    finds for the child fields of the external id of the task. *)
Definition childFiles (job : Job) (t : Task) : gset string :=
  list_to_set
    (omap (fun childIdSField =>
             sourceCsvFilename <$> getTaskBySObjectName job (fieldObjectName childIdSField))
          (externalIdChild__rSFields t)).

End RepairMore.

(** ** The migration job: the value mapping file *)

Module MigrationJobCsv.
Import Js MigrationJobTask.
Local Open Scope string_scope.

Section ValueMapping.
(** [this.script.objectsMap]: the objects of the script by name, each as
    its [hasValueMapping]. *)
Variable objectsMap : JsMap bool.

(** The body of [csvRows.forEach] in [_loadValueMappingFileAsync].
    [String(row["Value"]) || ""] is [String(row["Value"])]. *)
Definition loadValueMappingRow (csvValuesMapping : JsMap (JsMap string)) (row : Row)
    : JsMap (JsMap string) :=
  if truthy (prop row "ObjectName") && truthy (prop row "FieldName") then
    let objectName := trim (toString (prop row "ObjectName")) in
    let fieldName := trim (toString (prop row "FieldName")) in
    match get objectName objectsMap with
    | Some true =>
        let key := objectName ++ fieldName in
        let m :=
          if negb (has key csvValuesMapping)
          then set key [] csvValuesMapping
          else csvValuesMapping in
        let valuesMap := match get key m with Some v => v | None => [] end in
        set key
            (set (trim (toString (prop row "RawValue")))
                 (trim (toString (prop row "Value"))) valuesMap)
            m
    | _ => csvValuesMapping
    end
  else csvValuesMapping.

(** [_loadValueMappingFileAsync], for the rows read from the value mapping
    file. *)
Definition loadValueMappingFile (csvRows : list Row)
    (csvValuesMapping : JsMap (JsMap string)) : JsMap (JsMap string) :=
  if Nat.ltb 0 (length csvRows)
  then fold_left loadValueMappingRow csvRows csvValuesMapping
  else csvValuesMapping.

(** The entry that a row of the file stands for: the key of its table, the
    raw value and the value, when the row names an object that has a value
    mapping, and a field. *)
Definition entryOf (row : Row) : option (string * string * string) :=
  if truthy (prop row "ObjectName") && truthy (prop row "FieldName") then
    match get (trim (toString (prop row "ObjectName"))) objectsMap with
    | Some true =>
        Some (trim (toString (prop row "ObjectName"))
                ++ trim (toString (prop row "FieldName")),
              trim (toString (prop row "RawValue")),
              trim (toString (prop row "Value")))
    | _ => None
    end
  else None.

(** The value of the last row that stands for an entry with the given key
    and raw value. *)
Definition lastEntry (csvRows : list Row) (key rawValue : string) : option string :=
  fold_left
    (fun found row =>
       match entryOf row with
       | Some (k, r, v) => if String.eqb k key && String.eqb r rawValue then Some v else found
       | None => found
       end)
    csvRows None.
End ValueMapping.

(** [csvValuesMapping.get(key).get(rawValue)], when the table exists. *)
Definition mappingEntry (csvValuesMapping : JsMap (JsMap string)) (key rawValue : string)
    : option string :=
  match get key csvValuesMapping with
  | Some valuesMap => get rawValue valuesMap
  | None => None
  end.

Local Close Scope string_scope.

(** *** Validation and repair of all source files *)

(** [saveCachedCsvDataFiles]: the files written, in order, each as its
    path and its rows. *)
Definition saveCachedCsvDataFiles (c : CachedCSVContent) : list (string * list Row) :=
  flat_map
    (fun filePath =>
       if bool_decide (filePath ∈ updatedFilenames c)
       then [(filePath, values (rowsOf c filePath))]
       else [])
    (keys (csvDataCacheMap c)).

(** What [_validateAndRepairSourceCSVFiles] does besides changing the
    issues and the cache, in order: the calls of [Common.abortWithPrompt],
    each with the issues at hand; the files written by
    [saveCachedCsvDataFiles]; the report of the issues written without a
    prompt, and the warning that goes with it.  The other log lines are
    left out. *)
Inductive CsvEvent : Type :=
| PromptToAbort (issues : list ICSVIssues)
| WriteCsvFile (filePath : string) (rows : list Row)
| SaveIssuesReport (issues : list ICSVIssues)
| WarnIssuesFound (count : nat).

Record CsvOutcome : Type := mkCsvOutcome {
  csvEvents : list CsvEvent;
  csvIssues : list ICSVIssues;
  cachedCSVContent : CachedCSVContent;
  completed : bool                     (* false: the prompt has ended the job *)
}.

Section ValidateAndRepair.
Variable readCsvFileAsync : string -> option nat -> list Row.
Variable getRecordValue :
  string -> Row -> string -> option string -> option string -> Value.
Variable now : string.
Variable getResourceString : RESOURCES -> string.
Variable readCsvFile : string -> bool -> FileMap.
Variable formatId : nat -> string.
(** [Common.abortWithPrompt]: whether the call returns, for the issues at
    hand; otherwise it ends the job. *)
Variable abortWithPrompt : list ICSVIssues -> bool.

(** The first loop: [this.csvIssues.concat(await task.validateCSV())] for
    every task. *)
Definition validateAll (job : Job) (issues : list ICSVIssues) : list ICSVIssues :=
  fold_left
    (fun issues task => issues ++ validateCSV readCsvFileAsync now getResourceString task)
    (jobTasks job) issues.

(** The second loop:
    [this.csvIssues.concat(await task.repairCSV(this.cachedCSVContent))]
    for every task. *)
Definition repairStep (job : Job) (acc : CachedCSVContent * list ICSVIssues) (task : Task)
    : CachedCSVContent * list ICSVIssues :=
  let r := repairCSV getRecordValue now getResourceString readCsvFile formatId job task
                     (fst acc) in
  (fst r, snd acc ++ snd r).

Definition repairAll (job : Job) (c : CachedCSVContent) (issues : list ICSVIssues)
    : CachedCSVContent * list ICSVIssues :=
  fold_left (repairStep job) (jobTasks job) (c, issues).

(** [_validateAndRepairSourceCSVFiles], from the issues and the cache that
    the job holds. *)
Definition validateAndRepairSourceCSVFiles (job : Job) (issues0 : list ICSVIssues)
    (c0 : CachedCSVContent) : CsvOutcome :=
  let issues1 := validateAll job issues0 in
  let prompted := Nat.ltb 0 (length issues1) in
  if prompted && negb (abortWithPrompt issues1)
  then mkCsvOutcome [PromptToAbort issues1] issues1 c0 false
  else
    let events1 := if prompted then [PromptToAbort issues1] else [] in
    let noAbortPrompt := prompted in
    let '(c1, issues2) := repairAll job c0 issues1 in
    let events2 :=
      events1 ++ map (fun f => WriteCsvFile (fst f) (snd f)) (saveCachedCsvDataFiles c1) in
    if Nat.ltb 0 (length issues2) then
      if negb noAbortPrompt then
        mkCsvOutcome (events2 ++ [PromptToAbort issues2]) issues2 c1
                     (abortWithPrompt issues2)
      else
        mkCsvOutcome (events2 ++ [SaveIssuesReport issues2;
                                  WarnIssuesFound (length issues2)])
                     issues2 c1 true
    else mkCsvOutcome events2 issues2 c1 true.
End ValidateAndRepair.

(** The calls of [Common.abortWithPrompt] among the events, and the paths
    of the files written. *)
Definition isPrompt (e : CsvEvent) : bool :=
  match e with PromptToAbort _ => true | _ => false end.

Definition writtenPaths (events : list CsvEvent) : list string :=
  flat_map (fun e => match e with WriteCsvFile filePath _ => [filePath] | _ => [] end)
           events.


End MigrationJobCsv.

(** ** Sample script objects *)

Module Samples.
Import MigrationJob.
Local Open Scope string_scope.

Definition RecordType : string := "RecordType".

(** An object with the given name, read-only flag and parent sets, and
    every other flag off. *)
Definition object (n : string) (readonly : bool)
    (lookups masters : list string) : ScriptObject :=
  mkScriptObject n false false false false false readonly false
                 lookups masters false false.

(** Two objects that declare each other as master-detail parent. *)
Definition cyclicObjects : list ScriptObject :=
  [ object "A" false ["B"] ["B"]; object "B" false ["A"] ["A"] ].

(** A detail object declared before its master. *)
Definition contactBeforeAccount : list ScriptObject :=
  [ object "Contact" false ["Account"] ["Account"]; object "Account" false [] [] ].

(** Two read-only detail objects that share a master declared after them. *)
Definition sharedMaster : list ScriptObject :=
  [ object "Line" true ["Order"] ["Order"];
    object "Note" true ["Order"] ["Order"];
    object "Order" false [] [] ].

(** A read-only detail object whose master is not read-only. *)
Definition readonlyDetail : list ScriptObject :=
  [ object "Line" true ["Order"] ["Order"]; object "Order" false [] [] ].

(** Read-only objects, the record type object and ordinary objects mixed. *)
Definition mixedObjects : list ScriptObject :=
  [ object "Contact" false ["Account"] [];
    object "Profile" true [] [];
    object "RecordType" false [] [];
    object "Account" false [] [];
    object "User" true [] [] ].

(** *** Sample tasks and records *)

Import Js.

(** A reading of [Common.getRecordValue]: the property named by
    [sFieldName], or else by [propName]. *)
Definition getRecordValue (thisSObjectName : string) (record : Row)
    (propName : string) (sObjectName sFieldName : option string) : Value :=
  prop record (match sFieldName with Some f => f | None => propName end).

Definition accountTask (op : MigrationJobTask.OPERATION) : MigrationJobTask.Task :=
  MigrationJobTask.mkTask "Account" op "Name" "Name" [] ["Name"] []
    false false false false MigrationJobTask.Org MigrationJobTask.Org
    "source/Account_source.csv".

Definition acme1 : Row := [("Id", Some "001"); ("Name", Some "Acme")].
Definition acme2 : Row := [("Id", Some "002"); ("Name", Some "Acme")].
Definition noName : Row := [("Id", Some "003"); ("Name", Some "")].

Definition emptyData : MigrationJobTask.TaskData :=
  MigrationJobTask.mkTaskData (MigrationJobTask.mkOrgData [] [])
                              (MigrationJobTask.mkOrgData [] []).

Definition script (threshold version : Z) (rest : bool) : MigrationJobTask.Script :=
  MigrationJobTask.mkScript threshold rest version 5000 9500 false false.

(** *** Sample files *)

Definition accountFile : string := "source/Account_source.csv".
Definition caseFile : string := "source/Case_source.csv".

(** The lookup from Case to Account. *)
Definition caseAccountField : MigrationJobTask.SFieldDescribe :=
  MigrationJobTask.mkSField "AccountId" true false "Account.Name" "AccountId"
    "Account.Name" "Account.Id" "Case" "Account" "Name".

Definition caseTask (useMapping : bool) : MigrationJobTask.Task :=
  MigrationJobTask.mkTask "Case" MigrationJobTask.Upsert "Subject" "Subject"
    [caseAccountField] ["Subject"] []
    false false false useMapping MigrationJobTask.File MigrationJobTask.Org
    caseFile.

(** A value mapping for the [Account.Name] column of Case that sends
    ["a"] to the empty string and the empty string to ["b"]. *)
Definition chainedMapping : JsMap (JsMap string) :=
  [("CaseAccount.Name", [("a", ""); ("", "b")])].

Definition caseJob (mapping : JsMap (JsMap string)) (useMapping : bool)
    : MigrationJobTask.Job :=
  MigrationJobTask.mkJob
    [accountTask MigrationJobTask.Upsert; caseTask useMapping] mapping.

(** The files on disk: one account, and one case that names its account
    by the given value of the [Account.Name] column. *)
Definition disk (accountName : string) (path : string) (own : bool)
    : MigrationJobTask.FileMap :=
  if String.eqb path accountFile then [("001", acme1)]
  else if String.eqb path caseFile then
    [("500", [("Id", Some "500"); ("Subject", Some "Help");
              ("Account.Name", Some accountName)])]
  else [].

Definition formatId (n : nat) : string :=
  String (ascii_of_nat (48 + n)) "".

Definition emptyCache : MigrationJobTask.CachedCSVContent :=
  MigrationJobTask.mkCache [] ∅ 0.

Definition repair (mapping : JsMap (JsMap string)) (useMapping : bool)
    (accountName : string) (c : MigrationJobTask.CachedCSVContent)
    : MigrationJobTask.CachedCSVContent * list MigrationJobTask.ICSVIssues :=
  MigrationJobTask.repairCSV getRecordValue "2020-05-01"
    (fun _ => "Missing parent record") (disk accountName) formatId
    (caseJob mapping useMapping) (caseTask useMapping) c.

End Samples.
(** ** More sample files *)

Module MoreSamples.
Import Js MigrationJobTask.
Local Open Scope string_scope.

(** A case file whose [Subject] column carries white space around its
    name. *)
Definition untrimmedCache : CachedCSVContent :=
  mkCache [(Samples.caseFile,
            [("500", [(" Subject ", Some "Help"); ("Id", Some "500")])])] ∅ 0.

(** A case file with a [Type] column, and a value mapping that sends
    ["Cust"] in that column to ["Customer"]. *)
Definition typedCache : CachedCSVContent :=
  mkCache [(Samples.caseFile,
            [("500", [("Id", Some "500"); ("Type", Some "Cust ")]);
             ("501", [("Id", Some "501"); ("Type", Some "cust")])])] ∅ 0.

Definition typeMapping : JsMap (JsMap string) :=
  [("CaseType", [("Cust", "Customer")])].

End MoreSamples.

(** ** Properties of the array operations *)

Module JsArrayFacts.
Import JsArray.

Section Facts.
Context {A : Type}.
Implicit Types (l : list A) (same : A -> bool).

Lemma spliceStart_nat (i len : nat) :
  spliceStart (Z.of_nat i) len = Nat.min i len.
Proof.
  unfold spliceStart.
  destruct (Z.ltb_spec (Z.of_nat i) 0); lia.
Qed.

Lemma spliceInsert_perm start (x : A) l :
  Permutation (spliceInsert start x l) (x :: l).
Proof.
  unfold spliceInsert. set (i := spliceStart start (length l)).
  rewrite <- (take_drop i l) at 3.
  symmetry. apply Permutation_middle.
Qed.

Lemma spliceInsert_nat (i : nat) (x : A) l :
  spliceInsert (Z.of_nat i) x l = take i l ++ x :: drop i l.
Proof.
  unfold spliceInsert. rewrite spliceStart_nat.
  destruct (Nat.min_spec i (length l)) as [[Hlt ->] | [Hle ->]]; [done|].
  rewrite !take_ge, !drop_ge by lia. done.
Qed.

Lemma spliceDelete1_nat (i : nat) l :
  spliceDelete1 (Z.of_nat i) l = take i l ++ drop (S i) l.
Proof.
  unfold spliceDelete1. rewrite spliceStart_nat.
  destruct (Nat.min_spec i (length l)) as [[Hlt ->] | [Hle ->]]; [done|].
  rewrite !take_ge, !drop_ge by lia. done.
Qed.

Lemma indexOfFrom_found same l1 y l2 (i : Z) :
  same y = true -> Forall (fun z => same z = false) l1 ->
  indexOfFrom same (l1 ++ y :: l2) i = (i + Z.of_nat (length l1))%Z.
Proof.
  intros Hy Hl1. revert i.
  induction Hl1 as [|x l1 Hx _ IH]; intros i; simpl.
  - rewrite Hy. lia.
  - rewrite Hx, IH. lia.
Qed.

Lemma indexOf_found same l1 y l2 :
  same y = true -> Forall (fun z => same z = false) l1 ->
  indexOf same (l1 ++ y :: l2) = Z.of_nat (length l1).
Proof.
  intros Hy Hl1. unfold indexOf.
  by rewrite indexOfFrom_found.
Qed.

Lemma indexOfFrom_absent same l (i : Z) :
  Forall (fun z => same z = false) l -> indexOfFrom same l i = (-1)%Z.
Proof.
  intros Hl. revert i.
  induction Hl as [|x l Hx _ IH]; intros i; simpl; [done|].
  by rewrite Hx.
Qed.

Lemma indexOf_absent same l :
  Forall (fun z => same z = false) l -> indexOf same l = (-1)%Z.
Proof. apply indexOfFrom_absent. Qed.

(** Every list splits at the first element that passes the test. *)
Lemma first_split same l :
  Forall (fun z => same z = false) l \/
  exists l1 y l2, l = l1 ++ y :: l2 /\ same y = true /\
                  Forall (fun z => same z = false) l1.
Proof.
  induction l as [|x l IH]; [left; constructor|].
  destruct (same x) eqn:Hx.
  - right. exists [], x, l. by repeat split.
  - destruct IH as [H | (l1 & y & l2 & -> & Hy & Hl1)].
    + left. by constructor.
    + right. exists (x :: l1), y, l2. repeat split; [done|]. by constructor.
Qed.

Lemma spliceDelete1_found same l1 y l2 :
  same y = true -> Forall (fun z => same z = false) l1 ->
  spliceDelete1 (indexOf same (l1 ++ y :: l2)) (l1 ++ y :: l2) = l1 ++ l2.
Proof.
  intros Hy Hl1. rewrite indexOf_found by done.
  rewrite spliceDelete1_nat.
  rewrite take_app_length.
  replace (S (length l1)) with (length (l1 ++ [y])) by (rewrite length_app; simpl; lia).
  rewrite (cons_middle y l1 l2), app_assoc, drop_app_length. done.
Qed.
(** Positions behind a prefix that holds no match. *)
Lemma indexOf_behind same (pre cur : list A) :
  Forall (fun z => same z = false) pre ->
  (exists y, y ∈ cur /\ same y = true) ->
  exists i, indexOf same (pre ++ cur) = Z.of_nat (length pre + i) /\
            indexOf same cur = Z.of_nat i.
Proof.
  intros Hpre (y & Hy & Hsame).
  destruct (first_split same cur) as [Hall | (c1 & z & c2 & -> & Hz & Hc1)].
  - rewrite Forall_forall in Hall. rewrite (Hall y Hy) in Hsame. discriminate.
  - exists (length c1). split; [|by apply indexOf_found].
    rewrite app_assoc, indexOf_found; [by rewrite length_app|done|].
    by apply Forall_app.
Qed.

Lemma spliceDelete1_behind (pre cur : list A) (i : nat) :
  spliceDelete1 (Z.of_nat (length pre + i)) (pre ++ cur) =
  pre ++ spliceDelete1 (Z.of_nat i) cur.
Proof.
  rewrite !spliceDelete1_nat, take_app_add.
  replace (S (length pre + i)) with (length pre + S i) by lia.
  by rewrite drop_app_add, app_assoc.
Qed.

Lemma spliceInsert_behind (pre cur : list A) (i : nat) (x : A) :
  spliceInsert (Z.of_nat (length pre + i)) x (pre ++ cur) =
  pre ++ spliceInsert (Z.of_nat i) x cur.
Proof.
  by rewrite !spliceInsert_nat, take_app_add, drop_app_add, app_assoc.
Qed.

Lemma spliceDelete1_length_le start l :
  length (spliceDelete1 start l) <= length l.
Proof.
  unfold spliceDelete1. rewrite length_app, length_take, length_drop. lia.
Qed.

End Facts.
End JsArrayFacts.

(** ** Properties of the task chain *)

Module MigrationJobFacts.
Import JsArray JsArrayFacts MigrationJob.

Lemma sameTask_refl (t : Task) : sameTask t t = true.
Proof. unfold sameTask. apply Nat.eqb_refl. Qed.

Lemma sameTask_id (a b : Task) : sameTask a b = true <-> taskId a = taskId b.
Proof. unfold sameTask. apply Nat.eqb_eq. Qed.

(** With pairwise distinct identities, a task of the list is determined by
    its identity. *)
Lemma task_of_id (ts : list Task) (a b : Task) :
  NoDup (map taskId ts) -> a ∈ ts -> b ∈ ts -> taskId a = taskId b -> a = b.
Proof.
  induction ts as [|t ts IH]; simpl; intros Hnd Ha Hb Hid.
  - by apply elem_of_nil in Ha.
  - apply NoDup_cons in Hnd as [Hnotin Hnd].
    apply elem_of_cons in Ha as [-> | Ha]; apply elem_of_cons in Hb as [-> | Hb].
    + done.
    + exfalso. apply Hnotin. rewrite Hid. by apply list_elem_of_fmap_2.
    + exfalso. apply Hnotin. rewrite <- Hid. by apply list_elem_of_fmap_2.
    + by apply IH.
Qed.

(** Removing a task at its [indexOf] and inserting it again anywhere
    permutes the chain. *)
Lemma move_perm (ts : list Task) (t : Task) (start : Z) :
  NoDup (map taskId ts) -> t ∈ ts ->
  Permutation (spliceInsert start t (spliceDelete1 (indexOf (sameTask t) ts) ts)) ts.
Proof.
  intros Hnd Hin.
  destruct (first_split (sameTask t) ts) as [Hall | (l1 & y & l2 & Heq & Hy & Hl1)].
  - rewrite Forall_forall in Hall. specialize (Hall t Hin).
    by rewrite sameTask_refl in Hall.
  - assert (y = t) as ->.
    { apply (task_of_id ts); [done| |done|].
      - rewrite Heq. apply elem_of_app. right. apply elem_of_cons. by left.
      - symmetry. by apply sameTask_id. }
    rewrite Heq, spliceDelete1_found by done.
    rewrite spliceInsert_perm. apply Permutation_middle.
Qed.

Lemma perm_NoDup_ids (ts ts' : list Task) :
  Permutation ts' ts -> NoDup (map taskId ts) -> NoDup (map taskId ts').
Proof.
  intros Hp Hnd. by rewrite Hp.
Qed.

Section Relaxation.
Variable ts0 : list Task.
Hypothesis ids_distinct : NoDup (map taskId ts0).

Lemma putRightBeforeLeft_perm leftTask acc rightTask :
  Permutation (fst acc) ts0 -> rightTask ∈ ts0 ->
  Permutation (fst (putRightBeforeLeft leftTask acc rightTask)) ts0.
Proof.
  intros Hp Hin. unfold putRightBeforeLeft.
  destruct (declaresMaster _ _); [|done]. simpl.
  rewrite move_perm; [done| |].
  - by apply (perm_NoDup_ids ts0).
  - by rewrite Hp.
Qed.

Lemma fold_putRightBeforeLeft_perm leftTask rest acc :
  Permutation (fst acc) ts0 -> (forall t, t ∈ rest -> t ∈ ts0) ->
  Permutation (fst (fold_left (putRightBeforeLeft leftTask) rest acc)) ts0.
Proof.
  revert acc. induction rest as [|r rest IH]; intros acc Hp Hin; simpl; [done|].
  apply IH.
  - apply putRightBeforeLeft_perm; [done|]. apply Hin, elem_of_cons. by left.
  - intros t Ht. apply Hin, elem_of_cons. by right.
Qed.

Lemma scanPairs_perm tempTasks acc :
  Permutation (fst acc) ts0 -> (forall t, t ∈ tempTasks -> t ∈ ts0) ->
  Permutation (fst (scanPairs tempTasks acc)) ts0.
Proof.
  revert acc. induction tempTasks as [|l rest IH]; intros acc Hp Hin; simpl; [done|].
  apply IH.
  - apply fold_putRightBeforeLeft_perm; [done|].
    intros t Ht. apply Hin, elem_of_cons. by right.
  - intros t Ht. apply Hin, elem_of_cons. by right.
Qed.
End Relaxation.

Lemma putMasterDetailsBefore_perm (ts : list Task) :
  NoDup (map taskId ts) ->
  Permutation (fst (putMasterDetailsBefore ts)) ts.
Proof.
  intros Hnd. unfold putMasterDetailsBefore.
  by apply scanPairs_perm.
Qed.

Lemma relax_perm (n : nat) (swapped : bool) (ts : list Task) :
  NoDup (map taskId ts) ->
  Permutation (fst (relax n swapped ts)) ts.
Proof.
  revert swapped ts. induction n as [|n IH]; intros swapped ts Hnd; simpl; [done|].
  destruct swapped; [|done].
  pose proof (putMasterDetailsBefore_perm ts Hnd) as Hp.
  rewrite IH; [done|]. by apply (perm_NoDup_ids ts).
Qed.

(** *** The placement loop gives every task its own identity *)

Section Placement.
Variable RECORD_TYPE_SOBJECT_NAME : string.

Lemma addObject_perm (c : Chain) (ix : nat) (o : ScriptObject) :
  Permutation (tasks (addObject RECORD_TYPE_SOBJECT_NAME c ix o))
              (mkTask ix (setProcessAll o) :: tasks c).
Proof.
  unfold addObject.
  repeat match goal with |- context [if ?b then _ else _] => destruct b end;
    simpl; try apply spliceInsert_perm; [done|].
  symmetry. apply Permutation_cons_append.
Qed.

Lemma addObjects_ids (objects : list ScriptObject) (c : Chain) (ix : nat) :
  Permutation (map taskId (tasks (addObjects RECORD_TYPE_SOBJECT_NAME c ix objects)))
              (seq ix (length objects) ++ map taskId (tasks c)).
Proof.
  revert c ix. induction objects as [|o rest IH]; intros c ix; simpl; [done|].
  rewrite IH, (Permutation_map taskId (addObject_perm c ix o)). simpl.
  symmetry. apply Permutation_middle.
Qed.

Lemma placeObjects_ids (objects : list ScriptObject) :
  NoDup (map taskId (placeObjects RECORD_TYPE_SOBJECT_NAME objects)).
Proof.
  unfold placeObjects. rewrite addObjects_ids. simpl.
  rewrite app_nil_r. apply NoDup_seq.
Qed.

Lemma jobTasks_setup (objects : list ScriptObject) :
  jobTasks (setup RECORD_TYPE_SOBJECT_NAME objects) =
  fst (relax 10 true (placeObjects RECORD_TYPE_SOBJECT_NAME objects)).
Proof. reflexivity. Qed.

Lemma lastSwapped_setup (objects : list ScriptObject) :
  lastSwapped (setup RECORD_TYPE_SOBJECT_NAME objects) =
  snd (relax 10 true (placeObjects RECORD_TYPE_SOBJECT_NAME objects)).
Proof. reflexivity. Qed.

Lemma queryTasks_setup (objects : list ScriptObject) :
  queryTasks (setup RECORD_TYPE_SOBJECT_NAME objects) =
  createQueryTasks (jobTasks (setup RECORD_TYPE_SOBJECT_NAME objects)).
Proof. reflexivity. Qed.

Lemma setup_ids (objects : list ScriptObject) :
  NoDup (map taskId (jobTasks (setup RECORD_TYPE_SOBJECT_NAME objects))).
Proof.
  rewrite jobTasks_setup.
  apply (perm_NoDup_ids (placeObjects RECORD_TYPE_SOBJECT_NAME objects)).
  - apply relax_perm, placeObjects_ids.
  - apply placeObjects_ids.
Qed.
End Placement.

(** *** The query order *)

Lemma fold_pushQueryFirst (ts q : list Task) :
  fold_left pushQueryFirst ts q = q ++ filter (fun t => queryFirst t = true) ts.
Proof.
  revert q. induction ts as [|t ts IH]; intros q; simpl.
  - by rewrite app_nil_r.
  - rewrite IH. unfold pushQueryFirst. rewrite filter_cons.
    destruct (queryFirst t) eqn:Ht.
    + rewrite decide_True by done. by rewrite <- app_assoc.
    + rewrite decide_False by done. done.
Qed.

Lemma indexOf_negative (t : Task) (q : list Task) :
  (indexOf (sameTask t) q <? 0)%Z = true <->
  Forall (fun y => taskId y <> taskId t) q.
Proof.
  destruct (first_split (sameTask t) q) as [Hall | (l1 & y & l2 & -> & Hy & Hl1)].
  - rewrite indexOf_absent by done. split; [intros _|done].
    eapply Forall_impl; [exact Hall|]. simpl. intros y Hy Heq.
    symmetry in Heq. apply sameTask_id in Heq. congruence.
  - rewrite indexOf_found by done. split.
    + intros H. apply Z.ltb_lt in H. lia.
    + intros H. apply Forall_app in H as [_ H]. apply Forall_cons in H as [H _].
      apply sameTask_id in Hy. congruence.
Qed.

Lemma fold_pushIfAbsent (ts q : list Task) :
  NoDup (map taskId ts) ->
  (forall t, t ∈ ts -> queryFirst t = true -> exists y, y ∈ q /\ taskId y = taskId t) ->
  (forall t, t ∈ ts -> queryFirst t = false -> Forall (fun y => taskId y <> taskId t) q) ->
  fold_left pushIfAbsent ts q = q ++ filter (fun t => queryFirst t = false) ts.
Proof.
  revert q. induction ts as [|t ts IH]; intros q Hnd Hin Hout; simpl.
  - by rewrite app_nil_r.
  - apply NoDup_cons in Hnd as [Hnotin Hnd]. rewrite filter_cons.
    assert (t ∈ t :: ts) as Ht by (apply elem_of_cons; by left).
    unfold pushIfAbsent at 2.
    destruct (queryFirst t) eqn:Hq.
    + rewrite decide_False by done.
      destruct (Hin t Ht Hq) as (y & Hy & Hid).
      destruct (indexOf (sameTask t) q <? 0)%Z eqn:Hix.
      * apply indexOf_negative in Hix. rewrite Forall_forall in Hix.
        by destruct (Hix y Hy).
      * apply IH; [done| |].
        -- intros t' Ht'. apply Hin, elem_of_cons. by right.
        -- intros t' Ht'. apply Hout, elem_of_cons. by right.
    + rewrite decide_True by done.
      pose proof (Hout t Ht Hq) as Hfresh.
      apply indexOf_negative in Hfresh. rewrite Hfresh.
      rewrite IH; [by rewrite <- app_assoc|done| |].
      * intros t' Ht' Hq'.
        destruct (Hin t' (proj2 (elem_of_cons _ _ _) (or_intror Ht')) Hq') as (y & Hy & Hid).
        exists y. split; [|done]. apply elem_of_app. by left.
      * intros t' Ht' Hq'. apply Forall_app. split.
        -- apply Hout; [|done]. apply elem_of_cons. by right.
        -- apply Forall_singleton. intros Heq. apply Hnotin.
           rewrite Heq. by apply list_elem_of_fmap_2.
Qed.

Lemma createQueryTasks_spec (ts : list Task) :
  NoDup (map taskId ts) ->
  createQueryTasks ts =
    filter (fun t => queryFirst t = true) ts ++
    filter (fun t => queryFirst t = false) ts.
Proof.
  intros Hnd. unfold createQueryTasks.
  rewrite fold_pushQueryFirst. simpl. apply fold_pushIfAbsent; [done| |].
  - intros t Ht Hq. exists t. split; [|done]. by apply list_elem_of_filter.
  - intros t Ht Hq. apply Forall_forall. intros y Hy Hid.
    apply list_elem_of_filter in Hy as [Hyq Hy].
    assert (y = t) as -> by (by apply (task_of_id ts)).
    congruence.
Qed.

Lemma filter_split_perm (ts : list Task) :
  Permutation (filter (fun t => queryFirst t = true) ts ++
               filter (fun t => queryFirst t = false) ts) ts.
Proof.
  induction ts as [|t ts IH]; [done|].
  rewrite !filter_cons. destruct (queryFirst t) eqn:Hq.
  - rewrite decide_True, decide_False by done. simpl. by rewrite IH.
  - rewrite decide_False, decide_True by done.
    rewrite <- Permutation_middle. by rewrite IH.
Qed.

(** C8.  The query order derived by [setup] lists the tasks flagged
    process-all (source) or limited-query first, in their execution order,
    then all remaining tasks, in their execution order; it is a
    rearrangement of the execution order in which no task occurs twice. *)
Theorem setup_query_order (RECORD_TYPE_SOBJECT_NAME : string)
    (objects : list ScriptObject) :
  let job := setup RECORD_TYPE_SOBJECT_NAME objects in
  queryTasks job =
    filter (fun t => queryFirst t = true) (jobTasks job) ++
    filter (fun t => queryFirst t = false) (jobTasks job)
  /\ Permutation (queryTasks job) (jobTasks job)
  /\ NoDup (queryTasks job).
Proof.
  intros job.
  pose proof (setup_ids RECORD_TYPE_SOBJECT_NAME objects) as Hnd.
  fold job in Hnd.
  assert (queryTasks job =
    filter (fun t => queryFirst t = true) (jobTasks job) ++
    filter (fun t => queryFirst t = false) (jobTasks job)) as Heq.
  { unfold job. rewrite queryTasks_setup. by apply createQueryTasks_spec. }
  split; [done|]. rewrite Heq. split.
  - apply filter_split_perm.
  - rewrite filter_split_perm. by apply (NoDup_fmap_1 taskId).
Qed.


(** *** Master-detail parents and the relaxation passes *)

Lemma putRightBeforeLeft_false leftTask acc rightTask :
  snd (putRightBeforeLeft leftTask acc rightTask) = false ->
  putRightBeforeLeft leftTask acc rightTask = acc /\
  declaresMaster leftTask rightTask = false.
Proof.
  unfold putRightBeforeLeft.
  destruct (declaresMaster _ _); simpl; [discriminate|done].
Qed.

Lemma putRightBeforeLeft_true leftTask acc rightTask :
  snd acc = true -> snd (putRightBeforeLeft leftTask acc rightTask) = true.
Proof. unfold putRightBeforeLeft. by destruct (declaresMaster _ _). Qed.

Lemma fold_putRightBeforeLeft_true leftTask rest acc :
  snd acc = true -> snd (fold_left (putRightBeforeLeft leftTask) rest acc) = true.
Proof.
  revert acc. induction rest as [|r rest IH]; intros acc Hacc; simpl; [done|].
  by apply IH, putRightBeforeLeft_true.
Qed.

Lemma scanPairs_true tempTasks acc :
  snd acc = true -> snd (scanPairs tempTasks acc) = true.
Proof.
  revert acc. induction tempTasks as [|l rest IH]; intros acc Hacc; simpl; [done|].
  by apply IH, fold_putRightBeforeLeft_true.
Qed.

Lemma fold_putRightBeforeLeft_false leftTask rest acc :
  snd (fold_left (putRightBeforeLeft leftTask) rest acc) = false ->
  fold_left (putRightBeforeLeft leftTask) rest acc = acc /\
  Forall (fun r => declaresMaster leftTask r = false) rest.
Proof.
  revert acc. induction rest as [|r rest IH]; intros acc Hres; simpl in *; [done|].
  destruct (snd (putRightBeforeLeft leftTask acc r)) eqn:Hstep.
  - by rewrite fold_putRightBeforeLeft_true in Hres.
  - apply putRightBeforeLeft_false in Hstep as [Hstep Hno].
    rewrite Hstep in Hres |- *. destruct (IH acc Hres) as [Heq Hall].
    split; [done|]. by constructor.
Qed.

Lemma scanPairs_false tempTasks acc :
  snd (scanPairs tempTasks acc) = false ->
  scanPairs tempTasks acc = acc /\
  ForallOrdPairs (fun l r => declaresMaster l r = false) tempTasks.
Proof.
  revert acc. induction tempTasks as [|l rest IH]; intros acc Hres; simpl in *.
  - split; [done|constructor].
  - destruct (snd (fold_left (putRightBeforeLeft l) rest acc)) eqn:Hrow.
    + by rewrite scanPairs_true in Hres.
    + apply fold_putRightBeforeLeft_false in Hrow as [Hrow Hall].
      rewrite Hrow in Hres |- *. destruct (IH acc Hres) as [Heq Hpairs].
      split; [done|]. by constructor.
Qed.

(** A pass that reports no move leaves the chain as it was and has found
    no master-detail parent placed after its child. *)
Lemma putMasterDetailsBefore_false (ts : list Task) :
  snd (putMasterDetailsBefore ts) = false ->
  fst (putMasterDetailsBefore ts) = ts /\
  ForallOrdPairs (fun l r => declaresMaster l r = false) ts.
Proof.
  unfold putMasterDetailsBefore. intros H.
  apply scanPairs_false in H as [-> Hp]. done.
Qed.

Lemma relax_false (n : nat) (swapped : bool) (ts : list Task) :
  snd (relax n swapped ts) = false ->
  (swapped = false /\ fst (relax n swapped ts) = ts) \/
  ForallOrdPairs (fun l r => declaresMaster l r = false) (fst (relax n swapped ts)).
Proof.
  revert swapped ts. induction n as [|n IH]; intros swapped ts Hres; simpl in *.
  - by left.
  - destruct swapped; [|by left]. right.
    destruct (IH _ _ Hres) as [[Hsw Heq] | Hpairs]; [|done].
    apply putMasterDetailsBefore_false in Hsw as [Hsame Hpairs].
    rewrite Heq, Hsame. done.
Qed.

Lemma ForallOrdPairs_lookup {A : Type} (R : A -> A -> Prop) (l : list A)
    (i j : nat) (a b : A) :
  ForallOrdPairs R l -> l !! i = Some a -> l !! j = Some b -> i < j -> R a b.
Proof.
  intros Hp. revert i j. induction Hp as [|x l Hx Hp IH]; intros i j Hi Hj Hlt.
  - by rewrite lookup_nil in Hi.
  - destruct j as [|j]; [lia|]. simpl in Hj. destruct i as [|i]; simpl in Hi.
    + injection Hi as <-. rewrite List.Forall_forall in Hx. apply Hx.
      apply list_elem_of_In, list_elem_of_lookup. eauto.
    + apply (IH i j); [done..|lia].
Qed.



(** *** The special prefix *)

Section SpecialPrefix.
Variable RECORD_TYPE_SOBJECT_NAME : string.
Local Abbreviation rk := (rank RECORD_TYPE_SOBJECT_NAME).
Local Abbreviation blocks := (blocks RECORD_TYPE_SOBJECT_NAME).

Lemma scanForIndex_bounds ts objName lower n indexToInsert :
  lower <= indexToInsert ->
  lower <= scanForIndex ts objName lower n indexToInsert /\
  (scanForIndex ts objName lower n indexToInsert = indexToInsert \/
   scanForIndex ts objName lower n indexToInsert < n).
Proof.
  revert indexToInsert. induction n as [|i IH]; intros ins Hins; simpl.
  - split; [done|by left].
  - destruct (Nat.ltb_spec i lower) as [Hlt | Hge]; [split; [done|by left]|].
    destruct (ts !! i) as [t|]; [destruct (namesObject _ _)|].
    + destruct (IH i Hge) as [Hlow [-> | Hlt]]; split; auto with lia.
    + destruct (IH ins Hins) as [Hlow [-> | Hlt]]; split; auto with lia.
    + destruct (IH ins Hins) as [Hlow [-> | Hlt]]; split; auto with lia.
Qed.

Lemma rank_newTask ix (o : ScriptObject) :
  rk (mkTask ix (setProcessAll o)) =
  if String.eqb (name o) RECORD_TYPE_SOBJECT_NAME then 0
  else if isReadonlyObject o then 1 else 2.
Proof. reflexivity. Qed.

Lemma addObject_blocks c ix o rts ros others :
  blocks c rts ros others ->
  exists rts' ros' others',
    blocks (addObject RECORD_TYPE_SOBJECT_NAME c ix o) rts' ros' others'.
Proof.
  intros (Hts & Hrts & Hros & Hothers & Hro & Hany).
  pose proof (rank_newTask ix o) as Hrank.
  unfold addObject. cbn [name isReadonlyObject setProcessAll].
  destruct (String.eqb (name o) RECORD_TYPE_SOBJECT_NAME).
  { exists (mkTask ix (setProcessAll o) :: rts), ros, others.
    unfold blocks. cbn [tasks lowerIndexForReadonlyObjects lowerIndexForAnyObjects].
    rewrite Hts, Hro, Hany. repeat split; try done. by constructor. }
  destruct (isReadonlyObject o).
  { exists rts, (mkTask ix (setProcessAll o) :: ros), others.
    unfold blocks. cbn [tasks lowerIndexForReadonlyObjects lowerIndexForAnyObjects].
    rewrite spliceInsert_nat, Hts, Hro, Hany.
    rewrite take_app_length, drop_app_length.
    repeat split; try done; by constructor. }
  destruct (Nat.eqb_spec (length (tasks c)) 0) as [Hempty | Hnonempty].
  { exists rts, ros, (others ++ [mkTask ix (setProcessAll o)]).
    unfold blocks. cbn [tasks lowerIndexForReadonlyObjects lowerIndexForAnyObjects].
    rewrite Hts, <- !app_assoc. repeat split; try done.
    apply Forall_app. split; [done|]. by apply Forall_singleton. }
  set (ins := scanForIndex _ _ _ _ _).
  assert (length rts + length ros <= ins <= length (tasks c)) as Hins.
  { assert (lowerIndexForAnyObjects c <= length (tasks c)) as Hle.
    { rewrite Hany, Hts, !length_app. lia. }
    destruct (scanForIndex_bounds (tasks c) (name o) (lowerIndexForAnyObjects c)
                (length (tasks c)) (length (tasks c)) Hle) as [Hlow Hup].
    fold ins in Hlow, Hup. lia. }
  exists rts, ros,
    (take (ins - (length rts + length ros)) others ++
     mkTask ix (setProcessAll o) :: drop (ins - (length rts + length ros)) others).
  unfold blocks. cbn [tasks lowerIndexForReadonlyObjects lowerIndexForAnyObjects].
  rewrite spliceInsert_nat, Hts.
  rewrite (app_assoc rts ros others).
  rewrite take_app_ge, drop_app_ge by (rewrite length_app; lia).
  rewrite length_app, <- !app_assoc.
  repeat split; try done.
  apply Forall_app. split; [by apply Forall_take|].
  constructor; [done|by apply Forall_drop].
Qed.

Lemma addObjects_blocks objects c ix rts ros others :
  blocks c rts ros others ->
  exists rts' ros' others',
    blocks (addObjects RECORD_TYPE_SOBJECT_NAME c ix objects) rts' ros' others'.
Proof.
  revert c ix rts ros others.
  induction objects as [|o rest IH]; intros c ix rts ros others Hb; simpl; [eauto|].
  destruct (addObject_blocks c ix o _ _ _ Hb) as (rts' & ros' & others' & Hb').
  eauto.
Qed.

Lemma placeObjects_blocks (objects : list ScriptObject) :
  exists rts ros others,
    placeObjects RECORD_TYPE_SOBJECT_NAME objects = rts ++ ros ++ others /\
    Forall (fun t => rk t = 0) rts /\
    Forall (fun t => rk t = 1) ros /\
    Forall (fun t => rk t = 2) others.
Proof.
  destruct (addObjects_blocks objects (mkChain [] 0 0) 0 [] [] [])
    as (rts & ros & others & Hts & Hrts & Hros & Hothers & _).
  { unfold blocks. simpl. repeat split; constructor. }
  exists rts, ros, others. done.
Qed.

Lemma blocks_specialPrefix (rts ros others : list Task) :
  Forall (fun t => rk t = 0) rts ->
  Forall (fun t => rk t = 1) ros ->
  Forall (fun t => rk t = 2) others ->
  specialPrefix RECORD_TYPE_SOBJECT_NAME (rts ++ ros ++ others).
Proof.
  intros Hrts Hros Hothers i j a b Hi Hj Hlt.
  rewrite Forall_lookup in Hrts, Hros, Hothers.
  apply lookup_app_Some in Hi as [Hi | [Hi1 Hi]].
  { rewrite (Hrts _ _ Hi). lia. }
  apply lookup_app_Some in Hj as [Hj | [Hj1 Hj]].
  { apply lookup_lt_Some in Hj. lia. }
  apply lookup_app_Some in Hi as [Hi | [Hi2 Hi]].
  - rewrite (Hros _ _ Hi).
    apply lookup_app_Some in Hj as [Hj | [Hj2 Hj]].
    + rewrite (Hros _ _ Hj). lia.
    + rewrite (Hothers _ _ Hj). lia.
  - apply lookup_app_Some in Hj as [Hj | [Hj2 Hj]].
    + apply lookup_lt_Some in Hj. lia.
    + rewrite (Hothers _ _ Hi), (Hothers _ _ Hj). lia.
Qed.

(** The placement loop alone always builds the special prefix. *)
Lemma placeObjects_specialPrefix (objects : list ScriptObject) :
  specialPrefix RECORD_TYPE_SOBJECT_NAME
                (placeObjects RECORD_TYPE_SOBJECT_NAME objects).
Proof.
  destruct (placeObjects_blocks objects) as (rts & ros & others & -> & H0 & H1 & H2).
  by apply blocks_specialPrefix.
Qed.

Lemma specialPrefix_recordTypeFirst (ts : list Task) :
  specialPrefix RECORD_TYPE_SOBJECT_NAME ts ->
  recordTypeFirst RECORD_TYPE_SOBJECT_NAME ts.
Proof.
  intros Hsp (j & t & Hj & Hname).
  destruct j as [|j]; [eauto|].
  destruct ts as [|t0 ts]; [done|]. exists t0. split; [done|].
  assert (rk t0 <= rk t) as Hle by (apply (Hsp 0 (S j)); [done..|lia]).
  revert Hle. unfold rank. rewrite Hname, String.eqb_refl.
  destruct (String.eqb_spec (sObjectName t0) RECORD_TYPE_SOBJECT_NAME); [done|].
  destruct (isReadonlyObject _); lia.
Qed.
End SpecialPrefix.


(** *** Relaxation passes behind a prefix of tasks without masters *)

Section BehindPrefix.
Variable pre : list Task.

Lemma other_task_behind (cur : list Task) (r : Task) :
  NoDup (map taskId (pre ++ cur)) -> r ∈ cur ->
  Forall (fun z => sameTask r z = false) pre.
Proof.
  intros Hnd Hr. apply Forall_forall. intros z Hz.
  destruct (sameTask r z) eqn:Hsame; [|done].
  apply sameTask_id in Hsame.
  rewrite fmap_app in Hnd. apply NoDup_app in Hnd as (_ & Hdisj & _).
  destruct (Hdisj (taskId z)).
  - by apply list_elem_of_fmap_2.
  - rewrite <- Hsame. by apply list_elem_of_fmap_2.
Qed.

Lemma putRightBeforeLeft_behind (cur : list Task) (l r : Task)
    (acc : list Task * bool) :
  fst acc = pre ++ cur -> NoDup (map taskId (pre ++ cur)) ->
  l ∈ cur -> r ∈ cur ->
  exists cur', fst (putRightBeforeLeft l acc r) = pre ++ cur' /\
               Permutation cur' cur.
Proof.
  intros Hacc Hnd Hl Hr. unfold putRightBeforeLeft.
  destruct (declaresMaster l r); [|by exists cur]. cbn [fst]. rewrite Hacc.
  destruct (indexOf_behind (sameTask r) pre cur) as (i & -> & Hi).
  { by apply (other_task_behind cur). }
  { exists r. split; [done|apply sameTask_refl]. }
  destruct (indexOf_behind (sameTask l) pre cur) as (k & -> & _).
  { by apply (other_task_behind cur). }
  { exists l. split; [done|apply sameTask_refl]. }
  rewrite spliceDelete1_behind, spliceInsert_behind.
  eexists. split; [done|]. rewrite <- Hi.
  apply move_perm; [|done].
  rewrite fmap_app in Hnd. by apply NoDup_app in Hnd as (_ & _ & Hnd).
Qed.

Lemma fold_putRightBeforeLeft_behind (l : Task) (rest cur : list Task)
    (acc : list Task * bool) :
  fst acc = pre ++ cur -> NoDup (map taskId (pre ++ cur)) ->
  l ∈ cur -> (forall r, r ∈ rest -> r ∈ cur) ->
  exists cur', fst (fold_left (putRightBeforeLeft l) rest acc) = pre ++ cur' /\
               Permutation cur' cur.
Proof.
  revert cur acc. induction rest as [|r rest IH]; intros cur acc Hacc Hnd Hl Hrest.
  - by exists cur.
  - simpl.
    destruct (putRightBeforeLeft_behind cur l r acc) as (cur1 & Hacc1 & Hp1);
      [done..| |].
    { apply Hrest, elem_of_cons. by left. }
    destruct (IH cur1 (putRightBeforeLeft l acc r)) as (cur2 & Hacc2 & Hp2).
    + done.
    + by rewrite Hp1.
    + by rewrite Hp1.
    + intros r' Hr'. rewrite Hp1. apply Hrest, elem_of_cons. by right.
    + exists cur2. split; [done|]. by rewrite Hp2.
Qed.

Lemma scanPairs_behind (tempTasks cur : list Task) (acc : list Task * bool) :
  fst acc = pre ++ cur -> NoDup (map taskId (pre ++ cur)) ->
  (forall t, t ∈ tempTasks -> t ∈ cur) ->
  exists cur', fst (scanPairs tempTasks acc) = pre ++ cur' /\
               Permutation cur' cur.
Proof.
  revert cur acc.
  induction tempTasks as [|l rest IH]; intros cur acc Hacc Hnd Htemp.
  - by exists cur.
  - simpl.
    destruct (fold_putRightBeforeLeft_behind l rest cur acc)
      as (cur1 & Hacc1 & Hp1); [done..| | |].
    { apply Htemp, elem_of_cons. by left. }
    { intros r Hr. apply Htemp, elem_of_cons. by right. }
    destruct (IH cur1 (fold_left (putRightBeforeLeft l) rest acc))
      as (cur2 & Hacc2 & Hp2).
    + done.
    + by rewrite Hp1.
    + intros t Ht. rewrite Hp1. apply Htemp, elem_of_cons. by right.
    + exists cur2. split; [done|]. by rewrite Hp2.
Qed.

Lemma fold_putRightBeforeLeft_noop (l : Task) (rest : list Task)
    (acc : list Task * bool) :
  Forall (fun r => declaresMaster l r = false) rest ->
  fold_left (putRightBeforeLeft l) rest acc = acc.
Proof.
  intros Hall. revert acc.
  induction Hall as [|r rest Hr _ IH]; intros acc; simpl; [done|].
  unfold putRightBeforeLeft at 2. rewrite Hr. apply IH.
Qed.

(** The tasks of [front] declare no master among the tasks scanned. *)
Lemma scanPairs_front (front tempTasks cur : list Task) (acc : list Task * bool) :
  fst acc = pre ++ cur -> NoDup (map taskId (pre ++ cur)) ->
  (forall z r, z ∈ front -> r ∈ front ++ tempTasks -> declaresMaster z r = false) ->
  (forall t, t ∈ tempTasks -> t ∈ cur) ->
  exists cur', fst (scanPairs (front ++ tempTasks) acc) = pre ++ cur' /\
               Permutation cur' cur.
Proof.
  intros Hacc Hnd Hfront Htemp.
  induction front as [|z front IH]; simpl.
  - by apply scanPairs_behind.
  - rewrite fold_putRightBeforeLeft_noop.
    + apply IH. intros z' r Hz' Hr.
      apply Hfront; apply elem_of_cons; by right.
    + apply Forall_forall. intros r Hr.
      apply Hfront; apply elem_of_cons; [by left|by right].
Qed.

Lemma putMasterDetailsBefore_behind (cur : list Task) :
  NoDup (map taskId (pre ++ cur)) ->
  (forall z r, z ∈ pre -> r ∈ pre ++ cur -> declaresMaster z r = false) ->
  exists cur', fst (putMasterDetailsBefore (pre ++ cur)) = pre ++ cur' /\
               Permutation cur' cur.
Proof.
  intros Hnd Hpre. unfold putMasterDetailsBefore.
  by apply scanPairs_front.
Qed.

Lemma relax_behind (n : nat) (swapped : bool) (cur : list Task) :
  NoDup (map taskId (pre ++ cur)) ->
  (forall z r, z ∈ pre -> r ∈ pre ++ cur -> declaresMaster z r = false) ->
  exists cur', fst (relax n swapped (pre ++ cur)) = pre ++ cur' /\
               Permutation cur' cur.
Proof.
  revert swapped cur.
  induction n as [|n IH]; intros swapped cur Hnd Hpre; simpl; [by exists cur|].
  destruct swapped; [|by exists cur].
  destruct (putMasterDetailsBefore_behind cur Hnd Hpre) as (cur1 & Heq1 & Hp1).
  rewrite Heq1.
  destruct (IH (snd (putMasterDetailsBefore (pre ++ cur))) cur1) as (cur2 & Heq2 & Hp2).
  - by rewrite Hp1.
  - intros z r Hz Hr. apply Hpre; [done|]. by rewrite <- Hp1.
  - exists cur2. split; [done|]. by rewrite Hp2.
Qed.
End BehindPrefix.


(** *** The special prefix after [setup] *)

Section SetupPrefix.
Variable RECORD_TYPE_SOBJECT_NAME : string.
Local Abbreviation rk := (rank RECORD_TYPE_SOBJECT_NAME).

(** Every task of the chain was made from an object of the script. *)
Lemma addObjects_origin (objects0 objects : list ScriptObject) (c : Chain) (ix : nat) :
  (forall o, o ∈ objects -> o ∈ objects0) ->
  Forall (fun t => exists o, o ∈ objects0 /\ scriptObject t = setProcessAll o) (tasks c) ->
  Forall (fun t => exists o, o ∈ objects0 /\ scriptObject t = setProcessAll o)
         (tasks (addObjects RECORD_TYPE_SOBJECT_NAME c ix objects)).
Proof.
  revert c ix. induction objects as [|o rest IH]; intros c ix Hsub Hc; simpl; [done|].
  apply IH.
  - intros o' Ho'. apply Hsub, elem_of_cons. by right.
  - rewrite (addObject_perm RECORD_TYPE_SOBJECT_NAME c ix o).
    constructor; [|done]. exists o. split; [|done].
    apply Hsub, elem_of_cons. by left.
Qed.

Lemma placeObjects_origin (objects : list ScriptObject) (t : Task) :
  t ∈ placeObjects RECORD_TYPE_SOBJECT_NAME objects ->
  exists o, o ∈ objects /\ scriptObject t = setProcessAll o.
Proof.
  intros Ht.
  assert (Forall (fun t => exists o, o ∈ objects /\ scriptObject t = setProcessAll o)
            (placeObjects RECORD_TYPE_SOBJECT_NAME objects)) as H.
  { apply addObjects_origin; [done|constructor]. }
  rewrite Forall_forall in H. by apply H.
Qed.

Lemma special_declares_no_master (objects : list ScriptObject) (z r : Task) :
  specialsHaveNoMaster RECORD_TYPE_SOBJECT_NAME objects = true ->
  z ∈ placeObjects RECORD_TYPE_SOBJECT_NAME objects ->
  r ∈ placeObjects RECORD_TYPE_SOBJECT_NAME objects ->
  rk z <> 2 ->
  declaresMaster z r = false.
Proof.
  intros Hno Hz Hr Hrank.
  destruct (placeObjects_origin objects z Hz) as (oz & Hoz & Hzo).
  destruct (placeObjects_origin objects r Hr) as (or & Hor & Hro).
  unfold specialsHaveNoMaster in Hno. rewrite forallb_forall in Hno.
  apply list_elem_of_In in Hoz, Hor.
  specialize (Hno oz Hoz). apply orb_true_iff in Hno as [Hns | Hall].
  - exfalso. apply Hrank. unfold rank, sObjectName. rewrite Hzo.
    unfold isSpecial in Hns. cbn [name isReadonlyObject setProcessAll].
    apply negb_true_iff, orb_false_iff in Hns as [-> ->]. done.
  - rewrite forallb_forall in Hall. specialize (Hall or Hor).
    apply negb_true_iff in Hall.
    unfold declaresMaster, sObjectName. by rewrite Hzo, Hro.
Qed.

End SetupPrefix.

(** *** The sample scripts *)

Example setup_contactBeforeAccount :
  map sObjectName (jobTasks (setup Samples.RecordType Samples.contactBeforeAccount)) =
  ["Account"; "Contact"]%string.
Proof. reflexivity. Qed.

Example setup_mixedObjects :
  map sObjectName (jobTasks (setup Samples.RecordType Samples.mixedObjects)) =
  ["RecordType"; "User"; "Profile"; "Account"; "Contact"]%string.
Proof. reflexivity. Qed.

(** Two details that share a master declared after them: the second move
    of the pass takes the master from before the first detail to behind
    the second one, and every pass repeats this. *)
Example setup_sharedMaster :
  map sObjectName (jobTasks (setup Samples.RecordType Samples.sharedMaster)) =
  ["Note"; "Line"; "Order"]%string.
Proof. reflexivity. Qed.

Example setup_readonlyDetail :
  map sObjectName (jobTasks (setup Samples.RecordType Samples.readonlyDetail)) =
  ["Order"; "Line"]%string.
Proof. reflexivity. Qed.






End MigrationJobFacts.
(** ** Properties of objects and maps *)

Module JsFacts.
Import Js.

Section MapFacts.
Context {V : Type}.
Implicit Types (m : JsMap V) (k : string) (v : V).

Lemma get_set m k k' v :
  get k' (set k v m) = if String.eqb k k' then Some v else get k' m.
Proof.
  induction m as [|[k0 v0] m IH]; simpl.
  - done.
  - destruct (String.eqb_spec k0 k) as [-> | Hne]; simpl.
    + by destruct (String.eqb k k').
    + rewrite IH. destruct (String.eqb_spec k0 k') as [-> | Hne']; [|done].
      by rewrite (proj2 (String.eqb_neq k k')).
Qed.

Lemma get_set_eq m k v : get k (set k v m) = Some v.
Proof. by rewrite get_set, String.eqb_refl. Qed.

Lemma get_set_ne m k k' v : k <> k' -> get k' (set k v m) = get k' m.
Proof. intros Hne. rewrite get_set. by rewrite (proj2 (String.eqb_neq k k')). Qed.

Lemma has_set m k k' v :
  has k' (set k v m) = String.eqb k k' || has k' m.
Proof. unfold has. rewrite get_set. by destruct (String.eqb k k'). Qed.

Lemma has_keys m k : has k m = true <-> k ∈ keys m.
Proof.
  unfold has, keys. induction m as [|[k0 v0] m IH]; simpl.
  - split; [done|]. intros H. by apply elem_of_nil in H.
  - rewrite elem_of_cons. destruct (String.eqb_spec k0 k) as [-> | Hne].
    + split; [by left|done].
    + rewrite IH. split; [by right|]. intros [-> | H]; done.
Qed.

Lemma has_false_keys m k : has k m = false <-> k ∉ keys m.
Proof.
  rewrite <- has_keys. destruct (has k m); split; try done.
  all: intros H; try (by destruct H); try discriminate.
Qed.

Lemma size_set m k v :
  size (set k v m) = if has k m then size m else S (size m).
Proof.
  unfold size, has. induction m as [|[k0 v0] m IH]; simpl; [done|].
  destruct (String.eqb k0 k); simpl; [done|].
  rewrite IH. by destruct (get k m).
Qed.

Lemma keys_set_fresh m k v :
  has k m = false -> keys (set k v m) = keys m ++ [k].
Proof.
  unfold has, keys. induction m as [|[k0 v0] m IH]; simpl; [done|].
  destruct (String.eqb k0 k); [done|]. intros H. simpl. by rewrite IH.
Qed.

Lemma keys_set_present m k v :
  has k m = true -> keys (set k v m) = keys m.
Proof.
  unfold has, keys. induction m as [|[k0 v0] m IH]; simpl; [done|].
  destruct (String.eqb k0 k); [done|]. intros H. simpl. by rewrite IH.
Qed.
Lemma get_remove m k k' :
  get k' (remove k m) = if String.eqb k k' then None else get k' m.
Proof.
  induction m as [|[k0 v0] m IH]; simpl.
  - by destruct (String.eqb k k').
  - destruct (String.eqb_spec k0 k) as [-> | Hne]; simpl.
    + rewrite IH. destruct (String.eqb k k'); done.
    + rewrite IH. destruct (String.eqb_spec k0 k') as [-> | Hne']; [|done].
      by rewrite (proj2 (String.eqb_neq k k')).
Qed.

Lemma has_remove m k k' :
  has k' (remove k m) = negb (String.eqb k k') && has k' m.
Proof. unfold has. rewrite get_remove. by destruct (String.eqb k k'). Qed.

Lemma has_get m k : has k m = true <-> exists v, get k m = Some v.
Proof.
  unfold has. destruct (get k m) as [v|]; split.
  - intros _. eauto.
  - done.
  - discriminate.
  - intros [v Hv]. discriminate.
Qed.

Lemma has_get_false m k : has k m = false <-> get k m = None.
Proof. unfold has. by destruct (get k m). Qed.

(** Writing back the value a key already has changes nothing. *)
Lemma set_same m k v : get k m = Some v -> set k v m = m.
Proof.
  induction m as [|[k0 v0] m IH]; simpl; [done|].
  destruct (String.eqb_spec k0 k) as [-> | Hne].
  - by intros [= ->].
  - intros H. by rewrite IH.
Qed.

Lemma keys_set m k v : forall k', k' ∈ keys (set k v m) <-> k' = k \/ k' ∈ keys m.
Proof.
  intros k'. rewrite <- !has_keys, has_set.
  destruct (String.eqb_spec k k') as [-> | Hne]; simpl; [naive_solver|].
  split; [by right|]. intros [-> | H]; done.
Qed.

Lemma keys_set_order m k v : has k m = true -> keys (set k v m) = keys m.
Proof. apply keys_set_present. Qed.

Lemma get_elem_of m k v : get k m = Some v -> (k, v) ∈ m.
Proof.
  induction m as [|[k0 v0] m IH]; simpl; [done|].
  destruct (String.eqb_spec k0 k) as [-> | Hne].
  - intros [= ->]. apply elem_of_cons. by left.
  - intros H. apply elem_of_cons. right. by apply IH.
Qed.

Lemma get_keys m k v : get k m = Some v -> k ∈ keys m.
Proof. intros H. apply has_keys, has_get. eauto. Qed.

Lemma keys_get m k : k ∈ keys m -> exists v, get k m = Some v.
Proof. intros H. by apply has_get, has_keys. Qed.

Lemma keys_mapValues (f : string -> V -> V) m : keys (mapValues f m) = keys m.
Proof.
  unfold keys, mapValues. rewrite map_map. by apply map_ext.
Qed.

Lemma get_mapValues (f : string -> V -> V) m k :
  get k (mapValues f m) = f k <$> get k m.
Proof.
  induction m as [|[k0 v0] m IH]; simpl; [done|].
  destruct (String.eqb_spec k0 k) as [-> | Hne]; [done|]. apply IH.
Qed.

Lemma size_mapValues (f : string -> V -> V) m : size (mapValues f m) = size m.
Proof. unfold size, mapValues. by rewrite length_map. Qed.

Lemma size_set_pos m k v : 0 < size (set k v m).
Proof. rewrite size_set. unfold size. destruct (has k m) eqn:H; [|lia].
  destruct m; [done|simpl; lia].
Qed.

End MapFacts.

Lemma truthy_toString (v : Value) : truthy v = true -> v = Some (toString v).
Proof. by destruct v. Qed.

(** *** Trimming *)

Lemma trimEnd_idem (s : string) : trimEnd (trimEnd s) = trimEnd s.
Proof.
  induction s as [|a s IH]; simpl; [done|].
  destruct (trimEnd s) as [|b r] eqn:Hr.
  - destruct (isWhite a) eqn:Ha; simpl; [done|]. by rewrite Ha.
  - simpl in *. destruct (trimEnd r) as [|c r'] eqn:Hr'.
    + destruct (isWhite b); [discriminate|]. by injection IH as ->.
    + by rewrite IH.
Qed.

Lemma trimStart_head (s : string) :
  trimStart s = EmptyString \/
  exists a r, trimStart s = String a r /\ isWhite a = false.
Proof.
  induction s as [|a s IH]; simpl; [by left|].
  destruct (isWhite a) eqn:Ha; [done|]. right. eauto.
Qed.

Lemma trimEnd_head (a : ascii) (r : string) :
  isWhite a = false -> exists r', trimEnd (String a r) = String a r'.
Proof.
  intros Ha. simpl. destruct (trimEnd r); [rewrite Ha|]; eauto.
Qed.

Lemma trim_idem (s : string) : trim (trim s) = trim s.
Proof.
  unfold trim.
  destruct (trimStart_head s) as [-> | (a & r & -> & Ha)]; [done|].
  destruct (trimEnd_head a r Ha) as [r' Hr']. rewrite Hr'.
  simpl trimStart. rewrite Ha, <- Hr'. apply trimEnd_idem.
Qed.

(** *** Rows that only grow *)

Lemma extends_refl (row : Row) : extends row row.
Proof. by intros k v. Qed.

Lemma extends_trans (r1 r2 r3 : Row) : extends r1 r2 -> extends r2 r3 -> extends r1 r3.
Proof. intros H12 H23 k v Hk. by apply H23, H12. Qed.

Lemma extends_set (row : Row) (k : string) (v : Value) :
  has k row = false -> extends row (set k v row).
Proof.
  intros Hk k' v' Hget. rewrite get_set_ne; [done|]. intros <-.
  apply has_get_false in Hk. congruence.
Qed.

Lemma extends_has (row row' : Row) (k : string) :
  extends row row' -> has k row = true -> has k row' = true.
Proof.
  intros Hext Hk. apply has_get in Hk as [v Hv]. apply has_get. eauto.
Qed.

Lemma extends_prop (row row' : Row) (k : string) :
  extends row row' -> has k row = true -> prop row' k = prop row k.
Proof.
  intros Hext Hk. apply has_get in Hk as [v Hv]. unfold prop.
  by rewrite Hv, (Hext _ _ Hv).
Qed.

End JsFacts.
(** ** Properties of the migration job task *)

Module MigrationJobTaskFacts.
Import Js JsFacts MigrationJobTask.

(** *** The index update *)

Section IndexUpdate.
Variable getRecordValue :
  string -> Row -> string -> option string -> option string -> Value.
Variable getComplexField : string -> string.
Variable t : Task.

Local Abbreviation step := (setExternalIdMapStep getRecordValue getComplexField t).
Local Abbreviation run := (setExternalIdMap getRecordValue getComplexField t).

Local Abbreviation yields := (yields getRecordValue getComplexField t).
Local Abbreviation extStep := (extStep getRecordValue getComplexField t).

Lemma step_ext acc record : fst (fst (step acc record)) = extStep (fst (fst acc)) record.
Proof.
  destruct acc as [[ext ids] n]. unfold setExternalIdMapStep, MigrationJobTask.extStep, MigrationJobTask.yields. simpl.
  destruct (truthy (prop record "Id")); [destruct (has _ ids)|]; done.
Qed.

Lemma step_ids acc record : snd (fst (step acc record)) = idStep (snd (fst acc)) record.
Proof.
  destruct acc as [[ext ids] n]. unfold setExternalIdMapStep, idStep. simpl.
  destruct (truthy (prop record "Id")); [destruct (has _ ids)|]; done.
Qed.

Lemma fold_ext records acc :
  fst (fst (fold_left step records acc)) = fold_left extStep records (fst (fst acc)).
Proof.
  revert acc. induction records as [|r rs IH]; intros acc; simpl; [done|].
  by rewrite IH, step_ext.
Qed.

Lemma fold_ids records acc :
  snd (fst (fold_left step records acc)) = fold_left idStep records (snd (fst acc)).
Proof.
  revert acc. induction records as [|r rs IH]; intros acc; simpl; [done|].
  by rewrite IH, step_ids.
Qed.

Lemma idStep_get ids record k r :
  get k ids = Some r -> get k (idStep ids record) = Some r.
Proof.
  intros Hget. unfold idStep. destruct (truthy _); [|done].
  destruct (has _ ids) eqn:Hhas; [done|].
  rewrite get_set_ne; [done|]. intros Heq. rewrite Heq in Hhas.
  unfold has in Hhas. by rewrite Hget in Hhas.
Qed.

Lemma fold_idStep_get records ids k r :
  get k ids = Some r -> get k (fold_left idStep records ids) = Some r.
Proof.
  revert ids. induction records as [|x rs IH]; intros ids Hget; simpl; [done|].
  by apply IH, idStep_get.
Qed.

Lemma newIdentifiers_nil ids : newIdentifiers [] ids = ∅.
Proof. unfold newIdentifiers. simpl. set_solver. Qed.

Lemma keys_set_set (ids : JsMap Row) k r :
  has k ids = false ->
  (list_to_set (keys (set k r ids)) : gset string) = {[k]} ∪ list_to_set (keys ids).
Proof.
  intros H. rewrite keys_set_fresh by done.
  rewrite list_to_set_app_L. simpl. set_solver.
Qed.

Lemma step_count acc record :
  snd (step acc record) =
  if isNew (snd (fst acc)) record then S (snd acc) else snd acc.
Proof.
  destruct acc as [[ext ids] n]. unfold setExternalIdMapStep, isNew. simpl.
  destruct (truthy (prop record "Id")); [destruct (has _ ids)|]; done.
Qed.

Lemma idStep_size ids record :
  size (idStep ids record) = if isNew ids record then S (size ids) else size ids.
Proof.
  unfold idStep, isNew. destruct (truthy _); [|done]. simpl.
  destruct (has _ ids) eqn:Hhas; [done|]. simpl. by rewrite size_set, Hhas.
Qed.

Lemma newIdentifiers_cons record records ids :
  base.size (newIdentifiers (record :: records) ids) =
  (if isNew ids record then 1 else 0) +
  base.size (newIdentifiers records (idStep ids record)).
Proof.
  unfold newIdentifiers, isNew, idStep. simpl. unfold identifierOf at 1.
  destruct (truthy (prop record "Id")); simpl; [|done].
  set (k := toString (prop record "Id")).
  set (S := list_to_set (omap identifierOf records) : gset string).
  destruct (has k ids) eqn:Hhas; simpl.
  - apply has_keys in Hhas. f_equal. set_solver.
  - rewrite keys_set_set by done. apply has_false_keys in Hhas.
    set (K := list_to_set (keys ids) : gset string).
    assert (k ∉ K) as HkK by (unfold K; set_solver).
    replace (({[k]} ∪ S) ∖ K) with ({[k]} ∪ (S ∖ ({[k]} ∪ K))).
    + rewrite size_union by set_solver. by rewrite size_singleton.
    + apply set_eq. intros x.
      rewrite !elem_of_union, !elem_of_difference, !elem_of_union, !elem_of_singleton.
      destruct (decide (x = k)) as [-> | Hne]; naive_solver.
Qed.

(** The count grows by the number of identifiers that are new. *)
Lemma fold_count records acc :
  snd (fold_left step records acc) =
  snd acc + base.size (newIdentifiers records (snd (fst acc))).
Proof.
  revert acc. induction records as [|r rs IH]; intros acc; simpl.
  - rewrite newIdentifiers_nil, size_empty. lia.
  - rewrite IH, step_count, step_ids, newIdentifiers_cons.
    destruct (isNew _ r); lia.
Qed.

Lemma fold_idStep_size records ids :
  size (fold_left idStep records ids) =
  size ids + base.size (newIdentifiers records ids).
Proof.
  revert ids. induction records as [|r rs IH]; intros ids; simpl.
  - rewrite newIdentifiers_nil, size_empty. lia.
  - rewrite IH, idStep_size, newIdentifiers_cons.
    destruct (isNew _ r); lia.
Qed.

(** C2.  Applying the index update to any sequence of fetched records
    never shrinks the identifier map, keeps the record of every
    identifier the map already held, and returns as count of new records
    exactly the number of identifiers, among those the records carry,
    that the map did not hold; the map grows by that count. *)
Theorem setExternalIdMap_identifier_index (records : list Row)
    (ext : JsMap Value) (ids : JsMap Row) :
  let result := run records ext ids in
  let ids' := snd (fst result) in
  let count := snd result in
  size ids <= size ids'
  /\ (forall (k : string) (r : Row), get k ids = Some r -> get k ids' = Some r)
  /\ count = base.size (newIdentifiers records ids)
  /\ size ids' = size ids + count.
Proof.
  intros result ids' count. subst count ids' result. unfold setExternalIdMap.
  rewrite fold_ids, fold_count. simpl.
  pose proof (fold_idStep_size records ids) as Hsize.
  repeat split; [lia| |lia].
  intros k r. apply fold_idStep_get.
Qed.

(** *** The external id map *)

Lemma extStep_untouched ext record :
  truthy (yields record) = false -> extStep ext record = ext.
Proof. unfold MigrationJobTask.extStep. by intros ->. Qed.

Lemma extStep_last ext record :
  truthy (yields record) = true ->
  get (toString (yields record)) (extStep ext record) = Some (prop record "Id"%string).
Proof. unfold MigrationJobTask.extStep. intros ->. apply get_set_eq. Qed.

(** C3.  When two fetched records yield the same non-empty external id
    value, the external id map, once both have been applied in fetch
    order, maps that value to the identifier of the later record; a
    record that yields an empty value leaves the map as it is. *)
Theorem setExternalIdMap_external_id_index (ext : JsMap Value) (ids : JsMap Row) :
  (forall (before between : list Row) (earlier later : Row),
      truthy (yields earlier) = true ->
      yields later = yields earlier ->
      get (toString (yields earlier))
          (fst (fst (run (before ++ earlier :: between ++ [later]) ext ids)))
      = Some (prop later "Id"%string))
  /\ (forall (record : Row) (n : nat),
        truthy (yields record) = false ->
        fst (fst (step (ext, ids, n) record)) = ext).
Proof.
  split.
  - intros before between earlier later Htruthy Hsame.
    unfold setExternalIdMap. rewrite fold_ext. simpl.
    replace (before ++ earlier :: between ++ [later])
      with ((before ++ earlier :: between) ++ [later])
      by (by rewrite <- app_assoc).
    rewrite fold_left_app. simpl.
    rewrite <- Hsame. apply extStep_last. by rewrite Hsame.
  - intros record n Hempty. rewrite step_ext. simpl.
    by apply extStep_untouched.
Qed.
End IndexUpdate.

(** *** Tasks that delete *)

Section RetrieveFacts.
Variable getRecordValue :
  string -> Row -> string -> option string -> option string -> Value.
Variable getComplexField : string -> string.
Variable distinctStringArray : list string -> list string.
Variable createFieldInQueries :
  list string -> string -> string -> list string -> list string.
Variable retrieveRecordsAsync : Endpoint -> string -> list Row.
Variable createQuery : Task -> string.
Variable createFilteredQueries : Task -> TaskData -> QueryMode -> bool -> list string.

(** C10.  For a task whose operation is Delete, [retrieveRecords]
    returns at once in every query mode and for both values of
    [reversed]: no query is sent and the identifier and external id maps
    of both sides are what they were. *)
Theorem retrieveRecords_delete (t : Task) (d : TaskData)
    (queryMode : QueryMode) (reversed : bool) :
  operation t = Delete ->
  retrieveRecords getRecordValue getComplexField distinctStringArray
    createFieldInQueries retrieveRecordsAsync createQuery createFilteredQueries
    t d queryMode reversed = (d, []).
Proof. intros Hop. unfold retrieveRecords. by rewrite Hop. Qed.
End RetrieveFacts.

(** *** Validation *)

Section ValidateFacts.
Variable readCsvFileAsync : string -> option nat -> list Row.
Variable now : string.
Variable getResourceString : RESOURCES -> string.

Lemma validateCSV_empty (t : Task) :
  readCsvFileAsync (sourceCsvFilename t) (Some 1) = [] ->
  validateCSV readCsvFileAsync now getResourceString t =
  [emptyFileIssue now getResourceString t].
Proof. intros Hread. unfold validateCSV. by rewrite Hread. Qed.

(** C6.  When the header read of the source file returns no row (the
    file is missing or empty), [validateCSV] returns exactly one issue:
    it names the task's object as child object, carries the empty-file
    message and no field; whatever fields the task has to update, none
    of them is checked. *)
Theorem validateCSV_missing_file (t : Task) :
  readCsvFileAsync (sourceCsvFilename t) (Some 1) = [] ->
  validateCSV readCsvFileAsync now getResourceString t =
    [mkIssue now (Some (sObjectName t)) None None None None None
             (getResourceString csvFileIsEmpty)]
  /\ (forall t' : Task,
        sObjectName t' = sObjectName t ->
        sourceCsvFilename t' = sourceCsvFilename t ->
        validateCSV readCsvFileAsync now getResourceString t' =
        validateCSV readCsvFileAsync now getResourceString t).
Proof.
  intros Hread. split; [by apply validateCSV_empty|].
  intros t' Hname Hfile.
  rewrite !validateCSV_empty by congruence.
  unfold emptyFileIssue. by rewrite Hname.
Qed.
End ValidateFacts.

(** *** The API engine *)

Section EngineFacts.
Variable targetCSVFilename : Task -> OPERATION -> string.

(** C9.  [createApiEngine] selects a bulk engine exactly when the amount
    of records exceeds the bulk threshold and the script does not force
    the REST API: version 2.0 when the configured version number is 2,
    version 1.0 otherwise; in every other case it selects the REST
    engine. *)
Theorem createApiEngine_choice (script : Script) (t : Task) (connectionData : string)
    (operation : OPERATION) (amountOfRecordsToProcess : Z) (updateRecordId : bool) :
  let engine :=
    createApiEngine targetCSVFilename script t connectionData operation
                    amountOfRecordsToProcess updateRecordId in
  ((bulkThreshold script < amountOfRecordsToProcess)%Z ->
   alwaysUseRestApiToUpdateRecords script = false ->
   (bulkApiVersionNumber script = 2%Z ->
    exists init, engine = BulkApiV2_0Engine init) /\
   (bulkApiVersionNumber script <> 2%Z ->
    exists init batchSize, engine = BulkApiV1_0Engine init batchSize))
  /\ ((amountOfRecordsToProcess <= bulkThreshold script)%Z \/
      alwaysUseRestApiToUpdateRecords script = true ->
      exists init allOrNone, engine = RestApiEngine init allOrNone).
Proof.
  intros engine. unfold engine, createApiEngine. split.
  - intros Hgt Hrest. rewrite Hrest. simpl.
    rewrite (proj2 (Z.ltb_lt _ _) Hgt). simpl. split.
    + intros ->. simpl. eauto.
    + intros Hne. rewrite (proj2 (Z.eqb_neq _ _) Hne). eauto.
  - intros [Hle | Hrest].
    + rewrite (proj2 (Z.ltb_ge _ _) Hle). simpl. eauto.
    + rewrite Hrest, andb_false_r. eauto.
Qed.
End EngineFacts.

(** *** The sample records *)

Lemma setExternalIdMap_identifier_index_witness :
  let result :=
    setExternalIdMap Samples.getRecordValue id (Samples.accountTask Upsert)
      [Samples.acme1; Samples.acme2; Samples.acme1] [] [("001"%string, Samples.noName)] in
  size [("001"%string, Samples.noName)] <= size (snd (fst result))
  /\ (forall (k : string) (r : Row),
        get k [("001"%string, Samples.noName)] = Some r ->
        get k (snd (fst result)) = Some r)
  /\ snd result = base.size (newIdentifiers [Samples.acme1; Samples.acme2; Samples.acme1]
                               [("001"%string, Samples.noName)])
  /\ size (snd (fst result)) = size [("001"%string, Samples.noName)] + snd result.
Proof.
  apply (setExternalIdMap_identifier_index Samples.getRecordValue id
           (Samples.accountTask Upsert)).
Defined.

Example setExternalIdMap_sample :
  setExternalIdMap Samples.getRecordValue id (Samples.accountTask Upsert)
    [Samples.acme1; Samples.acme2; Samples.acme1] [] [("001"%string, Samples.noName)]
  = ([("Acme"%string, Some "001"%string)],
     [("001"%string, Samples.noName); ("002"%string, Samples.acme2)], 1).
Proof. reflexivity. Qed.

Lemma setExternalIdMap_external_id_index_witness :
  truthy (yields Samples.getRecordValue id (Samples.accountTask Upsert) Samples.acme1) = true
  /\ get "Acme"%string
       (fst (fst (setExternalIdMap Samples.getRecordValue id (Samples.accountTask Upsert)
                    ([] ++ Samples.acme1 :: [Samples.noName] ++ [Samples.acme2]) [] [])))
     = Some (Some "002"%string)
  /\ fst (fst (setExternalIdMapStep Samples.getRecordValue id (Samples.accountTask Upsert)
                 ([], [], 0) Samples.noName)) = [].
Proof.
  split; [reflexivity|].
  pose proof (setExternalIdMap_external_id_index Samples.getRecordValue id
                (Samples.accountTask Upsert) [] []) as [Hlast Hempty].
  split.
  - apply (Hlast [] [Samples.noName] Samples.acme1 Samples.acme2); reflexivity.
  - apply (Hempty Samples.noName 0). reflexivity.
Defined.

Lemma retrieveRecords_delete_witness :
  operation (Samples.accountTask Delete) = Delete /\
  retrieveRecords Samples.getRecordValue id id (fun _ _ _ values => values)
    (fun _ _ => [Samples.acme1]) (fun _ => "SELECT Id, Name FROM Account"%string)
    (fun _ _ _ _ => ["SELECT Id, Name FROM Account WHERE Id IN ('001')"%string])
    (Samples.accountTask Delete) Samples.emptyData forwards false
  = (Samples.emptyData, []).
Proof.
  split; [reflexivity|].
  apply (retrieveRecords_delete Samples.getRecordValue id id (fun _ _ _ values => values)
           (fun _ _ => [Samples.acme1]) (fun _ => "SELECT Id, Name FROM Account"%string)
           (fun _ _ _ _ => ["SELECT Id, Name FROM Account WHERE Id IN ('001')"%string])
           (Samples.accountTask Delete) Samples.emptyData forwards false).
  reflexivity.
Defined.

(** The same call for a task that upserts does send its queries. *)
Example retrieveRecords_upsert_sample :
  retrieveRecords Samples.getRecordValue id id (fun _ _ _ values => values)
    (fun _ _ => [Samples.acme1]) (fun _ => "SELECT Id, Name FROM Account"%string)
    (fun _ _ _ _ => ["SELECT Id, Name FROM Account WHERE Id IN ('001')"%string])
    (Samples.accountTask Upsert) Samples.emptyData forwards false
  = (mkTaskData (mkOrgData [("Acme"%string, Some "001"%string)]
                           [("001"%string, Samples.acme1)])
                (mkOrgData [] []),
     [(SourceOrg, "SELECT Id, Name FROM Account WHERE Id IN ('001')"%string)]).
Proof. reflexivity. Qed.

Lemma validateCSV_missing_file_witness :
  validateCSV (fun _ _ => []) "2020-05-01"%string (fun _ => "The file is empty"%string)
    (Samples.accountTask Upsert) =
  [mkIssue "2020-05-01"%string (Some "Account"%string) None None None None None
           "The file is empty"%string].
Proof.
  destruct (validateCSV_missing_file (fun _ _ => []) "2020-05-01"%string
              (fun _ => "The file is empty"%string) (Samples.accountTask Upsert))
    as [Hone _]; [reflexivity|exact Hone].
Defined.

Lemma createApiEngine_choice_witness :
  exists init,
    createApiEngine (fun _ _ => "target/Account_insert_target.csv"%string)
      (Samples.script 200 2 false) (Samples.accountTask Insert) "org"%string
      Insert 201%Z true = BulkApiV2_0Engine init.
Proof.
  apply (createApiEngine_choice (fun _ _ => "target/Account_insert_target.csv"%string)
           (Samples.script 200 2 false) (Samples.accountTask Insert) "org"%string
           Insert 201%Z true); [reflexivity..].
Defined.


End MigrationJobTaskFacts.
(** ** Properties of the CSV repair *)

Module RepairFacts.
Import Js JsFacts MigrationJobTask.

(** *** The cache as a store of rows *)

Lemma rowsOf_setRows (c : CachedCSVContent) (path path' : string) (rows : FileMap) :
  rowsOf (setRows c path rows) path' =
  if String.eqb path path' then rows else rowsOf c path'.
Proof.
  unfold rowsOf, setRows. simpl. rewrite get_set.
  by destruct (String.eqb path path').
Qed.

Lemma rowsOf_setRows_eq (c : CachedCSVContent) (path : string) (rows : FileMap) :
  rowsOf (setRows c path rows) path = rows.
Proof. by rewrite rowsOf_setRows, String.eqb_refl. Qed.

Lemma rowsOf_setRows_ne (c : CachedCSVContent) (path path' : string) (rows : FileMap) :
  path <> path' -> rowsOf (setRows c path rows) path' = rowsOf c path'.
Proof. intros H. rewrite rowsOf_setRows. by rewrite (proj2 (String.eqb_neq _ _) H). Qed.

Lemma rowsOf_markUpdated (c : CachedCSVContent) (path path' : string) :
  rowsOf (markUpdated c path) path' = rowsOf c path'.
Proof. reflexivity. Qed.

Lemma rowsOf_setCounter (c : CachedCSVContent) (n : nat) (path : string) :
  rowsOf (setCounter c n) path = rowsOf c path.
Proof. reflexivity. Qed.

Lemma cached_setRows (c : CachedCSVContent) (path file : string) (rows : FileMap) :
  has file (csvDataCacheMap c) = true ->
  has file (csvDataCacheMap (setRows c path rows)) = true.
Proof. intros H. unfold setRows. simpl. rewrite has_set, H. apply orb_true_r. Qed.

Lemma cached_setRows_eq (c : CachedCSVContent) (path : string) (rows : FileMap) :
  has path (csvDataCacheMap (setRows c path rows)) = true.
Proof. unfold setRows. cbn [csvDataCacheMap]. by rewrite has_set, String.eqb_refl. Qed.

Lemma rowsOf_uncached (c : CachedCSVContent) (path : string) :
  has path (csvDataCacheMap c) = false -> rowsOf c path = [].
Proof. unfold rowsOf. intros H. apply has_get_false in H. by rewrite H. Qed.

(** A row found in the cache lies in a cached file. *)
Lemma row_cached (c : CachedCSVContent) (path id : string) (row : Row) :
  get id (rowsOf c path) = Some row -> has path (csvDataCacheMap c) = true.
Proof.
  intros H. destruct (has path (csvDataCacheMap c)) eqn:Hc; [done|].
  by rewrite rowsOf_uncached in H.
Qed.

Lemma setRows_same (c : CachedCSVContent) (path : string) :
  has path (csvDataCacheMap c) = true -> setRows c path (rowsOf c path) = c.
Proof.
  intros H. apply has_get in H as [rows Hrows]. unfold setRows, rowsOf.
  rewrite Hrows, (set_same _ _ _ Hrows). by destruct c.
Qed.

(** Writing back a row as it is leaves the cache as it is. *)
Lemma setRow_same (c : CachedCSVContent) (path id : string) (row : Row) :
  get id (rowsOf c path) = Some row -> setRow c path id row = c.
Proof.
  intros H. unfold setRow. rewrite (set_same _ _ _ H).
  apply setRows_same. by apply (row_cached c path id row).
Qed.

(** *** Reading through the cache *)

Section Reading.
Variable readCsvFile : string -> bool -> FileMap.

Lemma readCsvFileOnce_rows (c : CachedCSVContent) (path : string) (own : bool) :
  rowsOf (snd (readCsvFileOnce readCsvFile c path own)) path =
  fst (readCsvFileOnce readCsvFile c path own).
Proof.
  unfold readCsvFileOnce. destruct (get path (csvDataCacheMap c)) as [rows|] eqn:Hget; simpl.
  - unfold rowsOf. by rewrite Hget.
  - apply rowsOf_setRows_eq.
Qed.

Lemma readCsvFileOnce_cached (c : CachedCSVContent) (path : string) (own : bool) :
  has path (csvDataCacheMap (snd (readCsvFileOnce readCsvFile c path own))) = true.
Proof.
  unfold readCsvFileOnce. destruct (get path (csvDataCacheMap c)) as [rows|] eqn:Hget; simpl.
  - apply has_get. eauto.
  - rewrite has_set, String.eqb_refl. done.
Qed.

Lemma readCsvFileOnce_hit (c : CachedCSVContent) (path : string) (own : bool) :
  has path (csvDataCacheMap c) = true ->
  readCsvFileOnce readCsvFile c path own = (rowsOf c path, c).
Proof.
  intros H. apply has_get in H as [rows Hrows]. unfold readCsvFileOnce, rowsOf.
  by rewrite Hrows.
Qed.

(** Reading any file leaves a cached file, its rows, the set of changed
    paths and the counter as they are. *)
Lemma readCsvFileOnce_other (c : CachedCSVContent) (path file : string) (own : bool) :
  has file (csvDataCacheMap c) = true ->
  let c' := snd (readCsvFileOnce readCsvFile c path own) in
  has file (csvDataCacheMap c') = true
  /\ rowsOf c' file = rowsOf c file
  /\ updatedFilenames c' = updatedFilenames c
  /\ idCounter c' = idCounter c.
Proof.
  intros Hfile. unfold readCsvFileOnce.
  destruct (get path (csvDataCacheMap c)) as [rows|] eqn:Hget; simpl; [done|].
  repeat split; [by apply cached_setRows|].
  apply rowsOf_setRows_ne. intros ->.
  apply has_get in Hfile as [rows Hrows]. congruence.
Qed.
End Reading.

(** *** Rows that widen or grow *)

Section RowRelations.
Variable ok : string -> Prop.

Lemma widens_refl (row : Row) : widens ok row row.
Proof. split; intros k Hk; [done|by left]. Qed.

Lemma widens_trans (r1 r2 r3 : Row) :
  widens ok r1 r2 -> widens ok r2 r3 -> widens ok r1 r3.
Proof.
  intros [H12 H12'] [H23 H23']. split.
  - intros k Hk. by apply H23, H12.
  - intros k Hk. destruct (H23' k Hk) as [H2 | Ht]; [|by right]. by apply H12'.
Qed.

Lemma grows_refl (row : Row) : grows ok row row.
Proof. split; [apply extends_refl|]. intros k Hk. by left. Qed.

Lemma grows_trans (r1 r2 r3 : Row) :
  grows ok r1 r2 -> grows ok r2 r3 -> grows ok r1 r3.
Proof.
  intros [H12 H12'] [H23 H23']. split; [by apply (extends_trans r1 r2 r3)|].
  intros k Hk. destruct (H23' k Hk) as [H2 | Ht]; [|by right]. by apply H12'.
Qed.

Lemma grows_widens (row row' : Row) : grows ok row row' -> widens ok row row'.
Proof.
  intros [Hext Hnew]. split; [|done]. intros k Hk. by apply (extends_has row).
Qed.

Lemma widens_set (row : Row) (k : string) (v : Value) :
  ok k -> widens ok row (set k v row).
Proof.
  intros Hk. split; intros k' Hk'.
  - rewrite has_set, Hk'. apply orb_true_r.
  - rewrite has_set in Hk'. apply orb_true_iff in Hk' as [Heq | H]; [|by left].
    apply String.eqb_eq in Heq as <-. by right.
Qed.

Lemma grows_set (row : Row) (k : string) (v : Value) :
  ok k -> has k row = false -> grows ok row (set k v row).
Proof.
  intros Hk Hnew. split; [by apply extends_set|].
  by apply widens_set.
Qed.
End RowRelations.

(** *** Files whose rows change in place *)

Section Rowwise.
Variable R : Row -> Row -> Prop.
Hypothesis R_refl : forall row, R row row.
Hypothesis R_trans : forall r1 r2 r3, R r1 r2 -> R r2 r3 -> R r1 r3.

Lemma rowwise_refl (rows : FileMap) : rowwise R rows rows.
Proof. split; [done|]. intros id row H. eauto. Qed.

Lemma rowwise_trans (rows1 rows2 rows3 : FileMap) :
  rowwise R rows1 rows2 -> rowwise R rows2 rows3 -> rowwise R rows1 rows3.
Proof.
  intros [Hk12 H12] [Hk23 H23]. split; [congruence|].
  intros id row Hrow. destruct (H12 id row Hrow) as (row2 & Hrow2 & HR12).
  destruct (H23 id row2 Hrow2) as (row3 & Hrow3 & HR23). eauto.
Qed.

Lemma rowwise_set (rows : FileMap) (id : string) (row row' : Row) :
  get id rows = Some row -> R row row' -> rowwise R rows (set id row' rows).
Proof.
  intros Hrow HR. split.
  - apply keys_set_present, has_get. eauto.
  - intros id' r Hr. rewrite get_set.
    destruct (String.eqb_spec id id') as [<- | Hne]; [|eauto].
    exists row'. split; [done|]. congruence.
Qed.

Lemma rowwise_empty (rows rows' : FileMap) :
  rowwise R rows rows' -> rows' = [] <-> rows = [].
Proof.
  intros [Hkeys _]. unfold keys in Hkeys.
  destruct rows, rows'; simpl in *; try discriminate; done.
Qed.

Lemma rowwise_firstRow (rows rows' : FileMap) :
  rowwise R rows rows' -> R (firstRowOf rows) (firstRowOf rows').
Proof.
  intros [Hkeys Hrows]. destruct rows as [|[k0 r0] rest].
  - destruct rows'; [apply R_refl|discriminate].
  - destruct rows' as [|[k0' r0'] rest']; [discriminate|].
    simpl in Hkeys. injection Hkeys as -> _. simpl.
    destruct (Hrows k0 r0) as (row' & Hget & HR).
    + simpl. by rewrite String.eqb_refl.
    + simpl in Hget. rewrite String.eqb_refl in Hget. congruence.
Qed.
End Rowwise.

Lemma rowwise_impl (R R' : Row -> Row -> Prop) (rows rows' : FileMap) :
  (forall row row', R row row' -> R' row row') ->
  rowwise R rows rows' -> rowwise R' rows rows'.
Proof.
  intros Himpl [Hkeys Hrows]. split; [done|].
  intros id row Hrow. destruct (Hrows id row Hrow) as (row' & Hget & HR). eauto.
Qed.

Lemma rowwise_back (R : Row -> Row -> Prop) (rows rows' : FileMap) (id : string) (row' : Row) :
  rowwise R rows rows' -> get id rows' = Some row' ->
  exists row, get id rows = Some row /\ R row row'.
Proof.
  intros [Hkeys Hrows] Hget.
  pose proof (get_keys _ _ _ Hget) as Hin. rewrite Hkeys in Hin.
  apply keys_get in Hin as [row Hrow]. exists row. split; [done|].
  destruct (Hrows id row Hrow) as (row'' & Hget'' & HR). congruence.
Qed.


(** The first row keeps its [Id] column and its trimmed names when it
    widens. *)
Lemma widens_first_row (row row' : Row) :
  widens trimmed row row' ->
  has "Id"%string row = true /\ Forall (fun k => trim k = k) (keys row) ->
  has "Id"%string row' = true /\ Forall (fun k => trim k = k) (keys row').
Proof.
  intros [Hkeep Hnew] [Hid Htrim]. split; [by apply Hkeep|].
  apply Forall_forall. intros k Hk. apply has_keys in Hk.
  destruct (Hnew k Hk) as [Hold | Ht]; [|done].
  rewrite Forall_forall in Htrim. by apply Htrim, has_keys.
Qed.


(** *** The lookup columns *)

Section Repairing.
Variable getRecordValue :
  string -> Row -> string -> option string -> option string -> Value.
Variable now : string.
Variable getResourceString : RESOURCES -> string.
Variable readCsvFile : string -> bool -> FileMap.
Variable formatId : nat -> string.
Variable job : Job.
Variable t : Task.

Local Abbreviation file := (sourceCsvFilename t).
Local Abbreviation toRepair := (rowToRepair getRecordValue t).
Local Abbreviation rowStep :=
  (addLookupColumnsToRow getRecordValue now getResourceString formatId t).

Hypothesis reads_named_column : readsNamedColumn getRecordValue.

Local Set Default Proof Using "Type".

(** The names that the lemmas below let the repair add to a row. *)
Variable ok : string -> Prop.

(** A row that needs nothing stays so when it grows. *)
Lemma rowToRepair_extends (parentTask : Task) (sField : SFieldDescribe) (row row' : Row) :
  extends row row' ->
  toRepair parentTask sField row = false ->
  toRepair parentTask sField row' = false.
Proof using reads_named_column.
  intros Hext. unfold rowToRepair, desiredExternalIdValue.
  destruct (has (nameId sField) row) eqn:HI; destruct (has (fullName__r sField) row) eqn:HR;
    simpl; intros Hrow; try discriminate.
  - by rewrite (extends_has _ _ _ Hext HI), (extends_has _ _ _ Hext HR).
  - rewrite (extends_has _ _ _ Hext HI). simpl.
    destruct (has (fullName__r sField) row'); [done|]. simpl.
    by rewrite (extends_prop _ _ _ Hext HI).
  - rewrite (extends_has _ _ _ Hext HR). simpl.
    destruct (has (nameId sField) row'); [done|]. simpl.
    rewrite <- Hrow. f_equal. apply reads_named_column.
    by apply extends_prop.
Qed.

(** The loop body leaves a row that needs nothing, and the whole state,
    as they are. *)
Lemma rowStep_idle (parentTask : Task) (sField : SFieldDescribe)
    (parentCSVRowsMap : JsMap string) (st : LoopState) (id : string) :
  (forall row, get id (rowsOf (fst (fst st)) file) = Some row ->
               toRepair parentTask sField row = false) ->
  rowStep parentTask sField parentCSVRowsMap st id = st.
Proof.
  destruct st as [[c issues] changed]. simpl. intros Hidle.
  unfold addLookupColumnsToRow.
  destruct (get id (rowsOf c file)) as [row|] eqn:Hrow; [|done].
  specialize (Hidle row eq_refl). unfold rowToRepair in Hidle.
  destruct (has (nameId sField) row); destruct (has (fullName__r sField) row);
    simpl in *; try discriminate; try done; by rewrite Hidle.
Qed.

Lemma extends_set_later (row row' : Row) (k : string) (v : Value) :
  extends row row' -> has k row = false -> extends row (set k v row').
Proof.
  intros Hext Hk k' v' Hget. rewrite get_set_ne; [by apply Hext|].
  intros <-. apply has_get_false in Hk. congruence.
Qed.

(** What the loop body makes of a row. *)
Lemma rowStep_row (parentTask : Task) (sField : SFieldDescribe)
    (parentCSVRowsMap : JsMap string) (c : CachedCSVContent)
    (issues : list ICSVIssues) (changed : bool) (id : string) (row : Row) :
  ok (nameId sField) ->
  ok (fullName__r sField) ->
  get id (rowsOf c file) = Some row ->
  exists (row' : Row) (n : nat) (issues' : list ICSVIssues) (changed' : bool),
    rowStep parentTask sField parentCSVRowsMap (c, issues, changed) id =
      (setRow (setCounter c n) file id row', issues', changed')
    /\ grows ok row row'
    /\ toRepair parentTask sField row' = false.
Proof.
  intros HtI HtR Hrow.
  unfold addLookupColumnsToRow, nextId. rewrite Hrow.
  unfold rowToRepair.
  destruct (has (nameId sField) row) eqn:HI;
    destruct (has (fullName__r sField) row) eqn:HR; simpl.
  - (* both columns present *)
    exists row, (idCounter c), issues, changed.
    rewrite (setRow_same (setCounter c (idCounter c))) by done.
    split; [by destruct c|]. split; [apply grows_refl|]. by rewrite HI, HR.
  - (* the relationship column is missing *)
    destruct (truthy (prop row (nameId sField))) eqn:Hid.
    + destruct (get (toString (prop row (nameId sField)))
                    (rowsOf c (sourceCsvFilename parentTask))) as [parentCsvRow|].
      * eexists _, (idCounter c), _, _. split; [by destruct c|].
        split; [by apply grows_set|].
        rewrite !has_set, HI, String.eqb_refl, orb_true_r. done.
      * eexists _, _, _, _. split; [reflexivity|].
        split; [by apply grows_set|].
        rewrite !has_set, HI, String.eqb_refl, orb_true_r. done.
    + exists row, (idCounter c), issues, changed.
      rewrite (setRow_same (setCounter c (idCounter c))) by done.
      split; [by destruct c|]. split; [apply grows_refl|]. by rewrite HI, HR.
  - (* the id column is missing *)
    fold (desiredExternalIdValue getRecordValue t parentTask sField row).
    destruct (truthy (desiredExternalIdValue getRecordValue t parentTask sField row)) eqn:Hd.
    + destruct (get _ parentCSVRowsMap) as [parentKey|].
      * eexists _, (idCounter c), _, _. split; [by destruct c|].
        split; [by apply grows_set|].
        rewrite !has_set, HR, String.eqb_refl, orb_true_r. done.
      * eexists _, _, _, _. split; [reflexivity|].
        split; [by apply grows_set|].
        rewrite !has_set, HR, String.eqb_refl, orb_true_r. done.
    + exists row, (idCounter c), issues, changed.
      rewrite (setRow_same (setCounter c (idCounter c))) by done.
      split; [by destruct c|]. split; [apply grows_refl|]. by rewrite HI, HR.
  - (* both columns are missing *)
    eexists _, _, _, _. split; [reflexivity|]. split.
    + split.
      * apply extends_set_later; [by apply extends_set|done].
      * intros k. rewrite !has_set. intros Hk.
        apply orb_true_iff in Hk as [Hk | Hk]; [apply String.eqb_eq in Hk as <-; by right|].
        apply orb_true_iff in Hk as [Hk | Hk]; [apply String.eqb_eq in Hk as <-; by right|].
        by left.
    + rewrite !has_set, !String.eqb_refl, orb_true_r. done.
Qed.
(** The loop body as a change of the file. *)
Lemma rowStep_file (parentTask : Task) (sField : SFieldDescribe)
    (parentCSVRowsMap : JsMap string) (st : LoopState) (id : string) (row : Row) :
  ok (nameId sField) ->
  ok (fullName__r sField) ->
  get id (rowsOf (fst (fst st)) file) = Some row ->
  let c' := fst (fst (rowStep parentTask sField parentCSVRowsMap st id)) in
  exists row' : Row,
    rowsOf c' file = set id row' (rowsOf (fst (fst st)) file)
    /\ grows ok row row'
    /\ toRepair parentTask sField row' = false
    /\ has file (csvDataCacheMap c') = true.
Proof.
  destruct st as [[c issues] changed]. intros HtI HtR Hrow c'. subst c'.
  cbn [fst] in Hrow |- *.
  destruct (rowStep_row parentTask sField parentCSVRowsMap c issues changed id row
              HtI HtR Hrow) as (row' & n & issues' & changed' & -> & Hgrow & Hdone).
  exists row'. cbn [fst]. unfold setRow.
  rewrite rowsOf_setRows_eq, rowsOf_setCounter.
  split; [done|]. split; [done|]. split; [done|]. apply cached_setRows_eq.
Qed.

Lemma rowStep_absent (parentTask : Task) (sField : SFieldDescribe)
    (parentCSVRowsMap : JsMap string) (st : LoopState) (id : string) :
  get id (rowsOf (fst (fst st)) file) = None ->
  rowStep parentTask sField parentCSVRowsMap st id = st.
Proof.
  destruct st as [[c issues] changed]. cbn [fst]. intros Hrow.
  unfold addLookupColumnsToRow. by rewrite Hrow.
Qed.

(** A loop over rows that need nothing changes nothing. *)
Lemma rowLoop_idle (parentTask : Task) (sField : SFieldDescribe)
    (parentCSVRowsMap : JsMap string) (ids : list string) (st : LoopState) :
  (forall id row, get id (rowsOf (fst (fst st)) file) = Some row ->
                  toRepair parentTask sField row = false) ->
  fold_left (rowStep parentTask sField parentCSVRowsMap) ids st = st.
Proof.
  intros Hidle. induction ids as [|id ids IH]; simpl; [done|].
  rewrite rowStep_idle; [done|]. intros row. apply Hidle.
Qed.

(** The loop lets every row grow, and leaves the rows it has visited with
    nothing more to repair. *)
Lemma rowLoop_grow (parentTask : Task) (sField : SFieldDescribe)
    (parentCSVRowsMap : JsMap string) (ids : list string) (st : LoopState) :
  ok (nameId sField) ->
  ok (fullName__r sField) ->
  has file (csvDataCacheMap (fst (fst st))) = true ->
  let c' := fst (fst (fold_left (rowStep parentTask sField parentCSVRowsMap) ids st)) in
  rowwise (grows ok) (rowsOf (fst (fst st)) file) (rowsOf c' file)
  /\ has file (csvDataCacheMap c') = true
  /\ (forall id row', id ∈ ids -> get id (rowsOf c' file) = Some row' ->
                      toRepair parentTask sField row' = false).
Proof using reads_named_column.
  intros HtI HtR. revert st. induction ids as [|id ids IH]; intros st Hcached; simpl.
  - split; [apply rowwise_refl, grows_refl|]. split; [done|].
    intros id row' Hin. by apply elem_of_nil in Hin.
  - set (st1 := rowStep parentTask sField parentCSVRowsMap st id).
    destruct (get id (rowsOf (fst (fst st)) file)) as [row|] eqn:Hrow.
    + destruct (rowStep_file parentTask sField parentCSVRowsMap st id row HtI HtR Hrow)
        as (row1 & Hrows1 & Hgrow1 & Hdone1 & Hcached1).
      fold st1 in Hrows1, Hcached1.
      destruct (IH st1 Hcached1) as (Hrest & Hcached' & Hvisited).
      assert (rowwise (grows ok) (rowsOf (fst (fst st)) file) (rowsOf (fst (fst st1)) file))
        as Hfirst.
      { rewrite Hrows1. by apply (rowwise_set (grows ok) (grows_refl ok) _ id row row1). }
      split; [by apply (rowwise_trans (grows ok) (grows_trans ok) _ _ _ Hfirst)|].
      split; [done|].
      intros id' row' Hin Hget. apply elem_of_cons in Hin as [-> | Hin]; [|by eapply Hvisited].
      destruct Hrest as [_ Hrest].
      destruct (Hrest id row1) as (row'' & Hget'' & Hgrow'').
      { by rewrite Hrows1, get_set_eq. }
      assert (row'' = row') as -> by congruence.
      eapply rowToRepair_extends; [apply Hgrow''|done].
    + pose proof (rowStep_absent parentTask sField parentCSVRowsMap st id Hrow) as Hsame.
      fold st1 in Hsame. rewrite Hsame.
      destruct (IH st Hcached) as (Hrest & Hcached' & Hvisited).
      split; [done|]. split; [done|].
      intros id' row' Hin Hget. apply elem_of_cons in Hin as [-> | Hin]; [|by eapply Hvisited].
      destruct Hrest as [Hkeys _].
      apply get_keys in Hget. rewrite Hkeys in Hget.
      apply keys_get in Hget as [v Hv]. congruence.
Qed.

Local Abbreviation lookupStep :=
  (addMissingLookupColumns getRecordValue now getResourceString readCsvFile formatId job t).
Local Abbreviation fieldStep :=
  (repairLookupField getRecordValue now getResourceString readCsvFile formatId job t).

(** [___addMissingLookupColumnsAsync] lets every row of the file grow and
    leaves none to repair for its field. *)
Lemma lookupStep_grow (sField : SFieldDescribe)
    (acc : CachedCSVContent * list ICSVIssues) :
  ok (nameId sField) ->
  ok (fullName__r sField) ->
  has file (csvDataCacheMap (fst acc)) = true ->
  let c' := fst (lookupStep acc sField) in
  rowwise (grows ok) (rowsOf (fst acc) file) (rowsOf c' file)
  /\ has file (csvDataCacheMap c') = true
  /\ (forall parentTask id row',
        getTaskBySObjectName job (parentObjectName sField) = Some parentTask ->
        get id (rowsOf c' file) = Some row' ->
        toRepair parentTask sField row' = false).
Proof using reads_named_column.
  destruct acc as [c issues]. simpl. intros HtI HtR Hcached.
  unfold addMissingLookupColumns.
  destruct (getTaskBySObjectName job (parentObjectName sField)) as [parentTask|];
    [|by split; [apply rowwise_refl, grows_refl|]].
  destruct (readCsvFileOnce readCsvFile c (sourceCsvFilename parentTask) false)
    as [parentFileMap c1] eqn:Hread.
  destruct (readCsvFileOnce_other readCsvFile c (sourceCsvFilename parentTask) file false
              Hcached) as (Hcached1 & Hrows1 & _). rewrite Hread in Hcached1, Hrows1.
  simpl in Hcached1, Hrows1.
  set (pmap := rowsByValue getRecordValue _ _ _).
  pose proof (rowLoop_grow parentTask sField pmap (keys (rowsOf c1 file))
                (c1, issues, false) HtI HtR Hcached1) as Hloop.
  simpl in Hloop.
  destruct (fold_left _ _ _) as [[c2 issues2] changed2]. simpl in Hloop.
  destruct Hloop as (Hgrow & Hcached2 & Hvisited).
  rewrite Hrows1 in Hgrow.
  assert (rowsOf (if changed2 then markUpdated c2 file else c2) file = rowsOf c2 file)
    as Hrows2 by (by destruct changed2).
  assert (has file (csvDataCacheMap (if changed2 then markUpdated c2 file else c2)) = true)
    as Hcached3 by (by destruct changed2).
  simpl. rewrite Hrows2. split; [done|]. split; [done|].
  intros parentTask' id row' [= <-] Hget. apply (Hvisited id); [|done].
  destruct Hgrow as [Hkeys _]. rewrite Hrows1, <- Hkeys. by eapply get_keys.
Qed.

(** Where no row is left to repair, the step changes neither the rows, nor
    the set of changed paths, nor the issues. *)
Lemma lookupStep_idle (sField : SFieldDescribe)
    (acc : CachedCSVContent * list ICSVIssues) :
  has file (csvDataCacheMap (fst acc)) = true ->
  (forall parentTask id row,
      getTaskBySObjectName job (parentObjectName sField) = Some parentTask ->
      get id (rowsOf (fst acc) file) = Some row ->
      toRepair parentTask sField row = false) ->
  let acc' := lookupStep acc sField in
  has file (csvDataCacheMap (fst acc')) = true
  /\ rowsOf (fst acc') file = rowsOf (fst acc) file
  /\ updatedFilenames (fst acc') = updatedFilenames (fst acc)
  /\ snd acc' = snd acc.
Proof.
  destruct acc as [c issues]. simpl. intros Hcached Hidle.
  unfold addMissingLookupColumns.
  destruct (getTaskBySObjectName job (parentObjectName sField)) as [parentTask|]; [|done].
  destruct (readCsvFileOnce readCsvFile c (sourceCsvFilename parentTask) false)
    as [parentFileMap c1] eqn:Hread.
  destruct (readCsvFileOnce_other readCsvFile c (sourceCsvFilename parentTask) file false
              Hcached) as (Hcached1 & Hrows1 & Hupd1 & _).
  rewrite Hread in Hcached1, Hrows1, Hupd1. simpl in Hcached1, Hrows1, Hupd1.
  rewrite rowLoop_idle; [done|].
  simpl. intros id row Hget. apply (Hidle parentTask id); [done|]. by rewrite <- Hrows1.
Qed.

(** Whether the loop over [fieldsInQuery] calls
    [___addMissingLookupColumnsAsync] for a field. *)
Lemma fieldStep_unfold (acc : CachedCSVContent * list ICSVIssues) (sField : SFieldDescribe) :
  fieldStep acc sField =
  if isReference sField
     && negb (has (fullName__r sField) (firstRowOf (rowsOf (fst acc) file))
              && has (nameId sField) (firstRowOf (rowsOf (fst acc) file)))
  then lookupStep acc sField else acc.
Proof.
  unfold repairLookupField. by rewrite negb_andb.
Qed.

(** The loop over the fields lets every row grow; at its end, a field whose
    columns the first row does not both have has no row left to repair. *)
Lemma fieldLoop_grow (fields : list SFieldDescribe)
    (acc : CachedCSVContent * list ICSVIssues) :
  Forall (fun f => ok (nameId f) /\ ok (fullName__r f)) fields ->
  has file (csvDataCacheMap (fst acc)) = true ->
  let c' := fst (fold_left fieldStep fields acc) in
  rowwise (grows ok) (rowsOf (fst acc) file) (rowsOf c' file)
  /\ has file (csvDataCacheMap c') = true
  /\ (forall sField parentTask id row',
        In sField fields ->
        isReference sField = true ->
        getTaskBySObjectName job (parentObjectName sField) = Some parentTask ->
        has (fullName__r sField) (firstRowOf (rowsOf c' file))
          && has (nameId sField) (firstRowOf (rowsOf c' file)) = false ->
        get id (rowsOf c' file) = Some row' ->
        toRepair parentTask sField row' = false).
Proof using reads_named_column.
  intros Htrim. revert acc.
  induction Htrim as [|f fields [HtI HtR] _ IH]; intros acc Hcached; simpl.
  - split; [apply rowwise_refl, grows_refl|]. split; [done|]. by intros ? ? ? ? [].
  - set (acc1 := fieldStep acc f).
    assert (rowwise (grows ok) (rowsOf (fst acc) file) (rowsOf (fst acc1) file)
            /\ has file (csvDataCacheMap (fst acc1)) = true
            /\ (isReference f = true ->
                has (fullName__r f) (firstRowOf (rowsOf (fst acc) file))
                  && has (nameId f) (firstRowOf (rowsOf (fst acc) file)) = false ->
                forall parentTask id row1,
                  getTaskBySObjectName job (parentObjectName f) = Some parentTask ->
                  get id (rowsOf (fst acc1) file) = Some row1 ->
                  toRepair parentTask f row1 = false)) as (Hgrow1 & Hcached1 & Hdone1).
    { unfold acc1. rewrite fieldStep_unfold.
      destruct (isReference f); simpl;
        [|split; [apply rowwise_refl, grows_refl|split; [done|discriminate]]].
      destruct (has (fullName__r f) _ && has (nameId f) _); simpl;
        [split; [apply rowwise_refl, grows_refl|split; [done|discriminate]]|].
      destruct (lookupStep_grow f acc HtI HtR Hcached) as (Hg & Hc & Hd).
      split; [done|]. split; [done|]. intros _ _ parentTask id row1. apply Hd. }
    destruct (IH acc1 Hcached1) as (Hgrow & Hcached' & Hdone).
    split; [by apply (rowwise_trans (grows ok) (grows_trans ok) _ _ _ Hgrow1)|].
    split; [done|].
    intros sField parentTask id row' [<- | Hin] Href Hparent Hlacks Hget;
      [|by apply (Hdone sField parentTask id)].
    destruct (rowwise_back _ _ _ id row' Hgrow Hget) as (row1 & Hget1 & Hgrows).
    apply (rowToRepair_extends parentTask f row1 row'); [apply Hgrows|].
    apply (fun H => Hdone1 Href H parentTask id row1 Hparent Hget1).
    destruct (has (fullName__r f) (firstRowOf (rowsOf (fst acc) file))
              && has (nameId f) (firstRowOf (rowsOf (fst acc) file))) eqn:Hboth; [|done].
    apply andb_true_iff in Hboth as [HR HI].
    assert (grows ok (firstRowOf (rowsOf (fst acc) file))
                  (firstRowOf (rowsOf (fst (fold_left fieldStep fields acc1)) file)))
      as [Hext _].
    { apply (rowwise_firstRow (grows ok) (grows_refl ok)).
      by apply (rowwise_trans (grows ok) (grows_trans ok) _ _ _ Hgrow1). }
    by rewrite (extends_has _ _ _ Hext HR), (extends_has _ _ _ Hext HI) in Hlacks.
Qed.

(** On a file where such fields have no row left to repair, the loop over
    the fields changes neither the rows, nor the set of changed paths, nor
    the issues. *)
Lemma fieldLoop_idle (fields : list SFieldDescribe)
    (acc : CachedCSVContent * list ICSVIssues) :
  has file (csvDataCacheMap (fst acc)) = true ->
  (forall sField parentTask id row,
      In sField fields ->
      isReference sField = true ->
      getTaskBySObjectName job (parentObjectName sField) = Some parentTask ->
      has (fullName__r sField) (firstRowOf (rowsOf (fst acc) file))
        && has (nameId sField) (firstRowOf (rowsOf (fst acc) file)) = false ->
      get id (rowsOf (fst acc) file) = Some row ->
      toRepair parentTask sField row = false) ->
  let acc' := fold_left fieldStep fields acc in
  has file (csvDataCacheMap (fst acc')) = true
  /\ rowsOf (fst acc') file = rowsOf (fst acc) file
  /\ updatedFilenames (fst acc') = updatedFilenames (fst acc)
  /\ snd acc' = snd acc.
Proof.
  revert acc. induction fields as [|f fields IH]; intros acc Hcached Hidle; simpl; [done|].
  set (acc1 := fieldStep acc f).
  assert (has file (csvDataCacheMap (fst acc1)) = true
          /\ rowsOf (fst acc1) file = rowsOf (fst acc) file
          /\ updatedFilenames (fst acc1) = updatedFilenames (fst acc)
          /\ snd acc1 = snd acc) as (Hcached1 & Hrows1 & Hupd1 & Hiss1).
  { unfold acc1. rewrite fieldStep_unfold.
    destruct (isReference f) eqn:Href; simpl; [|done].
    destruct (has (fullName__r f) _ && has (nameId f) _) eqn:Hboth; simpl; [done|].
    apply lookupStep_idle; [done|].
    intros parentTask id row Hparent Hget.
    apply (Hidle f parentTask id); try done. by left. }
  destruct (IH acc1 Hcached1) as (Hcached' & Hrows' & Hupd' & Hiss').
  { intros sField parentTask id row Hin Href Hparent Hlacks Hget.
    rewrite Hrows1 in Hlacks, Hget. apply (Hidle sField parentTask id); try done.
    by right. }
  split; [done|]. split; [congruence|]. split; congruence.
Qed.


(** *** The column names *)

Lemma renameColumn_has (row : Row) (column k : string) :
  has k (renameColumn row column) = true ->
  k <> column /\ (k = trim column \/ has k row = true).
Proof.
  unfold renameColumn. rewrite has_remove, has_set. intros H.
  apply andb_true_iff in H as [Hne H]. apply negb_true_iff, String.eqb_neq in Hne.
  split; [congruence|]. apply orb_true_iff in H as [H | H]; [|by right].
  apply String.eqb_eq in H. by left.
Qed.

Lemma renameColumns_has (columns : list string) (row : Row) (k : string) :
  has k (fold_left renameColumn columns row) = true ->
  (has k row = true /\ ~ In k columns) \/ trim k = k.
Proof.
  revert row. induction columns as [|column columns IH]; intros row Hk; simpl in *.
  - left. split; [done|]. by intros [].
  - destruct (IH _ Hk) as [[Hrow Hnotin] | Htrim]; [|by right].
    apply renameColumn_has in Hrow as [Hne [-> | Hrow]].
    + right. apply trim_idem.
    + left. split; [done|]. intros [-> | Hin]; done.
Qed.

Lemma columnsToTrim_others (row : Row) (k : string) :
  has k row = true -> ~ In k (columnsToTrim row) -> trim k = k.
Proof.
  intros Hk Hnotin. unfold columnsToTrim in Hnotin.
  destruct (String.eqb_spec k (trim k)) as [Heq | Hne]; [done|].
  exfalso. apply Hnotin. apply filter_In. split.
  - apply list_elem_of_In, has_keys, Hk.
  - by apply negb_true_iff, String.eqb_neq.
Qed.

Lemma columnsToTrim_nil (row : Row) :
  columnsToTrim row = [] <-> Forall (fun k => trim k = k) (keys row).
Proof.
  unfold columnsToTrim. split.
  - intros Hnil. apply Forall_forall. intros k Hk.
    apply (columnsToTrim_others row); [by apply has_keys|].
    unfold columnsToTrim. rewrite Hnil. by intros [].
  - intros Hall. induction Hall as [|k ks Hk _ IH]; simpl; [done|].
    by rewrite Hk, String.eqb_refl.
Qed.

(** After [___trimColumnNames] every column name of the first row is
    trimmed. *)
Lemma trimColumnNames_first_row (c : CachedCSVContent) :
  has file (csvDataCacheMap c) = true ->
  let c' := trimColumnNames t c in
  has file (csvDataCacheMap c') = true
  /\ keys (rowsOf c' file) = keys (rowsOf c file)
  /\ Forall (fun k => trim k = k) (keys (firstRowOf (rowsOf c' file))).
Proof.
  intros Hcached. unfold trimColumnNames.
  destruct (columnsToTrim (firstRowOf (rowsOf c file))) as [|column columns] eqn:Hcols.
  - split; [done|]. split; [done|]. by apply columnsToTrim_nil.
  - rewrite rowsOf_markUpdated, rowsOf_setRows_eq, keys_mapValues.
    split; [by apply cached_setRows|]. split; [done|].
    assert (rowsOf c file <> []) as Hrows.
    { intros Hnil. by rewrite Hnil in Hcols. }
    destruct (rowsOf c file) as [|[id row] rows]; [done|].
    cbn [mapValues map firstRowOf fst snd] in *.
    apply Forall_forall. intros k Hk. apply has_keys in Hk.
    destruct (renameColumns_has _ _ _ Hk) as [[Hrow Hnotin] | Htrim]; [|done].
    apply (columnsToTrim_others row); [done|].
    by rewrite Hcols.
Qed.

Lemma trimColumnNames_idle (c : CachedCSVContent) :
  Forall (fun k => trim k = k) (keys (firstRowOf (rowsOf c file))) ->
  trimColumnNames t c = c.
Proof.
  intros Hall. unfold trimColumnNames. by rewrite (proj2 (columnsToTrim_nil _) Hall).
Qed.

(** *** The identifier column and the child files *)

Lemma addMissingIdColumn_first_row (c : CachedCSVContent) :
  has file (csvDataCacheMap c) = true ->
  rowsOf c file <> [] ->
  Forall (fun k => trim k = k) (keys (firstRowOf (rowsOf c file))) ->
  let c' := addMissingIdColumn t c in
  has file (csvDataCacheMap c') = true
  /\ keys (rowsOf c' file) = keys (rowsOf c file)
  /\ has "Id"%string (firstRowOf (rowsOf c' file)) = true
  /\ Forall (fun k => trim k = k) (keys (firstRowOf (rowsOf c' file))).
Proof.
  intros Hcached Hrows Htrim. unfold addMissingIdColumn.
  rewrite rowsOf_markUpdated, rowsOf_setRows_eq, keys_mapValues.
  split; [by apply cached_setRows|]. split; [done|].
  destruct (rowsOf c file) as [|[id row] rows]; [done|]. cbn [mapValues map firstRowOf fst snd] in *.
  split; [by rewrite has_set|].
  apply Forall_forall. intros k Hk. apply keys_set in Hk as [-> | Hk]; [done|].
  rewrite Forall_forall in Htrim. by apply Htrim.
Qed.

Local Abbreviation childRowStep := (updateChildRow getRecordValue t).
Local Abbreviation childStep :=
  (updateChildOriginalIdColumns getRecordValue now getResourceString readCsvFile job t).

Lemma childRowStep_widen (childTask : Task) (childIdSField : SFieldDescribe)
    (parentCSVExtIdMap : JsMap string) (st : LoopState) (key : string) :
  ok (nameId childIdSField) ->
  ok (fullIdName__r childIdSField) ->
  has file (csvDataCacheMap (fst (fst st))) = true ->
  let c' := fst (fst (childRowStep childTask childIdSField parentCSVExtIdMap st key)) in
  rowwise (widens ok) (rowsOf (fst (fst st)) file) (rowsOf c' file)
  /\ has file (csvDataCacheMap c') = true.
Proof.
  destruct st as [[c issues] changed]. cbn [fst]. intros HtI HtR Hcached.
  unfold updateChildRow.
  destruct (get key (rowsOf c (sourceCsvFilename childTask))) as [csvRow|] eqn:Hrow;
    [|by split; [apply rowwise_refl, widens_refl|]].
  destruct (truthy _); [|by split; [apply rowwise_refl, widens_refl|]].
  destruct (get _ parentCSVExtIdMap) as [parentKey|];
    [|by split; [apply rowwise_refl, widens_refl|]].
  cbn [fst]. unfold setRow. split; [|by apply cached_setRows].
  rewrite rowsOf_setRows.
  destruct (String.eqb_spec (sourceCsvFilename childTask) file) as [Heq | Hne];
    [|apply rowwise_refl, widens_refl].
  rewrite Heq in *.
  apply (rowwise_set (widens ok) (widens_refl ok) _ key csvRow); [done|].
  eapply widens_trans; by apply widens_set.
Qed.

Lemma childRowLoop_widen (childTask : Task) (childIdSField : SFieldDescribe)
    (parentCSVExtIdMap : JsMap string) (keys : list string) (st : LoopState) :
  ok (nameId childIdSField) ->
  ok (fullIdName__r childIdSField) ->
  has file (csvDataCacheMap (fst (fst st))) = true ->
  let c' := fst (fst (fold_left (childRowStep childTask childIdSField parentCSVExtIdMap)
                                keys st)) in
  rowwise (widens ok) (rowsOf (fst (fst st)) file) (rowsOf c' file)
  /\ has file (csvDataCacheMap c') = true.
Proof.
  intros HtI HtR. revert st. induction keys as [|key keys IH]; intros st Hcached; simpl.
  - split; [apply rowwise_refl, widens_refl|done].
  - destruct (childRowStep_widen childTask childIdSField parentCSVExtIdMap st key
                HtI HtR Hcached) as [Hw1 Hc1].
    destruct (IH _ Hc1) as [Hw Hc].
    split; [by apply (rowwise_trans (widens ok) (widens_trans ok) _ _ _ Hw1)|done].
Qed.

Lemma childStep_widen (childIdSField : SFieldDescribe)
    (acc : CachedCSVContent * list ICSVIssues) :
  ok (nameId childIdSField) ->
  ok (fullIdName__r childIdSField) ->
  has file (csvDataCacheMap (fst acc)) = true ->
  let c' := fst (childStep acc childIdSField) in
  rowwise (widens ok) (rowsOf (fst acc) file) (rowsOf c' file)
  /\ has file (csvDataCacheMap c') = true.
Proof.
  destruct acc as [c issues]. cbn [fst]. intros HtI HtR Hcached.
  unfold updateChildOriginalIdColumns.
  destruct (negb _); [|by split; [apply rowwise_refl, widens_refl|]].
  destruct (getTaskBySObjectName job _) as [childTask|];
    [|by split; [apply rowwise_refl, widens_refl|]].
  destruct (readCsvFileOnce readCsvFile c (sourceCsvFilename childTask) false)
    as [childFileMap c1] eqn:Hread.
  destruct (readCsvFileOnce_other readCsvFile c (sourceCsvFilename childTask) file false
              Hcached) as (Hcached1 & Hrows1 & _).
  rewrite Hread in Hcached1, Hrows1. cbn [snd] in Hcached1, Hrows1.
  rewrite <- Hrows1.
  destruct (0 <? size childFileMap); [|by split; [apply rowwise_refl, widens_refl|]].
  destruct (has _ (firstRowOf childFileMap));
    [|by split; [apply rowwise_refl, widens_refl|]].
  set (pmap := rowsByValue getRecordValue _ _ _).
  pose proof (childRowLoop_widen childTask childIdSField pmap (keys childFileMap)
                (c1, issues, false) HtI HtR Hcached1) as Hloop.
  cbn [fst] in Hloop.
  destruct (fold_left _ _ _) as [[c2 issues2] changed2]. cbn [fst] in Hloop |- *.
  by destruct changed2.
Qed.

Lemma childLoop_widen (childFields : list SFieldDescribe)
    (acc : CachedCSVContent * list ICSVIssues) :
  Forall (fun f => ok (nameId f) /\ ok (fullIdName__r f)) childFields ->
  has file (csvDataCacheMap (fst acc)) = true ->
  let c' := fst (fold_left childStep childFields acc) in
  rowwise (widens ok) (rowsOf (fst acc) file) (rowsOf c' file)
  /\ has file (csvDataCacheMap c') = true.
Proof.
  intros Htrim. revert acc.
  induction Htrim as [|f childFields [HtI HtR] _ IH]; intros acc Hcached; simpl.
  - split; [apply rowwise_refl, widens_refl|done].
  - destruct (childStep_widen f acc HtI HtR Hcached) as [Hw1 Hc1].
    destruct (IH _ Hc1) as [Hw Hc].
    split; [by apply (rowwise_trans (widens ok) (widens_trans ok) _ _ _ Hw1)|done].
Qed.



(** *** The rows and the set of changed paths, whatever the values *)

Lemma rowLoop_rows (parentTask : Task) (sField : SFieldDescribe)
    (parentCSVRowsMap : JsMap string) (ids : list string) (st : LoopState) :
  ok (nameId sField) ->
  ok (fullName__r sField) ->
  has file (csvDataCacheMap (fst (fst st))) = true ->
  let c' := fst (fst (fold_left (rowStep parentTask sField parentCSVRowsMap) ids st)) in
  rowwise (grows ok) (rowsOf (fst (fst st)) file) (rowsOf c' file)
  /\ has file (csvDataCacheMap c') = true.
Proof.
  intros HtI HtR. revert st. induction ids as [|id ids IH]; intros st Hcached; simpl.
  - split; [apply rowwise_refl, grows_refl|done].
  - destruct (get id (rowsOf (fst (fst st)) file)) as [row|] eqn:Hrow.
    + destruct (rowStep_file parentTask sField parentCSVRowsMap st id row HtI HtR Hrow)
        as (row1 & Hrows1 & Hgrow1 & _ & Hcached1).
      destruct (IH _ Hcached1) as (Hrest & Hcached').
      split; [|done].
      apply (rowwise_trans (grows ok) (grows_trans ok) _ _ _) with (2 := Hrest).
      rewrite Hrows1. by apply (rowwise_set (grows ok) (grows_refl ok) _ id row row1).
    + rewrite (rowStep_absent parentTask sField parentCSVRowsMap st id Hrow).
      by apply IH.
Qed.

Lemma lookupStep_rows (sField : SFieldDescribe)
    (acc : CachedCSVContent * list ICSVIssues) :
  ok (nameId sField) ->
  ok (fullName__r sField) ->
  has file (csvDataCacheMap (fst acc)) = true ->
  let c' := fst (lookupStep acc sField) in
  rowwise (grows ok) (rowsOf (fst acc) file) (rowsOf c' file)
  /\ has file (csvDataCacheMap c') = true.
Proof.
  destruct acc as [c issues]. cbn [fst]. intros HtI HtR Hcached.
  unfold addMissingLookupColumns.
  destruct (getTaskBySObjectName job (parentObjectName sField)) as [parentTask|];
    [|by split; [apply rowwise_refl, grows_refl|]].
  destruct (readCsvFileOnce readCsvFile c (sourceCsvFilename parentTask) false)
    as [parentFileMap c1] eqn:Hread.
  destruct (readCsvFileOnce_other readCsvFile c (sourceCsvFilename parentTask) file false
              Hcached) as (Hcached1 & Hrows1 & _).
  rewrite Hread in Hcached1, Hrows1. cbn [snd] in Hcached1, Hrows1.
  set (pmap := rowsByValue getRecordValue _ _ _).
  pose proof (rowLoop_rows parentTask sField pmap (keys (rowsOf c1 file))
                (c1, issues, false) HtI HtR Hcached1) as Hloop.
  cbn [fst] in Hloop.
  destruct (fold_left _ _ _) as [[c2 issues2] changed2]. cbn [fst] in Hloop |- *.
  rewrite Hrows1 in Hloop. by destruct changed2.
Qed.

Lemma fieldStep_rows (sField : SFieldDescribe)
    (acc : CachedCSVContent * list ICSVIssues) :
  ok (nameId sField) ->
  ok (fullName__r sField) ->
  has file (csvDataCacheMap (fst acc)) = true ->
  let c' := fst (fieldStep acc sField) in
  rowwise (grows ok) (rowsOf (fst acc) file) (rowsOf c' file)
  /\ has file (csvDataCacheMap c') = true.
Proof.
  intros HtI HtR Hcached. unfold repairLookupField.
  destruct (_ && _); [by apply lookupStep_rows|].
  split; [apply rowwise_refl, grows_refl|done].
Qed.

Lemma fieldLoop_rows (fields : list SFieldDescribe)
    (acc : CachedCSVContent * list ICSVIssues) :
  Forall (fun f => ok (nameId f) /\ ok (fullName__r f)) fields ->
  has file (csvDataCacheMap (fst acc)) = true ->
  let c' := fst (fold_left fieldStep fields acc) in
  rowwise (grows ok) (rowsOf (fst acc) file) (rowsOf c' file)
  /\ has file (csvDataCacheMap c') = true.
Proof.
  intros Hok. revert acc.
  induction Hok as [|f fields [HtI HtR] _ IH]; intros acc Hcached; simpl.
  - split; [apply rowwise_refl, grows_refl|done].
  - destruct (fieldStep_rows f acc HtI HtR Hcached) as [Hgrow1 Hcached1].
    destruct (IH _ Hcached1) as [Hgrow Hcached'].
    split; [|done].
    by apply (rowwise_trans (grows ok) (grows_trans ok) _ _ _ Hgrow1).
Qed.

(** The loop body never touches the set of changed paths; it raises
    [isFileChanged] exactly when it changes the row. *)
Lemma rowStep_marks (parentTask : Task) (sField : SFieldDescribe)
    (parentCSVRowsMap : JsMap string) (st : LoopState) (id : string) :
  updatedFilenames (fst (fst (rowStep parentTask sField parentCSVRowsMap st id))) =
  updatedFilenames (fst (fst st)).
Proof.
  destruct st as [[c issues] changed].
  unfold addLookupColumnsToRow, nextId. cbn [fst].
  repeat case_match; reflexivity.
Qed.

Lemma rowStep_flag (parentTask : Task) (sField : SFieldDescribe)
    (parentCSVRowsMap : JsMap string) (st : LoopState) (id : string) :
  snd (rowStep parentTask sField parentCSVRowsMap st id) = false ->
  rowStep parentTask sField parentCSVRowsMap st id = st
  /\ (forall row, get id (rowsOf (fst (fst st)) file) = Some row ->
                  toRepair parentTask sField row = false).
Proof.
  destruct st as [[c issues] changed].
  unfold addLookupColumnsToRow, nextId. cbn [fst snd].
  destruct (get id (rowsOf c file)) as [row|]; [|done].
  intros Hflag.
  match goal with
  | |- ?step = _ /\ _ =>
      enough (step = (c, issues, changed) /\ toRepair parentTask sField row = false)
        as [Hsame Hidle] by (split; [exact Hsame|intros row0 [= <-]; exact Hidle])
  end.
  revert Hflag. unfold rowToRepair.
  fold (desiredExternalIdValue getRecordValue t parentTask sField row).
  destruct (has (nameId sField) row); destruct (has (fullName__r sField) row);
    cbn [negb snd]; try done.
  - destruct (truthy (prop row (nameId sField))); [|done].
    destruct (get _ (rowsOf c (sourceCsvFilename parentTask))); discriminate.
  - destruct (truthy (desiredExternalIdValue getRecordValue t parentTask sField row));
      [|done].
    destruct (get _ parentCSVRowsMap); discriminate.
Qed.

Lemma rowStep_flag_kept (parentTask : Task) (sField : SFieldDescribe)
    (parentCSVRowsMap : JsMap string) (st : LoopState) (id : string) :
  snd st = true -> snd (rowStep parentTask sField parentCSVRowsMap st id) = true.
Proof.
  destruct st as [[c issues] changed]. cbn [snd]. intros ->.
  unfold addLookupColumnsToRow, nextId.
  repeat case_match; reflexivity.
Qed.

Lemma rowLoop_marks (parentTask : Task) (sField : SFieldDescribe)
    (parentCSVRowsMap : JsMap string) (ids : list string) (st : LoopState) :
  updatedFilenames
    (fst (fst (fold_left (rowStep parentTask sField parentCSVRowsMap) ids st))) =
  updatedFilenames (fst (fst st)).
Proof.
  revert st. induction ids as [|id ids IH]; intros st; simpl; [done|].
  by rewrite IH, rowStep_marks.
Qed.

Lemma rowLoop_flag_kept (parentTask : Task) (sField : SFieldDescribe)
    (parentCSVRowsMap : JsMap string) (ids : list string) (st : LoopState) :
  snd st = true ->
  snd (fold_left (rowStep parentTask sField parentCSVRowsMap) ids st) = true.
Proof.
  revert st. induction ids as [|id ids IH]; intros st Hst; simpl; [done|].
  by apply IH, rowStep_flag_kept.
Qed.

(** A loop that ends with [isFileChanged] still false has changed nothing,
    and no row it visited was one to repair. *)
Lemma rowLoop_flag (parentTask : Task) (sField : SFieldDescribe)
    (parentCSVRowsMap : JsMap string) (ids : list string) (st : LoopState) :
  snd (fold_left (rowStep parentTask sField parentCSVRowsMap) ids st) = false ->
  fold_left (rowStep parentTask sField parentCSVRowsMap) ids st = st
  /\ (forall id row, id ∈ ids -> get id (rowsOf (fst (fst st)) file) = Some row ->
                     toRepair parentTask sField row = false).
Proof.
  revert st. induction ids as [|id ids IH]; intros st Hflag; simpl in *.
  - split; [done|]. intros id row Hin. by apply elem_of_nil in Hin.
  - destruct (snd (rowStep parentTask sField parentCSVRowsMap st id)) eqn:Hstep.
    + by rewrite rowLoop_flag_kept in Hflag.
    + apply rowStep_flag in Hstep as [Hsame Hidle]. rewrite Hsame in Hflag |- *.
      destruct (IH st Hflag) as [Hloop Hrest]. split; [done|].
      intros id' row Hin Hget. apply elem_of_cons in Hin as [-> | Hin].
      * by apply Hidle.
      * by apply (Hrest id').
Qed.

End Repairing.

(** *** The loop over the fields, whatever the column names *)

Section FieldLoop.
Variable getRecordValue :
  string -> Row -> string -> option string -> option string -> Value.
Variable now : string.
Variable getResourceString : RESOURCES -> string.
Variable readCsvFile : string -> bool -> FileMap.
Variable formatId : nat -> string.
Variable job : Job.
Variable t : Task.

Local Abbreviation file := (sourceCsvFilename t).
Local Abbreviation toRepair := (rowToRepair getRecordValue t).
Local Abbreviation lookupStep :=
  (addMissingLookupColumns getRecordValue now getResourceString readCsvFile formatId job t).
Local Abbreviation fieldStep :=
  (repairLookupField getRecordValue now getResourceString readCsvFile formatId job t).

(** [___addMissingLookupColumnsAsync] marks at most the file of the task. *)
Lemma lookupStep_marks (sField : SFieldDescribe)
    (acc : CachedCSVContent * list ICSVIssues) :
  has file (csvDataCacheMap (fst acc)) = true ->
  updatedFilenames (fst acc) ⊆ updatedFilenames (fst (lookupStep acc sField))
  /\ updatedFilenames (fst (lookupStep acc sField)) ⊆ {[file]} ∪ updatedFilenames (fst acc).
Proof.
  destruct acc as [c issues]. cbn [fst]. intros Hcached.
  unfold addMissingLookupColumns.
  destruct (getTaskBySObjectName job (parentObjectName sField)) as [parentTask|];
    [|set_solver].
  destruct (readCsvFileOnce readCsvFile c (sourceCsvFilename parentTask) false)
    as [parentFileMap c1] eqn:Hread.
  destruct (readCsvFileOnce_other readCsvFile c (sourceCsvFilename parentTask) file false
              Hcached) as (_ & _ & Hupd1 & _).
  rewrite Hread in Hupd1. cbn [snd] in Hupd1.
  set (pmap := rowsByValue getRecordValue _ _ _).
  pose proof (rowLoop_marks getRecordValue now getResourceString formatId t
                parentTask sField pmap (keys (rowsOf c1 file))
                (c1, issues, false)) as Hloop.
  cbn [fst] in Hloop.
  destruct (fold_left _ _ _) as [[c2 issues2] changed2]. cbn [fst] in Hloop |- *.
  rewrite Hupd1 in Hloop.
  destruct changed2; unfold markUpdated; cbn [updatedFilenames]; rewrite ?Hloop;
    set_solver.
Qed.

Lemma fieldStep_marks (sField : SFieldDescribe)
    (acc : CachedCSVContent * list ICSVIssues) :
  has file (csvDataCacheMap (fst acc)) = true ->
  updatedFilenames (fst acc) ⊆ updatedFilenames (fst (fieldStep acc sField))
  /\ updatedFilenames (fst (fieldStep acc sField)) ⊆ {[file]} ∪ updatedFilenames (fst acc).
Proof.
  intros Hcached. unfold repairLookupField.
  destruct (_ && _); [by apply lookupStep_marks|set_solver].
Qed.

Lemma any_field_names (fields : list SFieldDescribe) :
  Forall (fun f => anyName (nameId f) /\ anyName (fullName__r f)) fields.
Proof. apply Forall_forall. by intros f _. Qed.

Lemma any_child_names (fields : list SFieldDescribe) :
  Forall (fun f => anyName (nameId f) /\ anyName (fullIdName__r f)) fields.
Proof. apply Forall_forall. by intros f _. Qed.

(** The loop keeps the file in the cache, the row keys, and every column
    of the first row. *)
Lemma fieldLoop_first_row (fields : list SFieldDescribe)
    (acc : CachedCSVContent * list ICSVIssues) :
  has file (csvDataCacheMap (fst acc)) = true ->
  let c' := fst (fold_left fieldStep fields acc) in
  has file (csvDataCacheMap c') = true
  /\ keys (rowsOf c' file) = keys (rowsOf (fst acc) file)
  /\ extends (firstRowOf (rowsOf (fst acc) file)) (firstRowOf (rowsOf c' file)).
Proof.
  intros Hcached.
  destruct (fieldLoop_rows getRecordValue now getResourceString readCsvFile formatId job t
              anyName fields acc (any_field_names fields) Hcached) as [Hgrow Hcached'].
  split; [done|]. split; [apply Hgrow|].
  by apply (rowwise_firstRow (grows anyName) (grows_refl anyName)) in Hgrow as [Hext _].
Qed.

Lemma fieldLoop_marks (fields : list SFieldDescribe)
    (acc : CachedCSVContent * list ICSVIssues) :
  has file (csvDataCacheMap (fst acc)) = true ->
  updatedFilenames (fst acc) ⊆ updatedFilenames (fst (fold_left fieldStep fields acc))
  /\ updatedFilenames (fst (fold_left fieldStep fields acc))
       ⊆ {[file]} ∪ updatedFilenames (fst acc).
Proof.
  revert acc. induction fields as [|f fields IH]; intros acc Hcached; simpl.
  - set_solver.
  - destruct (fieldStep_marks f acc Hcached) as [Hmono1 Hown1].
    destruct (fieldLoop_first_row [f] acc Hcached) as (Hcached1 & _). simpl in Hcached1.
    destruct (IH _ Hcached1) as [Hmono Hown].
    clear -Hmono1 Hown1 Hmono Hown. set_solver.
Qed.

(** A step that leaves the file of the task unmarked has changed nothing
    in it and reported nothing, and found no row to repair. *)
Lemma lookupStep_unmarked (sField : SFieldDescribe)
    (acc : CachedCSVContent * list ICSVIssues) :
  has file (csvDataCacheMap (fst acc)) = true ->
  file ∉ updatedFilenames (fst (lookupStep acc sField)) ->
  rowsOf (fst (lookupStep acc sField)) file = rowsOf (fst acc) file
  /\ snd (lookupStep acc sField) = snd acc
  /\ (forall parentTask id row,
        getTaskBySObjectName job (parentObjectName sField) = Some parentTask ->
        get id (rowsOf (fst acc) file) = Some row ->
        toRepair parentTask sField row = false).
Proof.
  destruct acc as [c issues]. cbn [fst snd]. intros Hcached.
  unfold addMissingLookupColumns.
  destruct (getTaskBySObjectName job (parentObjectName sField)) as [parentTask|]; [|done].
  destruct (readCsvFileOnce readCsvFile c (sourceCsvFilename parentTask) false)
    as [parentFileMap c1] eqn:Hread.
  destruct (readCsvFileOnce_other readCsvFile c (sourceCsvFilename parentTask) file false
              Hcached) as (_ & Hrows1 & _).
  rewrite Hread in Hrows1. cbn [snd] in Hrows1.
  set (pmap := rowsByValue getRecordValue _ _ _).
  pose proof (rowLoop_flag getRecordValue now getResourceString formatId t parentTask
                sField pmap (keys (rowsOf c1 file)) (c1, issues, false)) as Hflag.
  destruct (fold_left _ _ _) as [[c2 issues2] changed2]. cbn [fst snd] in Hflag |- *.
  destruct changed2.
  { intros Hunmarked. exfalso. apply Hunmarked.
    unfold markUpdated. cbn [updatedFilenames]. set_solver. }
  intros _. destruct (Hflag eq_refl) as [[= -> ->] Hidle].
  split; [done|]. split; [done|].
  intros parentTask' id row [= <-] Hget. rewrite <- Hrows1 in Hget.
  apply (Hidle id); [|done]. by eapply get_keys.
Qed.

Lemma fieldLoop_unmarked (fields : list SFieldDescribe)
    (acc : CachedCSVContent * list ICSVIssues) :
  has file (csvDataCacheMap (fst acc)) = true ->
  file ∉ updatedFilenames (fst (fold_left fieldStep fields acc)) ->
  rowsOf (fst (fold_left fieldStep fields acc)) file = rowsOf (fst acc) file
  /\ snd (fold_left fieldStep fields acc) = snd acc
  /\ (forall sField parentTask id row,
        In sField fields ->
        isReference sField = true ->
        getTaskBySObjectName job (parentObjectName sField) = Some parentTask ->
        has (fullName__r sField) (firstRowOf (rowsOf (fst acc) file))
          && has (nameId sField) (firstRowOf (rowsOf (fst acc) file)) = false ->
        get id (rowsOf (fst acc) file) = Some row ->
        toRepair parentTask sField row = false).
Proof.
  revert acc. induction fields as [|f fields IH]; intros acc Hcached Hunmarked; simpl in *.
  - split; [done|]. split; [done|]. by intros ? ? ? ? [].
  - set (acc1 := fieldStep acc f) in *.
    destruct (fieldLoop_first_row [f] acc Hcached) as (Hcached1 & _).
    simpl in Hcached1. fold acc1 in Hcached1.
    destruct (IH acc1 Hcached1 Hunmarked) as (Hrows & Hissues & Hidle).
    destruct (fieldLoop_marks fields acc1 Hcached1) as [Hmono _].
    assert (file ∉ updatedFilenames (fst acc1)) as Hunmarked1 by set_solver.
    assert (rowsOf (fst acc1) file = rowsOf (fst acc) file
            /\ snd acc1 = snd acc
            /\ (isReference f = true ->
                has (fullName__r f) (firstRowOf (rowsOf (fst acc) file))
                  && has (nameId f) (firstRowOf (rowsOf (fst acc) file)) = false ->
                forall parentTask id row,
                  getTaskBySObjectName job (parentObjectName f) = Some parentTask ->
                  get id (rowsOf (fst acc) file) = Some row ->
                  toRepair parentTask f row = false)) as (Hrows1 & Hissues1 & Hidle1).
    { revert Hunmarked1. unfold acc1.
      rewrite (fieldStep_unfold getRecordValue now getResourceString readCsvFile formatId
                 job t acc f).
      destruct (isReference f); cbn [andb]; [|done].
      destruct (has (fullName__r f) _ && has (nameId f) _); cbn [negb]; [done|].
      intros Hunmarked1.
      destruct (lookupStep_unmarked f acc Hcached Hunmarked1) as (Hr & Hi & Hd).
      split; [done|]. split; [done|]. intros _ _. exact Hd. }
    split; [congruence|]. split; [congruence|].
    intros sField parentTask id row [<- | Hin] Href Hparent Hlacks Hget.
    + by apply (Hidle1 Href Hlacks parentTask id).
    + apply (Hidle sField parentTask id); try done; by rewrite Hrows1.
Qed.
End FieldLoop.

(** *** A repair leaves a repaired file *)

Section Repaired.
Variable getRecordValue :
  string -> Row -> string -> option string -> option string -> Value.
Variable now : string.
Variable getResourceString : RESOURCES -> string.
Variable readCsvFile : string -> bool -> FileMap.
Variable formatId : nat -> string.
Variable job : Job.
Variable t : Task.

Local Abbreviation file := (sourceCsvFilename t).

Local Abbreviation repairCSV' :=
  (repairCSV getRecordValue now getResourceString readCsvFile formatId job t).
Local Abbreviation fieldStep :=
  (repairLookupField getRecordValue now getResourceString readCsvFile formatId job t).
Local Abbreviation childStep :=
  (updateChildOriginalIdColumns getRecordValue now getResourceString readCsvFile job t).

Lemma columnNamesTrimmed_fields :
  columnNamesTrimmed t = true ->
  Forall (fun f => trim (nameId f) = nameId f /\ trim (fullName__r f) = fullName__r f)
         (fieldsInQuery t)
  /\ Forall (fun f => trim (nameId f) = nameId f /\ trim (fullIdName__r f) = fullIdName__r f)
            (externalIdChild__rSFields t).
Proof.
  unfold columnNamesTrimmed, trimmedName. intros H.
  apply andb_true_iff in H as [H1 H2]. rewrite forallb_forall in H1, H2.
  split; apply Forall_forall; intros f Hf; apply list_elem_of_In in Hf.
  - specialize (H1 f Hf). apply andb_true_iff in H1 as [Ha Hb].
    by apply String.eqb_eq in Ha, Hb.
  - specialize (H2 f Hf). apply andb_true_iff in H2 as [Ha Hb].
    by apply String.eqb_eq in Ha, Hb.
Qed.

Lemma size_zero (rows : FileMap) : (size rows =? 0) = true -> rows = [].
Proof. destruct rows; [done|]. simpl. discriminate. Qed.

Lemma repairCSV_repaired (c : CachedCSVContent) :
  readsNamedColumn getRecordValue ->
  valueMappingApplies job t = false ->
  columnNamesTrimmed t = true ->
  repaired getRecordValue job t (fst (repairCSV' c)).
Proof.
  intros Hreads Hnomap Htrimmed.
  destruct (columnNamesTrimmed_fields Htrimmed) as [Hfields Hchildren].
  unfold repairCSV.
  pose proof (readCsvFileOnce_cached readCsvFile c file true) as Hcached0.
  pose proof (readCsvFileOnce_rows readCsvFile c file true) as Hrows0.
  destruct (readCsvFileOnce readCsvFile c file true) as [currentFileMap c0].
  cbn [fst snd] in Hcached0, Hrows0.
  destruct (size currentFileMap =? 0) eqn:Hsize.
  { apply size_zero in Hsize. rewrite Hsize in Hrows0. cbn [fst].
    unfold repaired. rewrite Hrows0. split; [done|]. split; [done|].
    intros sField parentTask id row _ _ _ _ Hget. discriminate. }
  unfold valueMappingApplies in Hnomap. rewrite Hnomap.
  destruct (trimColumnNames_first_row t c0 Hcached0) as (Hcached1 & Hkeys1 & Htrim1).
  set (c1 := trimColumnNames t c0) in *.
  assert (rowsOf c1 file <> []) as Hrows1.
  { intros Hnil. rewrite Hnil, Hrows0 in Hkeys1.
    destruct currentFileMap; [discriminate Hsize|discriminate Hkeys1]. }
  set (acc3 := if negb (has "Id"%string (firstRowOf (rowsOf c1 file))) then _ else _).
  assert (has file (csvDataCacheMap (fst acc3)) = true
          /\ has "Id"%string (firstRowOf (rowsOf (fst acc3) file)) = true
          /\ Forall (fun k => trim k = k) (keys (firstRowOf (rowsOf (fst acc3) file))))
    as (Hcached3 & Hid3 & Htrim3).
  { unfold acc3. destruct (has "Id"%string (firstRowOf (rowsOf c1 file))) eqn:Hid; simpl;
      [done|].
    destruct (addMissingIdColumn_first_row t c1 Hcached1 Hrows1 Htrim1)
      as (Hcached2 & _ & Hid2 & Htrim2).
    destruct (childLoop_widen getRecordValue now getResourceString readCsvFile job t
                trimmed (externalIdChild__rSFields t) (addMissingIdColumn t c1, [])
                Hchildren Hcached2) as [Hwiden Hcached3].
    split; [done|]. cbn [fst] in Hwiden.
    apply (widens_first_row (firstRowOf (rowsOf (addMissingIdColumn t c1) file)));
      [|done].
    by apply (rowwise_firstRow (widens trimmed) (widens_refl trimmed)). }
  destruct (fieldLoop_grow getRecordValue now getResourceString readCsvFile formatId
              job t Hreads trimmed (fieldsInQuery t) acc3 Hfields Hcached3)
    as (Hgrow & Hcached4 & Hdone).
  unfold repaired. split; [done|]. split.
  - intros _.
    apply (widens_first_row (firstRowOf (rowsOf (fst acc3) file))); [|done].
    apply grows_widens. by apply (rowwise_firstRow (grows trimmed) (grows_refl trimmed)).
  - intros sField parentTask id row Hin Href Hparent Hlacks Hget.
    by apply (Hdone sField parentTask id).
Qed.

(** Repairing a repaired file, with no value mapping to apply, marks no
    path and reports no issue. *)
Lemma repaired_idle (c : CachedCSVContent) :
  (rowsOf c file <> [] -> valueMappingApplies job t = false) ->
  repaired getRecordValue job t c ->
  updatedFilenames (fst (repairCSV' c)) = updatedFilenames c
  /\ snd (repairCSV' c) = [].
Proof.
  intros Hnomap (Hcached & Hfirst & Hdone). unfold repairCSV.
  rewrite (readCsvFileOnce_hit readCsvFile c file true Hcached).
  destruct (size (rowsOf c file) =? 0) eqn:Hsize; [done|].
  assert (rowsOf c file <> []) as Hrows.
  { intros Hnil. by rewrite Hnil in Hsize. }
  destruct (Hfirst Hrows) as [Hid Htrim]. specialize (Hnomap Hrows).
  unfold valueMappingApplies in Hnomap.
  rewrite Hnomap, (trimColumnNames_idle t c Htrim), Hid. cbn [negb].
  destruct (fieldLoop_idle getRecordValue now getResourceString readCsvFile formatId job t
              (fieldsInQuery t) (c, []) Hcached) as (_ & _ & Hupd & Hissues).
  - intros sField parentTask id row Hin Href Hparent Hlacks Hget.
    by apply (Hdone sField parentTask id).
  - done.
Qed.

(** *** What each step marks and keeps, whatever the values *)

Lemma renameColumns_keep (columns : list string) (row : Row) (k : string) :
  has k row = true -> ~ In k columns ->
  has k (fold_left renameColumn columns row) = true.
Proof.
  revert row. induction columns as [|column columns IH]; intros row Hk Hnotin; simpl;
    [done|].
  apply IH; [|by intros Hin; apply Hnotin; right].
  unfold renameColumn. rewrite has_remove, has_set, Hk, orb_true_r, andb_true_r.
  apply negb_true_iff, String.eqb_neq. intros ->. apply Hnotin. by left.
Qed.

Lemma columnsToTrim_trimmed (row : Row) (k : string) :
  trim k = k -> ~ In k (columnsToTrim row).
Proof.
  intros Htrim Hin. unfold columnsToTrim in Hin. apply filter_In in Hin as [_ Hne].
  apply negb_true_iff, String.eqb_neq in Hne. congruence.
Qed.

(** [___trimColumnNames] keeps the file in the cache, the row keys and
    every trimmed column of the first row, and marks the file of the task
    if it marks anything. *)
Lemma trimColumnNames_marks (c : CachedCSVContent) (k : string) :
  has file (csvDataCacheMap c) = true ->
  let c' := trimColumnNames t c in
  has file (csvDataCacheMap c') = true
  /\ keys (rowsOf c' file) = keys (rowsOf c file)
  /\ (trim k = k -> has k (firstRowOf (rowsOf c file)) = true ->
      has k (firstRowOf (rowsOf c' file)) = true)
  /\ updatedFilenames c ⊆ updatedFilenames c'
  /\ updatedFilenames c' ⊆ {[file]} ∪ updatedFilenames c
  /\ (file ∉ updatedFilenames c' -> c' = c).
Proof.
  intros Hcached. unfold trimColumnNames.
  destruct (columnsToTrim (firstRowOf (rowsOf c file))) as [|column columns] eqn:Hcols.
  { do 3 (split; [done|]). split; [set_solver|]. split; [set_solver|done]. }
  rewrite rowsOf_markUpdated, rowsOf_setRows_eq, keys_mapValues.
  split; [by apply cached_setRows|]. split; [done|]. split.
  - intros Htrim Hk. pose proof (columnsToTrim_trimmed (firstRowOf (rowsOf c file)) k Htrim)
      as Hnotin. rewrite Hcols in Hnotin.
    destruct (rowsOf c file) as [|[id row] rows]; [done|].
    cbn [mapValues map firstRowOf fst snd] in *.
    by apply renameColumns_keep.
  - unfold markUpdated, setRows. cbn [updatedFilenames].
    split; [set_solver|]. split; [set_solver|]. intros Hunmarked. set_solver.
Qed.

Lemma mapColumnValues_keep (fields : list string) (row : Row) (k : string) :
  has k row = true -> has k (fold_left (mapColumnValue job t) fields row) = true.
Proof.
  revert row. induction fields as [|field fields IH]; intros row Hk; simpl; [done|].
  apply IH. unfold mapColumnValue.
  destruct (get _ (csvValuesMapping job)) as [valuesMap|]; [|done].
  destruct (0 <? size valuesMap); [|done].
  destruct (get _ valuesMap); [|done].
  by rewrite has_set, Hk, orb_true_r.
Qed.

(** [___updateWithCSVValueMapping] keeps the file in the cache, the row
    keys and the columns of the first row, and marks the file of the
    task. *)
Lemma updateWithCSVValueMapping_marks (c : CachedCSVContent) (k : string) :
  let c' := updateWithCSVValueMapping job t c in
  has file (csvDataCacheMap c') = true
  /\ keys (rowsOf c' file) = keys (rowsOf c file)
  /\ (has k (firstRowOf (rowsOf c file)) = true ->
      has k (firstRowOf (rowsOf c' file)) = true)
  /\ updatedFilenames c' = {[file]} ∪ updatedFilenames c.
Proof.
  unfold updateWithCSVValueMapping.
  rewrite rowsOf_markUpdated, rowsOf_setRows_eq, keys_mapValues.
  split; [by apply cached_setRows_eq|]. split; [done|]. split; [|done].
  set (fields := keys (firstRowOf (rowsOf c file))). clearbody fields.
  destruct (rowsOf c file) as [|[id row] rows]; [done|].
  cbn [mapValues map firstRowOf fst snd]. apply mapColumnValues_keep.
Qed.

(** [___addMissingIdColumn] gives every row an [Id] column and marks the
    file of the task. *)
Lemma addMissingIdColumn_marks (c : CachedCSVContent) :
  let c' := addMissingIdColumn t c in
  has file (csvDataCacheMap c') = true
  /\ keys (rowsOf c' file) = keys (rowsOf c file)
  /\ (rowsOf c file <> [] -> has "Id"%string (firstRowOf (rowsOf c' file)) = true)
  /\ updatedFilenames c' = {[file]} ∪ updatedFilenames c.
Proof.
  unfold addMissingIdColumn.
  rewrite rowsOf_markUpdated, rowsOf_setRows_eq, keys_mapValues.
  split; [by apply cached_setRows_eq|]. split; [done|]. split; [|done].
  destruct (rowsOf c file) as [|[id row] rows]; [done|]. intros _.
  cbn [mapValues map firstRowOf fst snd]. by rewrite has_set.
Qed.

(** [___updateChildOriginalIdColumnsAsync] takes no path out of the set of
    changed files. *)
Lemma childRowLoop_marks (childTask : Task) (childIdSField : SFieldDescribe)
    (parentCSVExtIdMap : JsMap string) (keys : list string) (st : LoopState) :
  updatedFilenames
    (fst (fst (fold_left (updateChildRow getRecordValue t childTask childIdSField
                            parentCSVExtIdMap) keys st)))
  = updatedFilenames (fst (fst st)).
Proof.
  revert st. induction keys as [|key keys IH]; intros st; simpl; [done|].
  rewrite IH. destruct st as [[c issues] changed]. unfold updateChildRow.
  destruct (get key _); [|done]. destruct (truthy _); [|done].
  by destruct (get _ parentCSVExtIdMap).
Qed.

Lemma childStep_marks (childIdSField : SFieldDescribe)
    (acc : CachedCSVContent * list ICSVIssues) :
  updatedFilenames (fst acc) ⊆ updatedFilenames (fst (childStep acc childIdSField)).
Proof.
  destruct acc as [c issues]. cbn [fst]. unfold updateChildOriginalIdColumns.
  destruct (negb _); [|done].
  destruct (getTaskBySObjectName job _) as [childTask|]; [|done].
  assert (updatedFilenames
            (snd (readCsvFileOnce readCsvFile c (sourceCsvFilename childTask) false))
          = updatedFilenames c) as Hupd1.
  { unfold readCsvFileOnce. by destruct (get _ (csvDataCacheMap c)). }
  destruct (readCsvFileOnce readCsvFile c (sourceCsvFilename childTask) false)
    as [childFileMap c1]. cbn [snd] in Hupd1. rewrite <- Hupd1.
  destruct (0 <? size childFileMap); [|done].
  destruct (has _ (firstRowOf childFileMap)); [|done].
  set (pmap := rowsByValue getRecordValue _ _ _).
  pose proof (childRowLoop_marks childTask childIdSField pmap (keys childFileMap)
                (c1, issues, false)) as Hloop.
  destruct (fold_left _ _ _) as [[c2 issues2] changed2]. cbn [fst] in Hloop |- *.
  rewrite <- Hloop. destruct changed2; [|done].
  unfold markUpdated. cbn [updatedFilenames]. set_solver.
Qed.

Lemma childLoop_marks (childFields : list SFieldDescribe)
    (acc : CachedCSVContent * list ICSVIssues) :
  updatedFilenames (fst acc) ⊆ updatedFilenames (fst (fold_left childStep childFields acc)).
Proof.
  revert acc. induction childFields as [|f childFields IH]; intros acc; simpl; [done|].
  etrans; [apply (childStep_marks f)|apply IH].
Qed.


(** The step between the value mapping and the loop over the fields: the
    [Id] column is added where the first row lacks it, and the child files
    are then updated. *)
Local Abbreviation identify c :=
  (if negb (has "Id"%string (firstRowOf (rowsOf c file)))
   then fold_left childStep (externalIdChild__rSFields t) (addMissingIdColumn t c, [])
   else (c, [])).

Lemma identify_marks (c : CachedCSVContent) :
  has file (csvDataCacheMap c) = true ->
  has file (csvDataCacheMap (fst (identify c))) = true
  /\ (rowsOf c file <> [] ->
      has "Id"%string (firstRowOf (rowsOf (fst (identify c)) file)) = true)
  /\ updatedFilenames c ⊆ updatedFilenames (fst (identify c))
  /\ (has "Id"%string (firstRowOf (rowsOf c file)) = false ->
      file ∈ updatedFilenames (fst (identify c))).
Proof.
  intros Hcached.
  destruct (has "Id"%string (firstRowOf (rowsOf c file))) eqn:Hid; cbn [negb fst]; [done|].
  destruct (addMissingIdColumn_marks c) as (Hcached1 & _ & Hid1 & Hupd1).
  destruct (childLoop_widen getRecordValue now getResourceString readCsvFile job t
              anyName (externalIdChild__rSFields t) (addMissingIdColumn t c, [])
              (any_child_names _) Hcached1) as [Hwiden Hcached2].
  pose proof (childLoop_marks (externalIdChild__rSFields t) (addMissingIdColumn t c, []))
    as Hmono.
  cbn [fst] in Hwiden, Hmono. rewrite Hupd1 in Hmono.
  split; [done|]. split; [|set_solver].
  intros Hrows.
  apply (rowwise_firstRow (widens anyName) (widens_refl anyName)) in Hwiden as [Hkeep _].
  by apply Hkeep, Hid1.
Qed.

(** Whatever the task, the file that a repair leaves is in the cache and,
    if it has rows, its first row has an [Id] column. *)
Lemma repairCSV_first_row_id (c : CachedCSVContent) :
  has file (csvDataCacheMap (fst (repairCSV' c))) = true
  /\ (rowsOf (fst (repairCSV' c)) file <> [] ->
      has "Id"%string (firstRowOf (rowsOf (fst (repairCSV' c)) file)) = true).
Proof.
  unfold repairCSV.
  pose proof (readCsvFileOnce_cached readCsvFile c file true) as Hcached0.
  pose proof (readCsvFileOnce_rows readCsvFile c file true) as Hrows0.
  destruct (readCsvFileOnce readCsvFile c file true) as [currentFileMap c0].
  cbn [fst snd] in Hcached0, Hrows0.
  destruct (size currentFileMap =? 0) eqn:Hsize.
  { apply size_zero in Hsize. rewrite Hsize in Hrows0. cbn [fst]. by rewrite Hrows0. }
  cbv zeta.
  destruct (trimColumnNames_marks c0 "Id"%string Hcached0) as (Hcached1 & Hkeys1 & _).
  set (c1 := trimColumnNames t c0) in *.
  set (c2 := if useCSVValuesMapping t && _ then _ else c1).
  assert (has file (csvDataCacheMap c2) = true
          /\ keys (rowsOf c2 file) = keys (rowsOf c1 file)) as [Hcached2 Hkeys2].
  { unfold c2. destruct (_ && _); [|done].
    by destruct (updateWithCSVValueMapping_marks c1 "Id"%string) as (? & ? & _). }
  assert (rowsOf c2 file <> []) as Hrows2.
  { intros Hnil. rewrite Hnil, Hkeys1, Hrows0 in Hkeys2.
    destruct currentFileMap; [discriminate Hsize|discriminate Hkeys2]. }
  clearbody c2.
  destruct (identify_marks c2 Hcached2) as (Hcached3 & Hid3 & _).
  destruct (fieldLoop_first_row getRecordValue now getResourceString readCsvFile formatId
              job t (fieldsInQuery t) (identify c2) Hcached3) as (Hcached4 & _ & Hext).
  split; [done|]. intros _. apply (extends_has _ _ _ Hext). by apply Hid3.
Qed.

(** A repair of a file that is in the cache with an [Id] column in its
    first row marks at most that file. *)
Lemma repairCSV_marks_own (c : CachedCSVContent) :
  has file (csvDataCacheMap c) = true ->
  (rowsOf c file <> [] -> has "Id"%string (firstRowOf (rowsOf c file)) = true) ->
  updatedFilenames c ⊆ updatedFilenames (fst (repairCSV' c))
  /\ updatedFilenames (fst (repairCSV' c)) ⊆ {[file]} ∪ updatedFilenames c.
Proof.
  intros Hcached Hid. unfold repairCSV.
  rewrite (readCsvFileOnce_hit readCsvFile c file true Hcached).
  destruct (size (rowsOf c file) =? 0) eqn:Hsize; [cbn [fst]; set_solver|].
  assert (rowsOf c file <> []) as Hrows.
  { intros Hnil. by rewrite Hnil in Hsize. }
  specialize (Hid Hrows). cbv zeta.
  destruct (trimColumnNames_marks c "Id"%string Hcached)
    as (Hcached1 & _ & Hid1 & Hmono1 & Hown1 & _).
  specialize (Hid1 eq_refl Hid).
  set (c1 := trimColumnNames t c) in *.
  set (c2 := if useCSVValuesMapping t && _ then _ else c1).
  assert (has file (csvDataCacheMap c2) = true
          /\ has "Id"%string (firstRowOf (rowsOf c2 file)) = true
          /\ updatedFilenames c1 ⊆ updatedFilenames c2
          /\ updatedFilenames c2 ⊆ {[file]} ∪ updatedFilenames c1)
    as (Hcached2 & Hid2 & Hmono2 & Hown2).
  { unfold c2. destruct (_ && _); [|split; [done|]; split; [done|]; set_solver].
    destruct (updateWithCSVValueMapping_marks c1 "Id"%string) as (? & _ & Hkeep & Hupd).
    split; [done|]. split; [by apply Hkeep|]. rewrite Hupd. set_solver. }
  clearbody c2. rewrite Hid2. cbn [negb].
  destruct (fieldLoop_marks getRecordValue now getResourceString readCsvFile formatId
              job t (fieldsInQuery t) (c2, []) Hcached2) as [Hmono3 Hown3].
  cbn [fst] in Hmono3, Hown3.
  clear -Hmono1 Hown1 Hmono2 Hown2 Hmono3 Hown3. set_solver.
Qed.

(** A repair that leaves the file of the task unmarked has found it
    repaired, and has applied no value mapping to its rows. *)
Lemma unmarked_repaired (c : CachedCSVContent) :
  file ∉ updatedFilenames (fst (repairCSV' c)) ->
  repaired getRecordValue job t (fst (repairCSV' c))
  /\ (rowsOf (fst (repairCSV' c)) file <> [] -> valueMappingApplies job t = false).
Proof.
  unfold repairCSV.
  pose proof (readCsvFileOnce_cached readCsvFile c file true) as Hcached0.
  pose proof (readCsvFileOnce_rows readCsvFile c file true) as Hrows0.
  destruct (readCsvFileOnce readCsvFile c file true) as [currentFileMap c0].
  cbn [fst snd] in Hcached0, Hrows0.
  destruct (size currentFileMap =? 0) eqn:Hsize.
  { apply size_zero in Hsize. rewrite Hsize in Hrows0. cbn [fst]. intros _.
    unfold repaired. rewrite Hrows0. split; [|done]. split; [done|]. split; [done|].
    intros sField parentTask id row _ _ _ _ Hget. discriminate. }
  cbv zeta.
  destruct (trimColumnNames_marks c0 "Id"%string Hcached0)
    as (Hcached1 & _ & _ & _ & _ & Hsame1).
  destruct (trimColumnNames_first_row t c0 Hcached0) as (_ & _ & Htrim1).
  set (c1 := trimColumnNames t c0) in *.
  unfold valueMappingApplies.
  destruct (useCSVValuesMapping t && (0 <? size (csvValuesMapping job))) eqn:Hmap.
  { intros Hunmarked. exfalso. apply Hunmarked.
    destruct (updateWithCSVValueMapping_marks c1 "Id"%string) as (Hcached2 & _ & _ & Hupd2).
    destruct (identify_marks _ Hcached2) as (Hcached3 & _ & Hmono3 & _).
    destruct (fieldLoop_marks getRecordValue now getResourceString readCsvFile formatId
                job t (fieldsInQuery t) _ Hcached3) as [Hmono4 _].
    rewrite Hupd2 in Hmono3. clear -Hmono3 Hmono4. set_solver. }
  destruct (identify_marks c1 Hcached1) as (Hcached3 & _ & Hmono3 & Hmarked3).
  destruct (fieldLoop_marks getRecordValue now getResourceString readCsvFile formatId
              job t (fieldsInQuery t) _ Hcached3) as [Hmono4 _].
  intros Hunmarked.
  destruct (has "Id"%string (firstRowOf (rowsOf c1 file))) eqn:Hid;
    [|exfalso; apply Hunmarked; set_solver].
  cbn [negb fst] in *.
  assert (c1 = c0) as Hc1 by (apply Hsame1; set_solver).
  rewrite Hc1 in *. clear Hc1 Hsame1.
  destruct (fieldLoop_unmarked getRecordValue now getResourceString readCsvFile formatId
              job t (fieldsInQuery t) (c0, []) Hcached0 Hunmarked)
    as (Hrows & _ & Hidle).
  destruct (fieldLoop_first_row getRecordValue now getResourceString readCsvFile formatId
              job t (fieldsInQuery t) (c0, []) Hcached0) as (Hcached4 & _).
  cbn [fst] in Hrows, Hidle, Hcached4.
  split; [|done]. unfold repaired. rewrite Hrows.
  split; [done|]. split; [done|].
  intros sField parentTask id row Hin Href Hparent Hlacks Hget.
  by apply (Hidle sField parentTask id).
Qed.


End Repaired.

(** *** Repairing twice *)

Section Twice.
Variable getRecordValue :
  string -> Row -> string -> option string -> option string -> Value.
Variable now : string.
Variable getResourceString : RESOURCES -> string.
Variable readCsvFile : string -> bool -> FileMap.
Variable formatId : nat -> string.


(** The repair leaves a source file without rows alone. *)
Lemma repairCSV_empty (job : Job) (t : Task) (c : CachedCSVContent) :
  fst (readCsvFileOnce readCsvFile c (sourceCsvFilename t) true) = [] ->
  let result := repairCSV getRecordValue now getResourceString readCsvFile formatId job t c in
  snd result = []
  /\ updatedFilenames (fst result) = updatedFilenames c
  /\ idCounter (fst result) = idCounter c
  /\ rowsOf (fst result) (sourceCsvFilename t) = [].
Proof.
  intros Hempty result. subst result. unfold repairCSV.
  pose proof (readCsvFileOnce_rows readCsvFile c (sourceCsvFilename t) true) as Hrows.
  destruct (readCsvFileOnce readCsvFile c (sourceCsvFilename t) true)
    as [currentFileMap c0] eqn:Hread.
  cbn [fst snd] in *. subst currentFileMap. cbn [size length Nat.eqb fst snd].
  split; [done|]. unfold readCsvFileOnce in Hread.
  destruct (get (sourceCsvFilename t) (csvDataCacheMap c)) as [rows|];
    injection Hread as _ <-; done.
Qed.
End Twice.


(** *** Missing or empty source files *)

Section MissingFile.
Variable getRecordValue :
  string -> Row -> string -> option string -> option string -> Value.
Variable now : string.
Variable getResourceString : RESOURCES -> string.
Variable readCsvFileAsync : string -> option nat -> list Row.
Variable readCsvFile : string -> bool -> FileMap.
Variable formatId : nat -> string.

(** C7 (as amended).  For a task whose source file is missing or empty
    (the header read and the cached read both return no row), validation
    returns exactly one issue, the empty-file issue of that object, and
    repair returns no issue, marks no file as changed and hands out no
    synthetic identifier; both return a result. *)
Theorem validate_and_repair_missing_file (job : Job) (t : Task) (c : CachedCSVContent) :
  readCsvFileAsync (sourceCsvFilename t) (Some 1) = [] ->
  fst (readCsvFileOnce readCsvFile c (sourceCsvFilename t) true) = [] ->
  validateCSV readCsvFileAsync now getResourceString t =
    [emptyFileIssue now getResourceString t]
  /\ snd (repairCSV getRecordValue now getResourceString readCsvFile formatId job t c) = []
  /\ updatedFilenames
       (fst (repairCSV getRecordValue now getResourceString readCsvFile formatId job t c))
     = updatedFilenames c
  /\ idCounter
       (fst (repairCSV getRecordValue now getResourceString readCsvFile formatId job t c))
     = idCounter c.
Proof.
  intros Hheader Hrows. split.
  - by apply MigrationJobTaskFacts.validateCSV_empty.
  - destruct (repairCSV_empty getRecordValue now getResourceString readCsvFile formatId
                job t c Hrows) as (Hissues & Hupdated & Hcounter & _).
    done.
Qed.
End MissingFile.

(** *** The sample files *)


Example repairCSV_chained_mapping_runs :
  let first := Samples.repair Samples.chainedMapping true "a" Samples.emptyCache in
  let second := Samples.repair Samples.chainedMapping true "a" (fst first) in
  snd first = [] /\
  snd second =
    [mkIssue "2020-05-01" (Some "Case") (Some "Account.Name") (Some "b")
             (Some "Account") (Some "Name") None "Missing parent record"]%string.
Proof. split; reflexivity. Qed.


(** The first of these two runs does report the account that is missing. *)
Example repairCSV_missing_parent_runs :
  let first := Samples.repair [] false "Nope" Samples.emptyCache in
  let second := Samples.repair [] false "Nope" (fst first) in
  length (snd first) = 1 /\ snd second = [].
Proof. split; reflexivity. Qed.

(** C7, counterexample.  With neither file on disk, validation of the
    account task does yield an issue. *)
Lemma validateCSV_reports_missing_file :
  ~ (validateCSV (fun _ _ => []) "2020-05-01"%string (fun _ => "The file is empty"%string)
       (Samples.accountTask Upsert) = []
     /\ snd (repairCSV Samples.getRecordValue "2020-05-01"%string
               (fun _ => "The file is empty"%string) (fun _ _ => []) Samples.formatId
               (Samples.caseJob [] false) (Samples.accountTask Upsert) Samples.emptyCache)
        = []).
Proof. intros [Hvalidate _]. discriminate Hvalidate. Qed.

Lemma validate_and_repair_missing_file_witness :
  validateCSV (fun _ _ => []) "2020-05-01"%string (fun _ => "The file is empty"%string)
    (Samples.accountTask Upsert) =
    [mkIssue "2020-05-01" (Some "Account") None None None None None "The file is empty"]%string
  /\ snd (repairCSV Samples.getRecordValue "2020-05-01"%string
            (fun _ => "The file is empty"%string) (fun _ _ => []) Samples.formatId
            (Samples.caseJob [] false) (Samples.accountTask Upsert) Samples.emptyCache)
     = [].
Proof.
  destruct (validate_and_repair_missing_file Samples.getRecordValue "2020-05-01"%string
              (fun _ => "The file is empty"%string) (fun _ _ => []) (fun _ _ => [])
              Samples.formatId (Samples.caseJob [] false) (Samples.accountTask Upsert)
              Samples.emptyCache) as (Hvalidate & Hrepair & _);
    [reflexivity | reflexivity | ].
  split; [exact Hvalidate | exact Hrepair].
Defined.

End RepairFacts.
(** ** More properties of the task chain *)

Module SetupFacts.
Import JsArray JsArrayFacts MigrationJob MigrationJobMethods MigrationJobFacts.

(** *** One task per object *)

Section Tasks.
Variable RECORD_TYPE_SOBJECT_NAME : string.

Lemma addObjects_tasks (objects : list ScriptObject) (c : Chain) (ix : nat) :
  Permutation (tasks (addObjects RECORD_TYPE_SOBJECT_NAME c ix objects))
              (imap (fun i o => mkTask (ix + i) (setProcessAll o)) objects ++ tasks c).
Proof.
  revert c ix. induction objects as [|o rest IH]; intros c ix; simpl; [done|].
  rewrite IH, addObject_perm, Nat.add_0_r.
  rewrite <- Permutation_middle. apply Permutation_skip.
  apply Permutation_app_tail.
  match goal with |- Permutation ?a ?b => replace a with b; [done|] end.
  apply imap_ext. intros i o' _. simpl. f_equal. lia.
Qed.

Lemma placeObjects_tasks (objects : list ScriptObject) :
  Permutation (placeObjects RECORD_TYPE_SOBJECT_NAME objects)
              (imap (fun i o => mkTask i (setProcessAll o)) objects).
Proof.
  unfold placeObjects. rewrite addObjects_tasks. simpl. by rewrite app_nil_r.
Qed.

Lemma setup_tasks (objects : list ScriptObject) :
  Permutation (jobTasks (setup RECORD_TYPE_SOBJECT_NAME objects))
              (imap (fun i o => mkTask i (setProcessAll o)) objects).
Proof.
  rewrite jobTasks_setup, relax_perm by apply placeObjects_ids.
  apply placeObjects_tasks.
Qed.

(** X1.  The relaxation neither loses nor duplicates a task: the chain that
    [setup] leaves holds exactly one task per object of the script, the
    task of the object at position [i] having identity [i] and carrying the
    object with its two flags assigned; and whenever all source records of
    an object are processed, so are all its target records. *)
Theorem setup_one_task_per_object (objects : list ScriptObject) :
  Permutation (jobTasks (setup RECORD_TYPE_SOBJECT_NAME objects))
              (imap (fun i o => mkTask i (setProcessAll o)) objects)
  /\ length (jobTasks (setup RECORD_TYPE_SOBJECT_NAME objects)) = length objects
  /\ Forall (fun t => processAllSource (scriptObject t) = true ->
                      processAllTarget (scriptObject t) = true)
            (jobTasks (setup RECORD_TYPE_SOBJECT_NAME objects)).
Proof.
  pose proof (setup_tasks objects) as Hperm.
  split; [done|]. split.
  - by rewrite Hperm, length_imap.
  - rewrite Hperm. apply Forall_forall. intros t Ht.
    apply elem_of_lookup_imap in Ht as (i & o & -> & _). simpl.
    by intros ->.
Qed.
End Tasks.

(** *** A pass of the relaxation *)

Lemma ForallOrdPairs_of_lookup {A : Type} (R : A -> A -> Prop) (l : list A) :
  (forall (i j : nat) (a b : A), l !! i = Some a -> l !! j = Some b -> i < j -> R a b) ->
  ForallOrdPairs R l.
Proof.
  induction l as [|x l IH]; intros H; [constructor|].
  constructor.
  - apply List.Forall_forall. intros y Hy. apply list_elem_of_In in Hy.
    apply list_elem_of_lookup in Hy as [j Hj].
    apply (H 0 (S j) x y); [done|done|lia].
  - apply IH. intros i j a b Ha Hb Hij. apply (H (S i) (S j) a b); [done|done|lia].
Qed.

Lemma scanPairs_noop (tempTasks : list Task) (acc : list Task * bool) :
  ForallOrdPairs (fun l r => declaresMaster l r = false) tempTasks ->
  scanPairs tempTasks acc = acc.
Proof.
  intros H. revert acc. induction H as [|l rest Hl _ IH]; intros acc; simpl; [done|].
  rewrite IH. apply fold_putRightBeforeLeft_noop.
  apply Forall_forall. intros r Hr. rewrite List.Forall_forall in Hl.
  by apply Hl, list_elem_of_In.
Qed.

(** X2.  A pass of [___putMasterDetailsBefore] reports no swap exactly when no
    task of the chain stands before a task that it declares as master; it
    then leaves the chain as it was. *)
Theorem putMasterDetailsBefore_no_swap (ts : list Task) :
  (snd (putMasterDetailsBefore ts) = false <->
   forall (i j : nat) (l r : Task),
     ts !! i = Some l -> ts !! j = Some r -> i < j -> declaresMaster l r = false)
  /\ (snd (putMasterDetailsBefore ts) = false -> fst (putMasterDetailsBefore ts) = ts).
Proof.
  split; [split|].
  - intros Hfalse i j l r Hl Hr Hij.
    destruct (putMasterDetailsBefore_false ts Hfalse) as [_ Hpairs].
    by apply (ForallOrdPairs_lookup _ ts i j l r Hpairs).
  - intros Hnone. unfold putMasterDetailsBefore.
    by rewrite scanPairs_noop by by apply ForallOrdPairs_of_lookup.
  - intros Hfalse. by destruct (putMasterDetailsBefore_false ts Hfalse).
Qed.

(** *** Scripts without master-detail relationships *)

Section NoMasters.
Variable RECORD_TYPE_SOBJECT_NAME : string.

Lemma declaresNoMaster_tasks (objects : list ScriptObject) (l r : Task) :
  declaresNoMaster objects = true ->
  l ∈ placeObjects RECORD_TYPE_SOBJECT_NAME objects ->
  r ∈ placeObjects RECORD_TYPE_SOBJECT_NAME objects ->
  declaresMaster l r = false.
Proof.
  intros Hnone Hl Hr.
  apply placeObjects_origin in Hl as (o & Ho & Hol).
  apply placeObjects_origin in Hr as (o' & Ho' & Hor).
  unfold declaresNoMaster in Hnone. rewrite forallb_forall in Hnone.
  specialize (Hnone o (proj1 (list_elem_of_In _ _) Ho)).
  rewrite forallb_forall in Hnone.
  specialize (Hnone o' (proj1 (list_elem_of_In _ _) Ho')).
  apply negb_true_iff in Hnone.
  unfold declaresMaster, sObjectName. by rewrite Hol, Hor.
Qed.

Lemma relax_without_masters (objects : list ScriptObject) :
  declaresNoMaster objects = true ->
  relax 10 true (placeObjects RECORD_TYPE_SOBJECT_NAME objects) =
  (placeObjects RECORD_TYPE_SOBJECT_NAME objects, false).
Proof.
  intros Hnone.
  assert (putMasterDetailsBefore (placeObjects RECORD_TYPE_SOBJECT_NAME objects) =
          (placeObjects RECORD_TYPE_SOBJECT_NAME objects, false)) as Hpass.
  { unfold putMasterDetailsBefore. apply scanPairs_noop.
    apply ForallOrdPairs_of_lookup. intros i j l r Hl Hr _.
    apply (declaresNoMaster_tasks objects); [done| |];
      apply list_elem_of_lookup; eauto. }
  cbn [relax]. by rewrite Hpass.
Qed.

(** X3.  When no object of the script names another as master-detail parent,
    the first pass of the relaxation moves nothing and ends it: [setup]
    leaves the chain in the order of the placement loop. *)
Theorem setup_without_masters (objects : list ScriptObject) :
  declaresNoMaster objects = true ->
  jobTasks (setup RECORD_TYPE_SOBJECT_NAME objects) =
    placeObjects RECORD_TYPE_SOBJECT_NAME objects
  /\ lastSwapped (setup RECORD_TYPE_SOBJECT_NAME objects) = false.
Proof.
  intros Hnone. rewrite jobTasks_setup, lastSwapped_setup.
  by rewrite relax_without_masters.
Qed.
End NoMasters.


(** *** Lookup parents added after their children *)

Section Lookups.
Variable RECORD_TYPE_SOBJECT_NAME : string.
Local Abbreviation rk := (rank RECORD_TYPE_SOBJECT_NAME).

Lemma scanForIndex_le (ts : list Task) (objName : string) (lower n indexToInsert k : nat)
    (y : Task) :
  ts !! k = Some y ->
  namesObject (parentLookupObjects (scriptObject y)) objName = true ->
  lower <= k < n ->
  scanForIndex ts objName lower n indexToInsert <= k.
Proof.
  intros Hy Hnames. revert indexToInsert.
  induction n as [|i IH]; intros indexToInsert Hk; [lia|]. simpl.
  destruct (Nat.ltb_spec i lower) as [Hlt | Hge]; [lia|].
  destruct (decide (k = i)) as [-> | Hne].
  - rewrite Hy, Hnames.
    destruct (scanForIndex_bounds ts objName lower i i Hge) as [_ [-> | Hlt]]; lia.
  - apply IH. lia.
Qed.

Lemma sublist_insert {A : Type} (l k : list A) (i : nat) (z : A) :
  l `sublist_of` k -> l `sublist_of` take i k ++ z :: drop i k.
Proof.
  intros H. etrans; [exact H|].
  rewrite <- (take_drop i k) at 1. apply sublist_app; [done|]. by apply sublist_cons.
Qed.

Lemma addObject_keeps_order (c : Chain) (ix : nat) (o : ScriptObject) (x y : Task) :
  [x; y] `sublist_of` tasks c ->
  [x; y] `sublist_of` tasks (addObject RECORD_TYPE_SOBJECT_NAME c ix o).
Proof.
  intros H. unfold addObject.
  destruct (String.eqb _ _); cbn [tasks]; [by apply sublist_cons|].
  destruct (isReadonlyObject _); cbn [tasks].
  { rewrite spliceInsert_nat. by apply sublist_insert. }
  destruct (length (tasks c) =? 0); cbn [tasks].
  { by apply sublist_inserts_r. }
  rewrite spliceInsert_nat. by apply sublist_insert.
Qed.

Lemma addObjects_keeps_order (objects : list ScriptObject) (c : Chain) (ix : nat)
    (x y : Task) :
  [x; y] `sublist_of` tasks c ->
  [x; y] `sublist_of` tasks (addObjects RECORD_TYPE_SOBJECT_NAME c ix objects).
Proof.
  revert c ix. induction objects as [|o rest IH]; intros c ix H; simpl; [done|].
  by apply IH, addObject_keeps_order.
Qed.

Lemma addObjects_app (l1 l2 : list ScriptObject) (c : Chain) (ix : nat) :
  addObjects RECORD_TYPE_SOBJECT_NAME c ix (l1 ++ l2) =
  addObjects RECORD_TYPE_SOBJECT_NAME
             (addObjects RECORD_TYPE_SOBJECT_NAME c ix l1) (ix + length l1) l2.
Proof.
  revert c ix. induction l1 as [|o l1 IH]; intros c ix; simpl.
  - by rewrite Nat.add_0_r.
  - rewrite IH. f_equal. lia.
Qed.

(** An ordinary task of the chain lies at or behind the cursor for
    ordinary objects. *)
Lemma ordinary_index (c : Chain) (rts ros others : list Task) (y : Task) :
  blocks RECORD_TYPE_SOBJECT_NAME c rts ros others ->
  y ∈ tasks c -> rk y = 2 ->
  exists k, tasks c !! k = Some y /\ lowerIndexForAnyObjects c <= k < length (tasks c).
Proof.
  intros (Hts & Hrts & Hros & _ & _ & Hany) Hy Hrank.
  rewrite Hts in Hy. rewrite Forall_forall in Hrts, Hros.
  apply elem_of_app in Hy as [Hy | Hy]; [specialize (Hrts y Hy); lia|].
  apply elem_of_app in Hy as [Hy | Hy]; [specialize (Hros y Hy); lia|].
  apply list_elem_of_lookup in Hy as [k' Hk'].
  exists (length rts + length ros + k'). rewrite Hany, Hts.
  pose proof (lookup_lt_Some _ _ _ Hk') as Hlt.
  split; [|rewrite !length_app; lia].
  rewrite lookup_app_r by lia. rewrite lookup_app_r by lia.
  rewrite <- Hk'. f_equal. lia.
Qed.

Lemma addObject_parent_first (c : Chain) (ix : nat) (o : ScriptObject)
    (rts ros others : list Task) (y : Task) :
  blocks RECORD_TYPE_SOBJECT_NAME c rts ros others ->
  y ∈ tasks c -> rk y = 2 ->
  isOrdinary RECORD_TYPE_SOBJECT_NAME o = true ->
  namesObject (parentLookupObjects (scriptObject y)) (name o) = true ->
  [mkTask ix (setProcessAll o); y]
    `sublist_of` tasks (addObject RECORD_TYPE_SOBJECT_NAME c ix o).
Proof.
  intros Hblocks Hy Hrank Hord Hnames.
  destruct (ordinary_index c rts ros others y Hblocks Hy Hrank) as (k & Hk & Hlow).
  unfold isOrdinary, isSpecial in Hord.
  apply negb_true_iff, orb_false_iff in Hord as [Hrt Hro].
  unfold addObject. cbn [name isReadonlyObject setProcessAll]. rewrite Hrt, Hro.
  destruct (Nat.eqb_spec (length (tasks c)) 0) as [Hempty | _]; [lia|].
  cbn [tasks]. rewrite spliceInsert_nat.
  set (ins := scanForIndex _ _ _ _ _).
  assert (ins <= k) as Hins by (by apply (scanForIndex_le _ _ _ _ _ k y)).
  apply sublist_inserts_l. apply sublist_skip. apply sublist_cons_l.
  assert (drop ins (tasks c) !! (k - ins) = Some y) as Hdrop.
  { rewrite lookup_drop. rewrite <- Hk. f_equal. lia. }
  apply list_elem_of_split_length in Hdrop as (l1 & l2 & -> & _).
  exists l1, l2. split; [done|]. apply sublist_nil_l.
Qed.

Lemma sublist_pair_lookup {A : Type} (x y : A) (l : list A) :
  [x; y] `sublist_of` l ->
  exists i j, l !! i = Some x /\ l !! j = Some y /\ i < j.
Proof.
  intros H. apply sublist_cons_l in H as (l1 & l2 & -> & H).
  apply sublist_cons_l in H as (l3 & l4 & -> & _).
  exists (length l1), (length l1 + S (length l3)). split; [|split; [|lia]].
  - by rewrite list_lookup_middle.
  - rewrite lookup_app_r by lia.
    replace (length l1 + S (length l3) - length l1) with (S (length l3)) by lia.
    simpl. by rewrite list_lookup_middle.
Qed.

Lemma placeObjects_parent_first (objects : list ScriptObject) (a b : nat)
    (child parent : ScriptObject) :
  objects !! a = Some child -> objects !! b = Some parent -> a < b ->
  isOrdinary RECORD_TYPE_SOBJECT_NAME child = true ->
  isOrdinary RECORD_TYPE_SOBJECT_NAME parent = true ->
  namesObject (parentLookupObjects child) (name parent) = true ->
  [mkTask b (setProcessAll parent); mkTask a (setProcessAll child)]
    `sublist_of` placeObjects RECORD_TYPE_SOBJECT_NAME objects.
Proof.
  intros Hchild Hparent Hab Hordc Hordp Hnames.
  pose proof (take_drop_middle objects b parent Hparent) as Hsplit.
  unfold placeObjects. rewrite <- Hsplit.
  rewrite addObjects_app. cbn [addObjects].
  set (c1 := addObjects RECORD_TYPE_SOBJECT_NAME (mkChain [] 0 0) 0 (take b objects)).
  assert (length (take b objects) = b) as Hlen.
  { rewrite length_take. apply lookup_lt_Some in Hparent. lia. }
  rewrite Hlen. cbn [Nat.add].
  apply addObjects_keeps_order.
  destruct (addObjects_blocks RECORD_TYPE_SOBJECT_NAME (take b objects) (mkChain [] 0 0) 0
              [] [] []) as (rts & ros & others & Hblocks).
  { unfold blocks. cbn. repeat split; constructor. }
  fold c1 in Hblocks.
  apply (addObject_parent_first c1 b parent rts ros others); try done.
  - unfold c1. rewrite addObjects_tasks. cbn [tasks]. rewrite app_nil_r.
    apply elem_of_lookup_imap. exists a, child. split; [done|].
    by rewrite lookup_take_lt by lia.
  - pose proof (rank_newTask RECORD_TYPE_SOBJECT_NAME a child) as Hrank.
    unfold isOrdinary, isSpecial in Hordc.
    apply negb_true_iff, orb_false_iff in Hordc as [Hrt Hro].
    by rewrite Hrt, Hro in Hrank.
Qed.

(** X4.  In a script without master-detail relationships, an ordinary object
    that is declared after an ordinary object naming it as lookup parent
    still comes before it in the chain that [setup] leaves. *)
Theorem setup_lookup_parent_first (objects : list ScriptObject) (a b : nat)
    (child parent : ScriptObject) :
  declaresNoMaster objects = true ->
  objects !! a = Some child -> objects !! b = Some parent -> a < b ->
  isOrdinary RECORD_TYPE_SOBJECT_NAME child = true ->
  isOrdinary RECORD_TYPE_SOBJECT_NAME parent = true ->
  namesObject (parentLookupObjects child) (name parent) = true ->
  exists i j,
    jobTasks (setup RECORD_TYPE_SOBJECT_NAME objects) !! i
      = Some (mkTask b (setProcessAll parent))
    /\ jobTasks (setup RECORD_TYPE_SOBJECT_NAME objects) !! j
      = Some (mkTask a (setProcessAll child))
    /\ i < j.
Proof.
  intros Hnone Hchild Hparent Hab Hordc Hordp Hnames.
  rewrite jobTasks_setup, relax_without_masters by done. cbn [fst].
  apply sublist_pair_lookup. by apply (placeObjects_parent_first objects a b).
Qed.
End Lookups.

(** *** Looking up a task by the name of its object *)

Lemma head_filter_Some {A : Type} (p : A -> bool) (l : list A) (x : A) :
  x ∈ l -> p x = true ->
  exists y l1 l2, head (List.filter p l) = Some y /\ p y = true
                  /\ l = l1 ++ y :: l2 /\ Forall (fun z => p z = false) l1.
Proof.
  induction l as [|z l IH]; intros Hx Hp; [by apply elem_of_nil in Hx|].
  simpl. destruct (p z) eqn:Hz.
  - exists z, [], l. by repeat split.
  - apply elem_of_cons in Hx as [-> | Hx]; [congruence|].
    destruct (IH Hx Hp) as (y & l1 & l2 & Hhead & Hy & -> & Hl1).
    exists y, (z :: l1), l2. repeat split; try done. by constructor.
Qed.

Lemma head_filter_None {A : Type} (p : A -> bool) (l : list A) :
  Forall (fun z => p z = false) l -> head (List.filter p l) = None.
Proof.
  induction 1 as [|z l Hz _ IH]; simpl; [done|]. by rewrite Hz.
Qed.

(** X5.  After [setup], [getTaskBySObjectName] finds for the name of every
    object of the script a task of that name, the first one in the chain;
    for a name that no object of the script has, it finds nothing. *)
Theorem getTaskBySObjectName_after_setup (RECORD_TYPE_SOBJECT_NAME : string)
    (objects : list ScriptObject) (objectName : string) :
  let ts := jobTasks (setup RECORD_TYPE_SOBJECT_NAME objects) in
  ((exists o, o ∈ objects /\ name o = objectName) ->
   exists t before after,
     getTaskBySObjectName ts objectName = Some t
     /\ sObjectName t = objectName
     /\ ts = before ++ t :: after
     /\ Forall (fun z => sObjectName z <> objectName) before)
  /\ ((forall o, o ∈ objects -> name o <> objectName) ->
      getTaskBySObjectName ts objectName = None).
Proof.
  intros ts. pose proof (setup_tasks RECORD_TYPE_SOBJECT_NAME objects) as Hperm.
  fold ts in Hperm. unfold getTaskBySObjectName. split.
  - intros (o & Ho & Hname).
    apply list_elem_of_lookup in Ho as [i Hi].
    assert (mkTask i (setProcessAll o) ∈ ts) as Hin.
    { rewrite Hperm. apply elem_of_lookup_imap. by exists i, o. }
    destruct (head_filter_Some (fun x => String.eqb (sObjectName x) objectName) ts _ Hin)
      as (t & l1 & l2 & Hhead & Ht & Hsplit & Hl1).
    { apply String.eqb_eq. by rewrite <- Hname. }
    exists t, l1, l2. split; [done|]. split; [by apply String.eqb_eq|]. split; [done|].
    eapply Forall_impl; [exact Hl1|]. intros z Hz. by apply String.eqb_neq.
  - intros Hnone. apply head_filter_None. apply Forall_forall. intros t Ht.
    rewrite Hperm in Ht. apply elem_of_lookup_imap in Ht as (i & o & -> & Hi).
    apply String.eqb_neq. unfold sObjectName. simpl.
    apply Hnone. apply list_elem_of_lookup. eauto.
Qed.


(** *** The sample scripts *)

Lemma putMasterDetailsBefore_no_swap_witness :
  let ts := jobTasks (setup Samples.RecordType Samples.contactBeforeAccount) in
  snd (putMasterDetailsBefore ts) = false
  /\ fst (putMasterDetailsBefore ts) = ts.
Proof.
  intros ts. split; [reflexivity|].
  destruct (putMasterDetailsBefore_no_swap ts) as [_ Hsame]. apply Hsame. reflexivity.
Defined.

Lemma setup_without_masters_witness :
  declaresNoMaster Samples.mixedObjects = true
  /\ jobTasks (setup Samples.RecordType Samples.mixedObjects) =
       placeObjects Samples.RecordType Samples.mixedObjects
  /\ lastSwapped (setup Samples.RecordType Samples.mixedObjects) = false.
Proof.
  split; [reflexivity|].
  apply (setup_without_masters Samples.RecordType Samples.mixedObjects). reflexivity.
Defined.

Lemma setup_lookup_parent_first_witness :
  declaresNoMaster Samples.mixedObjects = true
  /\ exists i j,
       jobTasks (setup Samples.RecordType Samples.mixedObjects) !! i
         = Some (mkTask 3 (setProcessAll (Samples.object "Account" false [] [])))
       /\ jobTasks (setup Samples.RecordType Samples.mixedObjects) !! j
         = Some (mkTask 0 (setProcessAll (Samples.object "Contact" false ["Account"%string] [])))
       /\ i < j.
Proof.
  split; [reflexivity|].
  apply (setup_lookup_parent_first Samples.RecordType Samples.mixedObjects 0 3);
    [reflexivity | reflexivity | reflexivity | lia | reflexivity | reflexivity | reflexivity].
Defined.

Lemma getTaskBySObjectName_after_setup_witness :
  (exists t,
      getTaskBySObjectName (jobTasks (setup Samples.RecordType Samples.mixedObjects))
                           "Account" = Some t
      /\ sObjectName t = "Account"%string)
  /\ getTaskBySObjectName (jobTasks (setup Samples.RecordType Samples.mixedObjects))
                          "Lead" = None.
Proof.
  destruct (getTaskBySObjectName_after_setup Samples.RecordType Samples.mixedObjects
              "Account") as [Hfound _].
  destruct (getTaskBySObjectName_after_setup Samples.RecordType Samples.mixedObjects
              "Lead") as [_ Hnone].
  split.
  - destruct Hfound as (t & _ & _ & Hget & Hname & _).
    + exists (Samples.object "Account" false [] []). split; [|reflexivity].
      apply list_elem_of_In. simpl. tauto.
    + by exists t.
  - apply Hnone. intros o Ho. apply list_elem_of_In in Ho. simpl in Ho.
    destruct Ho as [<- | [<- | [<- | [<- | [<- | []]]]]]; discriminate.
Defined.


End SetupFacts.

(** ** More properties of the retrieval of records *)

Module RetrieveFacts.
Import Js JsFacts MigrationJobTask MigrationJobTaskFacts.

Section Retrieval.
Variable getRecordValue :
  string -> Row -> string -> option string -> option string -> Value.
Variable getComplexField : string -> string.
Variable distinctStringArray : list string -> list string.
Variable createFieldInQueries :
  list string -> string -> string -> list string -> list string.
Variable retrieveRecordsAsync : Endpoint -> string -> list Row.
Variable createQuery : Task -> string.
Variable createFilteredQueries : Task -> TaskData -> QueryMode -> bool -> list string.

Local Abbreviation updateOrgData := (updateOrgData getRecordValue getComplexField).
Local Abbreviation retrieveSourceMain :=
  (retrieveSourceMain getRecordValue getComplexField retrieveRecordsAsync createQuery
                      createFilteredQueries).
Local Abbreviation retrieveSelfReference :=
  (retrieveSelfReference getRecordValue getComplexField distinctStringArray
                         createFieldInQueries retrieveRecordsAsync).
Local Abbreviation retrieveTarget :=
  (retrieveTarget getRecordValue getComplexField retrieveRecordsAsync createQuery
                  createFilteredQueries).
Local Abbreviation retrieveRecords :=
  (retrieveRecords getRecordValue getComplexField distinctStringArray
                   createFieldInQueries retrieveRecordsAsync createQuery
                   createFilteredQueries).

(** [d'] holds every identifier that [d] holds, with the same record. *)
Local Abbreviation keeps d d' :=
  (size (idRecordsMap d) <= size (idRecordsMap d')
   /\ forall (k : string) (r : Row),
        get k (idRecordsMap d) = Some r -> get k (idRecordsMap d') = Some r).

Lemma keeps_refl (d : TaskOrgData) : keeps d d.
Proof. done. Qed.

Lemma keeps_trans (d1 d2 d3 : TaskOrgData) : keeps d1 d2 -> keeps d2 d3 -> keeps d1 d3.
Proof. intros [Hs1 Hg1] [Hs2 Hg2]. split; [lia|]. intros k r Hk. by apply Hg2, Hg1. Qed.

Lemma updateOrgData_keeps (t : Task) (records : list Row) (d : TaskOrgData) :
  keeps d (updateOrgData t records d).
Proof.
  unfold MigrationJobTask.updateOrgData, setExternalIdMap. cbn [idRecordsMap].
  rewrite fold_ids. cbn [fst snd]. split.
  - rewrite (fold_idStep_size getRecordValue getComplexField). lia.
  - intros k r. apply fold_idStep_get.
Qed.

Lemma retrieveSourceMain_keeps (t : Task) (d : TaskData) (queryMode : QueryMode)
    (reversed : bool) :
  keeps (sourceData d) (sourceData (fst (retrieveSourceMain t d queryMode reversed)))
  /\ targetData (fst (retrieveSourceMain t d queryMode reversed)) = targetData d
  /\ Forall (fun q => fst q <> TargetOrg) (snd (retrieveSourceMain t d queryMode reversed)).
Proof.
  unfold MigrationJobTask.retrieveSourceMain.
  destruct (isFile (sourceMedia t) && _); cbn [fst snd sourceData targetData].
  { split; [apply updateOrgData_keeps|]. split; [done|]. by repeat constructor. }
  destruct (processAllSource t && _); cbn [fst snd sourceData targetData].
  { split; [apply updateOrgData_keeps|]. split; [done|]. by repeat constructor. }
  destruct (negb (processAllSource t)); cbn [fst snd]; [|by repeat split].
  destruct (0 <? length _); cbn [fst snd sourceData targetData]; [|by repeat split].
  split; [apply updateOrgData_keeps|]. split; [done|].
  apply Forall_forall. intros q Hq. apply list_elem_of_fmap in Hq as (query & -> & _). done.
Qed.

Lemma retrieveSelfReference_keeps (t : Task) (d : TaskData) (queryMode : QueryMode) :
  keeps (sourceData d) (sourceData (fst (retrieveSelfReference t d queryMode)))
  /\ targetData (fst (retrieveSelfReference t d queryMode)) = targetData d
  /\ Forall (fun q => fst q <> TargetOrg) (snd (retrieveSelfReference t d queryMode)).
Proof.
  unfold MigrationJobTask.retrieveSelfReference.
  destruct (negb (isFile (sourceMedia t)) && _); cbn [fst snd]; [|by repeat split].
  destruct (0 <? length (selfReferenceValues _ _)); cbn [fst snd]; [|by repeat split].
  destruct (0 <? length _); cbn [fst snd sourceData targetData]; [|by repeat split].
  split; [apply updateOrgData_keeps|]. split; [done|].
  apply Forall_forall. intros q Hq. apply list_elem_of_fmap in Hq as (query & -> & _). done.
Qed.

Lemma retrieveTarget_keeps (t : Task) (d : TaskData) (queryMode : QueryMode)
    (reversed : bool) :
  keeps (targetData d) (targetData (fst (retrieveTarget t d queryMode reversed)))
  /\ sourceData (fst (retrieveTarget t d queryMode reversed)) = sourceData d
  /\ Forall (fun q => fst q = TargetOrg) (snd (retrieveTarget t d queryMode reversed)).
Proof.
  unfold MigrationJobTask.retrieveTarget.
  destruct (negb (isFile (targetMedia t)) && _); cbn [fst snd]; [|by repeat split].
  destruct (processAllTarget t); cbn [fst snd sourceData targetData].
  { split; [apply updateOrgData_keeps|]. split; [done|]. by repeat constructor. }
  destruct (0 <? length _); cbn [fst snd sourceData targetData]; [|by repeat split].
  split; [apply updateOrgData_keeps|]. split; [done|].
  apply Forall_forall. intros q Hq. apply list_elem_of_fmap in Hq as (query & -> & _). done.
Qed.

(** X6.  Whatever the task, the query mode and the records that come back,
    [retrieveRecords] takes no identifier out of the identifier map of
    either side and replaces the record of none: both maps only grow. *)
Theorem retrieveRecords_keeps_identifiers (t : Task) (d : TaskData)
    (queryMode : QueryMode) (reversed : bool) :
  let d' := fst (retrieveRecords t d queryMode reversed) in
  (size (idRecordsMap (sourceData d)) <= size (idRecordsMap (sourceData d'))
   /\ forall (k : string) (r : Row),
        get k (idRecordsMap (sourceData d)) = Some r ->
        get k (idRecordsMap (sourceData d')) = Some r)
  /\ (size (idRecordsMap (targetData d)) <= size (idRecordsMap (targetData d'))
      /\ forall (k : string) (r : Row),
           get k (idRecordsMap (targetData d)) = Some r ->
           get k (idRecordsMap (targetData d')) = Some r).
Proof.
  intros d'. subst d'. unfold MigrationJobTask.retrieveRecords.
  destruct (OPERATION_eqb (operation t) Delete); cbn [fst]; [done|].
  destruct (negb (QueryMode_eqb queryMode target)); cbn [fst].
  - destruct (retrieveSourceMain_keeps t d queryMode reversed) as (Hk1 & Ht1 & _).
    destruct (retrieveSelfReference_keeps t (fst (retrieveSourceMain t d queryMode reversed))
                queryMode) as (Hk2 & Ht2 & _).
    split; [by apply (keeps_trans _ _ _ Hk1)|]. by rewrite Ht2, Ht1.
  - destruct (retrieveTarget_keeps t d queryMode reversed) as (Hk & Hs & _).
    split; [by rewrite Hs|done].
Qed.

(** X7.  A pass over the target leaves the maps of the source as they are and
    sends its queries to the target org only; a pass over the source
    leaves the maps of the target as they are and sends no query to the
    target org. *)
Theorem retrieveRecords_one_side (t : Task) (d : TaskData)
    (queryMode : QueryMode) (reversed : bool) :
  let result := retrieveRecords t d queryMode reversed in
  (queryMode = target ->
   sourceData (fst result) = sourceData d
   /\ Forall (fun q => fst q = TargetOrg) (snd result))
  /\ (queryMode <> target ->
      targetData (fst result) = targetData d
      /\ Forall (fun q => fst q <> TargetOrg) (snd result)).
Proof.
  intros result. subst result. unfold MigrationJobTask.retrieveRecords.
  destruct (OPERATION_eqb (operation t) Delete); cbn [fst snd]; [by repeat split|].
  split.
  - intros ->. cbn [QueryMode_eqb negb].
    by destruct (retrieveTarget_keeps t d target reversed) as (_ & Hs & Hq).
  - intros Hmode.
    assert (QueryMode_eqb queryMode target = false) as -> by by destruct queryMode.
    cbn [negb fst snd].
    destruct (retrieveSourceMain_keeps t d queryMode reversed) as (_ & Ht1 & Hq1).
    destruct (retrieveSelfReference_keeps t (fst (retrieveSourceMain t d queryMode reversed))
                queryMode) as (_ & Ht2 & Hq2).
    split; [by rewrite Ht2, Ht1|]. by apply Forall_app.
Qed.

(** X8.  The passes that do nothing: the pass over the target for a task that
    inserts or whose target is a set of CSV files, and a backwards pass
    over the source for a task that processes all source records.  No
    query is sent and no map changes. *)
Theorem retrieveRecords_idle_passes (t : Task) (d : TaskData) (reversed : bool) :
  (operation t = Insert \/ targetMedia t = File ->
   retrieveRecords t d target reversed = (d, []))
  /\ (processAllSource t = true ->
      retrieveRecords t d backwards reversed = (d, [])).
Proof.
  unfold MigrationJobTask.retrieveRecords. split.
  - intros Hidle. destruct (OPERATION_eqb (operation t) Delete); [done|].
    cbn [QueryMode_eqb negb]. unfold MigrationJobTask.retrieveTarget.
    destruct Hidle as [-> | ->]; [|done]. cbn [OPERATION_eqb negb].
    by rewrite andb_false_r.
  - intros Hall. destruct (OPERATION_eqb (operation t) Delete); [done|].
    cbn [QueryMode_eqb negb].
    unfold MigrationJobTask.retrieveSourceMain, MigrationJobTask.retrieveSelfReference.
    rewrite Hall. cbn [QueryMode_eqb negb]. by rewrite !andb_false_r.
Qed.

(** X9.  A forwards pass for a task whose source is a set of CSV files and
    that does not delete reads the file of the task once and sends no
    query to an org; the records read enter the maps of the source. *)
Theorem retrieveRecords_from_file (t : Task) (d : TaskData) (reversed : bool) :
  sourceMedia t = File ->
  operation t <> Delete ->
  retrieveRecords t d forwards reversed =
  (mkTaskData (updateOrgData t (retrieveRecordsAsync SourceCsvFile (createQuery t))
                             (sourceData d))
              (targetData d),
   [(SourceCsvFile, createQuery t)]).
Proof.
  intros Hfile Hop. unfold MigrationJobTask.retrieveRecords.
  assert (OPERATION_eqb (operation t) Delete = false) as ->
    by (by destruct (operation t)).
  cbn [QueryMode_eqb negb].
  unfold MigrationJobTask.retrieveSourceMain, MigrationJobTask.retrieveSelfReference.
  rewrite Hfile. cbn [isFile andb QueryMode_eqb negb fst snd]. done.
Qed.
End Retrieval.

Lemma retrieveRecords_from_file_witness :
  retrieveRecords Samples.getRecordValue id id (fun _ _ _ values => values)
    (fun _ _ => [Samples.acme1]) (fun _ => "SELECT Id, Name FROM Account"%string)
    (fun _ _ _ _ => [])
    (Samples.caseTask false) Samples.emptyData forwards false
  = (mkTaskData (mkOrgData [] [("001"%string, Samples.acme1)]) (mkOrgData [] []),
     [(SourceCsvFile, "SELECT Id, Name FROM Account"%string)]).
Proof.
  apply (retrieveRecords_from_file Samples.getRecordValue id id
           (fun _ _ _ values => values) (fun _ _ => [Samples.acme1])
           (fun _ => "SELECT Id, Name FROM Account"%string) (fun _ _ _ _ => [])
           (Samples.caseTask false) Samples.emptyData false); [reflexivity|discriminate].
Defined.

End RetrieveFacts.

(** ** More properties of the validation *)

Module ValidateFacts.
Import Js JsFacts MigrationJobTask MigrationJobTaskFacts.

(** *** Splitting at a character *)

Lemma split_nonempty (sep : ascii) (s : string) : split sep s <> [].
Proof.
  destruct s as [|c s]; simpl; [done|].
  destruct (split sep s); [done|]. by destruct (Ascii.eqb c sep).
Qed.

Lemma split_app (sep : ascii) (a b : string) :
  split sep (a ++ String sep b) = split sep a ++ split sep b.
Proof.
  induction a as [|c a IH]; simpl.
  - rewrite Ascii.eqb_refl. pose proof (split_nonempty sep b). by destruct (split sep b).
  - rewrite IH. pose proof (split_nonempty sep a). destruct (split sep a) as [|p ps]; [done|].
    simpl. by destruct (Ascii.eqb c sep).
Qed.

Lemma split_single (sep : ascii) (s : string) :
  (forall a b, s <> (a ++ String sep b)%string) -> split sep s = [s].
Proof.
  induction s as [|c s IH]; intros Hnone; simpl; [done|].
  rewrite IH.
  - destruct (Ascii.eqb_spec c sep) as [-> | _]; [|done].
    exfalso. by apply (Hnone EmptyString s).
  - intros a b ->. by apply (Hnone (String c a) b).
Qed.

(** *** The columns that are reported *)

Section Columns.
Variable readCsvFileAsync : string -> option nat -> list Row.
Variable now : string.
Variable getResourceString : RESOURCES -> string.

Lemma columnExists_part (header : Row) (fieldName k : string) :
  k ∈ keys header ->
  fieldName ∈ split "."%char (trim k) ->
  columnExists header fieldName = true.
Proof.
  intros Hk Hpart. unfold columnExists. apply existsb_exists.
  exists k. split; [by apply list_elem_of_In|].
  apply orb_true_iff. right. apply existsb_exists.
  exists fieldName. split; [by apply list_elem_of_In|]. apply String.eqb_refl.
Qed.

End Columns.


End ValidateFacts.

(** ** More properties of the repair *)

Module RepairMoreFacts.
Import Js JsFacts MigrationJobTask RepairMore RepairFacts.

Section Repair.
Variable getRecordValue :
  string -> Row -> string -> option string -> option string -> Value.
Variable now : string.
Variable getResourceString : RESOURCES -> string.
Variable readCsvFile : string -> bool -> FileMap.
Variable formatId : nat -> string.
Variable job : Job.
Variable t : Task.

Local Abbreviation file := (sourceCsvFilename t).
Local Abbreviation repairCSV' :=
  (repairCSV getRecordValue now getResourceString readCsvFile formatId job t).
Local Abbreviation fieldStep :=
  (repairLookupField getRecordValue now getResourceString readCsvFile formatId job t).
Local Abbreviation childStep :=
  (updateChildOriginalIdColumns getRecordValue now getResourceString readCsvFile job t).
Local Abbreviation identify c :=
  (if negb (has "Id"%string (firstRowOf (rowsOf c file)))
   then fold_left childStep (externalIdChild__rSFields t) (addMissingIdColumn t c, [])
   else (c, [])).

(** *** The rows of the file *)

Lemma identify_keys (c : CachedCSVContent) :
  has file (csvDataCacheMap c) = true ->
  keys (rowsOf (fst (identify c)) file) = keys (rowsOf c file).
Proof.
  intros Hcached.
  destruct (has "Id"%string (firstRowOf (rowsOf c file))); cbn [negb fst]; [done|].
  destruct (addMissingIdColumn_marks t c) as (Hcached1 & Hkeys1 & _).
  destruct (childLoop_widen getRecordValue now getResourceString readCsvFile job t
              anyName (externalIdChild__rSFields t) (addMissingIdColumn t c, [])
              (any_child_names _) Hcached1) as [[Hkeys _] _].
  cbn [fst] in Hkeys. by rewrite Hkeys.
Qed.

(** X11.  [repairCSV] neither adds nor removes a row of the file of the task:
    the rows it leaves in the cache have the keys, in the order, of the
    rows it has read; and when there are rows, the first of them has an
    [Id] column afterwards. *)
Theorem repairCSV_keeps_rows (c : CachedCSVContent) :
  let rows := fst (readCsvFileOnce readCsvFile c file true) in
  let c' := fst (repairCSV' c) in
  keys (rowsOf c' file) = keys rows
  /\ (rows <> [] -> has "Id"%string (firstRowOf (rowsOf c' file)) = true).
Proof.
  intros rows c'. subst rows c'.
  destruct (repairCSV_first_row_id getRecordValue now getResourceString readCsvFile
              formatId job t c) as [_ Hid].
  assert (keys (rowsOf (fst (repairCSV' c)) file)
          = keys (fst (readCsvFileOnce readCsvFile c file true))) as Hkeys.
  { unfold repairCSV.
    pose proof (readCsvFileOnce_cached readCsvFile c file true) as Hcached0.
    pose proof (readCsvFileOnce_rows readCsvFile c file true) as Hrows0.
    destruct (readCsvFileOnce readCsvFile c file true) as [currentFileMap c0].
    cbn [fst snd] in Hcached0, Hrows0 |- *.
    destruct (size currentFileMap =? 0); [by rewrite <- Hrows0|].
    cbv zeta. rewrite <- Hrows0.
    destruct (trimColumnNames_marks getRecordValue readCsvFile t c0 "Id"%string Hcached0)
      as (Hcached1 & Hkeys1 & _).
    set (c1 := trimColumnNames t c0) in *.
    set (c2 := if useCSVValuesMapping t && _ then _ else c1).
    assert (has file (csvDataCacheMap c2) = true
            /\ keys (rowsOf c2 file) = keys (rowsOf c1 file)) as [Hcached2 Hkeys2].
    { unfold c2. destruct (_ && _); [|done].
      by destruct (updateWithCSVValueMapping_marks job t c1 "Id"%string) as (? & ? & _). }
    clearbody c2.
    destruct (identify_marks getRecordValue now getResourceString readCsvFile job t c2
                Hcached2) as (Hcached3 & _).
    destruct (fieldLoop_first_row getRecordValue now getResourceString readCsvFile formatId
                job t (fieldsInQuery t) (identify c2) Hcached3) as (_ & Hkeys4 & _).
    rewrite Hkeys4, (identify_keys c2 Hcached2). congruence. }
  split; [done|]. intros Hrows. apply Hid. intros Hnil.
  rewrite Hnil in Hkeys. by destruct (fst (readCsvFileOnce readCsvFile c file true)).
Qed.

(** *** Files whose first row is in order *)

(** X12.  When the column names of the first row carry no surrounding white
    space, no value mapping applies to the task and the first row has an
    [Id] column, [repairCSV] only adds cells: every row keeps each of its
    columns with the value it held. *)
Theorem repairCSV_only_adds (c : CachedCSVContent) :
  let rows := fst (readCsvFileOnce readCsvFile c file true) in
  let c' := fst (repairCSV' c) in
  Forall (fun k => trim k = k) (keys (firstRowOf rows)) ->
  valueMappingApplies job t = false ->
  has "Id"%string (firstRowOf rows) = true ->
  forall (id : string) (row : Row),
    get id rows = Some row ->
    exists row', get id (rowsOf c' file) = Some row' /\ extends row row'.
Proof.
  intros rows c' Htrim Hnomap Hid id row Hrow. subst rows c'.
  revert Htrim Hid Hrow. unfold repairCSV.
  pose proof (readCsvFileOnce_cached readCsvFile c file true) as Hcached0.
  pose proof (readCsvFileOnce_rows readCsvFile c file true) as Hrows0.
  destruct (readCsvFileOnce readCsvFile c file true) as [currentFileMap c0].
  cbn [fst snd] in Hcached0, Hrows0 |- *. intros Htrim Hid Hrow.
  destruct (size currentFileMap =? 0).
  { cbn [fst]. rewrite Hrows0. exists row. split; [done|apply extends_refl]. }
  cbv zeta. unfold valueMappingApplies in Hnomap.
  rewrite <- Hrows0 in Htrim, Hid, Hrow.
  rewrite Hnomap, (trimColumnNames_idle t c0 Htrim), Hid. cbn [negb].
  destruct (fieldLoop_rows getRecordValue now getResourceString readCsvFile formatId job t
              anyName (fieldsInQuery t) (c0, []) (any_field_names _) Hcached0)
    as [[_ Hgrow] _].
  cbn [fst] in Hgrow. destruct (Hgrow id row Hrow) as (row' & Hget & [Hext _]).
  by exists row'.
Qed.
End Repair.

(** *** The column names *)

Section ColumnNames.
Variable t : Task.
Local Abbreviation file := (sourceCsvFilename t).

Lemma columnsToTrim_untrimmed (row : Row) (k : string) :
  In k (columnsToTrim row) -> trim k <> k.
Proof.
  unfold columnsToTrim. intros Hin. apply filter_In in Hin as [_ Hne].
  apply negb_true_iff, String.eqb_neq in Hne. congruence.
Qed.

Lemma renameColumns_values (columns : list string) (row : Row) :
  NoDup (map trim columns) ->
  (forall k, In k columns -> trim k <> k) ->
  (forall k, In k columns ->
     prop (fold_left renameColumn columns row) (trim k) = prop row k
     /\ has k (fold_left renameColumn columns row) = false)
  /\ (forall k, ~ In k columns -> ~ In k (map trim columns) ->
        get k (fold_left renameColumn columns row) = get k row).
Proof.
  revert row. induction columns as [|column columns IH]; intros row Hnodup Huntrimmed.
  { split; [by intros k []|done]. }
  cbn [map] in Hnodup. apply NoDup_cons in Hnodup as [Hfresh Hnodup].
  rewrite list_elem_of_In in Hfresh.
  destruct (IH (renameColumn row column) Hnodup) as [Hrenamed Hothers].
  { intros k Hk. apply Huntrimmed. by right. }
  assert (trim column <> column) as Hcolumn by (apply Huntrimmed; by left).
  assert (~ In (trim column) columns) as Htrimmed_out.
  { intros Hin. apply (Huntrimmed (trim column)); [by right|apply trim_idem]. }
  assert (~ In column (map trim columns)) as Hcolumn_out.
  { intros Hin. apply in_map_iff in Hin as (k & Hk & _).
    apply Hcolumn. rewrite <- Hk. apply trim_idem. }
  assert (~ In column columns) as Hcolumn_fresh.
  { intros Hin. apply Hfresh. by apply in_map. }
  cbn [fold_left]. split.
  - intros k [<- | Hk].
    + split.
      * unfold prop. rewrite (Hothers (trim column) Htrimmed_out Hfresh).
        unfold renameColumn. rewrite get_remove.
        rewrite (proj2 (String.eqb_neq column (trim column))) by congruence.
        by rewrite get_set_eq.
      * apply has_get_false. rewrite (Hothers column Hcolumn_fresh Hcolumn_out).
        unfold renameColumn. by rewrite get_remove, String.eqb_refl.
    + destruct (Hrenamed k Hk) as [Hvalue Hgone]. split; [|done].
      rewrite Hvalue. unfold prop, renameColumn.
      assert (column <> k) as Hne1 by (intros ->; done).
      assert (trim column <> k) as Hne2.
      { intros <-. apply (Huntrimmed (trim column)); [by right|apply trim_idem]. }
      rewrite get_remove, (proj2 (String.eqb_neq column k)) by done.
      by rewrite get_set_ne.
  - intros k Hk Hktrim. rewrite Hothers.
    + unfold renameColumn.
      assert (column <> k) as Hne1 by (intros ->; apply Hk; by left).
      assert (trim column <> k) as Hne2 by (intros <-; apply Hktrim; by left).
      rewrite get_remove, (proj2 (String.eqb_neq column k)) by done.
      by rewrite get_set_ne.
    + intros Hin. apply Hk. by right.
    + intros Hin. apply Hktrim. by right.
Qed.

(** X13.  When no two of the column names to trim become the same name,
    [___trimColumnNames] moves each cell to the trimmed name of its column:
    in every row the trimmed name holds the value that the untrimmed name
    held, the untrimmed name is gone, and the cells of the columns that are
    neither renamed nor the new name of a renamed column are as they
    were. *)
Theorem trimColumnNames_keeps_values (c : CachedCSVContent) (id : string) (row : Row) :
  let columns := columnsToTrim (firstRowOf (rowsOf c file)) in
  NoDup (map trim columns) ->
  get id (rowsOf c file) = Some row ->
  exists row',
    get id (rowsOf (trimColumnNames t c) file) = Some row'
    /\ (forall k, In k columns -> prop row' (trim k) = prop row k /\ has k row' = false)
    /\ (forall k, ~ In k columns -> ~ In k (map trim columns) -> get k row' = get k row).
Proof.
  intros columns Hnodup Hrow. unfold trimColumnNames. fold columns.
  destruct columns as [|column columns'] eqn:Hcolumns.
  { exists row. split; [done|]. split; [by intros k []|done]. }
  rewrite rowsOf_markUpdated, rowsOf_setRows_eq, get_mapValues, Hrow. cbn [fmap option_fmap option_map].
  eexists. split; [done|].
  apply renameColumns_values; [done|].
  intros k Hk. apply (columnsToTrim_untrimmed (firstRowOf (rowsOf c file))).
  fold columns. by rewrite Hcolumns.
Qed.
End ColumnNames.

(** *** The value mapping *)

Section ValueMapping.
Variable job : Job.
Variable t : Task.
Local Abbreviation file := (sourceCsvFilename t).

Lemma mapColumnValue_cell (row : Row) (field : string) :
  prop (mapColumnValue job t row field) field = mappedValue job t field (prop row field)
  /\ (forall k, k <> field -> get k (mapColumnValue job t row field) = get k row).
Proof.
  unfold mapColumnValue, mappedValue.
  destruct (get _ (csvValuesMapping job)) as [valuesMap|]; [|done].
  destruct (Nat.ltb_spec 0 (size valuesMap)) as [Hpos | Hzero].
  - destruct (get _ valuesMap) as [mapped|]; [|done]. split.
    + unfold prop. by rewrite get_set_eq.
    + intros k Hk. by rewrite get_set_ne.
  - destruct valuesMap; [done|]. simpl in Hzero. lia.
Qed.

Lemma mapColumnValues_cells (fields : list string) (row : Row) :
  NoDup fields ->
  (forall k, In k fields ->
     prop (fold_left (mapColumnValue job t) fields row) k
     = mappedValue job t k (prop row k))
  /\ (forall k, ~ In k fields ->
        get k (fold_left (mapColumnValue job t) fields row) = get k row).
Proof.
  revert row. induction fields as [|field fields IH]; intros row Hnodup.
  { split; [by intros k []|done]. }
  apply NoDup_cons in Hnodup as [Hfresh Hnodup]. rewrite list_elem_of_In in Hfresh.
  destruct (IH (mapColumnValue job t row field) Hnodup) as [Hmapped Hothers].
  destruct (mapColumnValue_cell row field) as [Hcell Hrest].
  cbn [fold_left]. split.
  - intros k [<- | Hk].
    + unfold prop at 1. rewrite (Hothers field Hfresh). exact Hcell.
    + rewrite (Hmapped k Hk). f_equal. unfold prop. rewrite Hrest; [done|].
      by intros ->.
  - intros k Hk. rewrite Hothers; [|by intros Hin; apply Hk; right].
    apply Hrest. intros ->. apply Hk. by left.
Qed.

(** X14.  [___updateWithCSVValueMapping] treats every cell by itself: in each
    row, the cell of a column of the first row holds afterwards the entry
    that the mapping table of the object and the column has for the trimmed
    text of the value, or the value itself when the table has none; the
    cells of other columns are as they were. *)
Theorem updateWithCSVValueMapping_cells (c : CachedCSVContent) (id : string) (row : Row) :
  NoDup (keys (firstRowOf (rowsOf c file))) ->
  get id (rowsOf c file) = Some row ->
  exists row',
    get id (rowsOf (updateWithCSVValueMapping job t c) file) = Some row'
    /\ (forall k, In k (keys (firstRowOf (rowsOf c file))) ->
          prop row' k = mappedValue job t k (prop row k))
    /\ (forall k, ~ In k (keys (firstRowOf (rowsOf c file))) -> get k row' = get k row).
Proof.
  intros Hnodup Hrow. unfold updateWithCSVValueMapping.
  rewrite rowsOf_markUpdated, rowsOf_setRows_eq, get_mapValues, Hrow.
  cbn [fmap option_fmap option_map].
  eexists. split; [done|]. by apply mapColumnValues_cells.
Qed.
End ValueMapping.


(** *** The paths that a repair marks *)

Section Marks.
Variable getRecordValue :
  string -> Row -> string -> option string -> option string -> Value.
Variable now : string.
Variable getResourceString : RESOURCES -> string.
Variable readCsvFile : string -> bool -> FileMap.
Variable formatId : nat -> string.
Variable job : Job.
Variable t : Task.

Local Abbreviation file := (sourceCsvFilename t).
Local Abbreviation repairCSV' :=
  (repairCSV getRecordValue now getResourceString readCsvFile formatId job t).
Local Abbreviation childStep :=
  (updateChildOriginalIdColumns getRecordValue now getResourceString readCsvFile job t).

Lemma readCsvFileOnce_marks (c : CachedCSVContent) (path : string) (own : bool) :
  updatedFilenames (snd (readCsvFileOnce readCsvFile c path own)) = updatedFilenames c.
Proof. unfold readCsvFileOnce. by destruct (get path (csvDataCacheMap c)). Qed.

Lemma childStep_marks_child (childIdSField : SFieldDescribe)
    (acc : CachedCSVContent * list ICSVIssues) :
  updatedFilenames (fst (childStep acc childIdSField))
  ⊆ updatedFilenames (fst acc)
    ∪ match getTaskBySObjectName job (fieldObjectName childIdSField) with
      | Some childTask => {[sourceCsvFilename childTask]}
      | None => ∅
      end.
Proof.
  destruct acc as [c issues]. cbn [fst]. unfold updateChildOriginalIdColumns.
  destruct (negb _); [|set_solver].
  destruct (getTaskBySObjectName job _) as [childTask|]; [|set_solver].
  pose proof (readCsvFileOnce_marks c (sourceCsvFilename childTask) false) as Hupd1.
  destruct (readCsvFileOnce readCsvFile c (sourceCsvFilename childTask) false)
    as [childFileMap c1]. cbn [snd] in Hupd1. rewrite <- Hupd1.
  destruct (0 <? size childFileMap); [|set_solver].
  destruct (has _ (firstRowOf childFileMap)); [|set_solver].
  set (pmap := rowsByValue getRecordValue _ _ _).
  pose proof (childRowLoop_marks getRecordValue t childTask childIdSField pmap
                (keys childFileMap) (c1, issues, false)) as Hloop.
  destruct (fold_left _ _ _) as [[c2 issues2] changed2]. cbn [fst] in Hloop |- *.
  rewrite <- Hloop. destruct changed2; [|set_solver].
  unfold markUpdated. cbn [updatedFilenames]. set_solver.
Qed.

Lemma childLoop_marks_children (childFields : list SFieldDescribe)
    (acc : CachedCSVContent * list ICSVIssues) :
  updatedFilenames (fst (fold_left childStep childFields acc))
  ⊆ updatedFilenames (fst acc)
    ∪ list_to_set
        (omap (fun f => sourceCsvFilename <$> getTaskBySObjectName job (fieldObjectName f))
              childFields).
Proof.
  revert acc. induction childFields as [|f childFields IH]; intros acc; cbn [fold_left].
  { set_solver. }
  pose proof (childStep_marks_child f acc) as Hstep.
  specialize (IH (childStep acc f)).
  simpl omap.
  destruct (getTaskBySObjectName job (fieldObjectName f)) as [childTask|];
    simpl; set_solver.
Qed.

Lemma repairCSV_marks_bound (c : CachedCSVContent) :
  updatedFilenames c ⊆ updatedFilenames (fst (repairCSV' c))
  /\ updatedFilenames (fst (repairCSV' c))
       ⊆ updatedFilenames c ∪ {[file]} ∪ childFiles job t.
Proof.
  unfold repairCSV.
  pose proof (readCsvFileOnce_cached readCsvFile c file true) as Hcached0.
  pose proof (readCsvFileOnce_marks c file true) as Hupd0.
  destruct (readCsvFileOnce readCsvFile c file true) as [currentFileMap c0].
  cbn [fst snd] in Hcached0, Hupd0. rewrite <- Hupd0.
  destruct (size currentFileMap =? 0); [cbn [fst]; set_solver|]. cbv zeta.
  destruct (trimColumnNames_marks getRecordValue readCsvFile t c0 "Id"%string Hcached0)
    as (Hcached1 & _ & _ & Hmono1 & Hown1 & _).
  set (c1 := trimColumnNames t c0) in *.
  set (c2 := if useCSVValuesMapping t && _ then _ else c1).
  assert (has file (csvDataCacheMap c2) = true
          /\ updatedFilenames c1 ⊆ updatedFilenames c2
          /\ updatedFilenames c2 ⊆ {[file]} ∪ updatedFilenames c1)
    as (Hcached2 & Hmono2 & Hown2).
  { unfold c2. destruct (_ && _); [|split; [done|]; set_solver].
    destruct (updateWithCSVValueMapping_marks job t c1 "Id"%string) as (? & _ & _ & Hupd).
    split; [done|]. rewrite Hupd. set_solver. }
  clearbody c2.
  set (acc3 := if negb _ then _ else _).
  assert (has file (csvDataCacheMap (fst acc3)) = true
          /\ updatedFilenames c2 ⊆ updatedFilenames (fst acc3)
          /\ updatedFilenames (fst acc3)
               ⊆ updatedFilenames c2 ∪ {[file]} ∪ childFiles job t)
    as (Hcached3 & Hmono3 & Hown3).
  { destruct (identify_marks getRecordValue now getResourceString readCsvFile job t c2
                Hcached2) as (Hcached3 & _ & Hmono3 & _).
    fold acc3 in Hcached3, Hmono3. split; [done|]. split; [done|].
    unfold acc3. destruct (negb _); cbn [fst]; [|set_solver].
    pose proof (childLoop_marks_children (externalIdChild__rSFields t)
                  (addMissingIdColumn t c2, [])) as Hchildren.
    destruct (addMissingIdColumn_marks t c2) as (_ & _ & _ & Hupd).
    cbn [fst] in Hchildren. rewrite Hupd in Hchildren. unfold childFiles. set_solver. }
  clearbody acc3.
  destruct (fieldLoop_marks getRecordValue now getResourceString readCsvFile formatId
              job t (fieldsInQuery t) acc3 Hcached3) as [Hmono4 Hown4].
  split.
  - etrans; [exact Hmono1|]. etrans; [exact Hmono2|]. etrans; [exact Hmono3|done].
  - intros path Hpath.
    apply Hown4, elem_of_union in Hpath as [Hpath | Hpath];
      [apply elem_of_union; left; apply elem_of_union; by right|].
    apply Hown3, elem_of_union in Hpath as [Hpath | Hpath];
      [|apply elem_of_union; by right].
    apply elem_of_union in Hpath as [Hpath | Hpath];
      [|apply elem_of_union; left; apply elem_of_union; by right].
    apply Hown2, elem_of_union in Hpath as [Hpath | Hpath];
      [apply elem_of_union; left; apply elem_of_union; by right|].
    apply Hown1, elem_of_union in Hpath as [Hpath | Hpath];
      apply elem_of_union; left; apply elem_of_union; [by right|by left].
Qed.

Lemma elem_of_childFiles (path : string) :
  path ∈ childFiles job t ->
  exists childIdSField childTask,
    In childIdSField (externalIdChild__rSFields t)
    /\ getTaskBySObjectName job (fieldObjectName childIdSField) = Some childTask
    /\ path = sourceCsvFilename childTask.
Proof.
  unfold childFiles. rewrite elem_of_list_to_set, list_elem_of_omap.
  intros (childIdSField & Hin & Hpath).
  destruct (getTaskBySObjectName job (fieldObjectName childIdSField)) as [childTask|] eqn:Hchild;
    [|done].
  injection Hpath as <-. exists childIdSField, childTask.
  by rewrite <- list_elem_of_In.
Qed.

(** X15.  [repairCSV] takes no path out of the set of changed files, and every
    path that it adds is the source file of the task or the source file of
    a task found for a child field of its external id. *)
Theorem repairCSV_marks_related_files (c : CachedCSVContent) (path : string) :
  (path ∈ updatedFilenames c -> path ∈ updatedFilenames (fst (repairCSV' c)))
  /\ (path ∈ updatedFilenames (fst (repairCSV' c)) ->
      path ∈ updatedFilenames c
      \/ path = file
      \/ exists childIdSField childTask,
           In childIdSField (externalIdChild__rSFields t)
           /\ getTaskBySObjectName job (fieldObjectName childIdSField) = Some childTask
           /\ path = sourceCsvFilename childTask).
Proof.
  destruct (repairCSV_marks_bound c) as [Hmono Hbound]. split.
  - intros Hin. by apply Hmono.
  - intros Hin. apply Hbound in Hin.
    apply elem_of_union in Hin as [Hin | Hin]; [|right; right; by apply elem_of_childFiles].
    apply elem_of_union in Hin as [Hin | Hin]; [by left|].
    right. left. by apply elem_of_singleton in Hin.
Qed.
End Marks.


Lemma repairCSV_only_adds_witness :
  exists row',
    get "500"%string
        (rowsOf (fst (Samples.repair [] false "Acme" Samples.emptyCache)) Samples.caseFile)
      = Some row'
    /\ extends [("Id", Some "500"); ("Subject", Some "Help");
                ("Account.Name", Some "Acme")]%string row'.
Proof.
  apply (repairCSV_only_adds Samples.getRecordValue "2020-05-01"%string
           (fun _ => "Missing parent record"%string) (Samples.disk "Acme") Samples.formatId
           (Samples.caseJob [] false) (Samples.caseTask false) Samples.emptyCache);
    [by repeat constructor | reflexivity | reflexivity | reflexivity].
Defined.

Lemma trimColumnNames_keeps_values_witness :
  exists row',
    get "500"%string
        (rowsOf (trimColumnNames (Samples.caseTask false) MoreSamples.untrimmedCache)
                Samples.caseFile) = Some row'
    /\ prop row' "Subject"%string = Some "Help"%string
    /\ has " Subject "%string row' = false.
Proof.
  destruct (trimColumnNames_keeps_values (Samples.caseTask false)
              MoreSamples.untrimmedCache "500"%string
              [(" Subject ", Some "Help"); ("Id", Some "500")]%string)
    as (row' & Hget & Hrenamed & _).
  - apply NoDup_singleton.
  - reflexivity.
  - exists row'. split; [exact Hget|].
    apply (Hrenamed " Subject "%string). simpl. tauto.
Defined.

Lemma updateWithCSVValueMapping_cells_witness :
  exists row',
    get "500"%string
        (rowsOf (updateWithCSVValueMapping
                   (Samples.caseJob MoreSamples.typeMapping true) (Samples.caseTask true)
                   MoreSamples.typedCache)
                Samples.caseFile) = Some row'
    /\ prop row' "Type"%string = Some "Customer"%string.
Proof.
  destruct (updateWithCSVValueMapping_cells
              (Samples.caseJob MoreSamples.typeMapping true) (Samples.caseTask true)
              MoreSamples.typedCache "500"%string
              [("Id", Some "500"); ("Type", Some "Cust ")]%string)
    as (row' & Hget & Hmapped & _).
  - apply (bool_decide_unpack _). reflexivity.
  - reflexivity.
  - exists row'. split; [exact Hget|].
    rewrite (Hmapped "Type"%string); [reflexivity|]. simpl. tauto.
Defined.

(** The other row of the sample holds ["cust"], which the table does not
    list: it stays. *)
Example updateWithCSVValueMapping_sample :
  rowsOf (updateWithCSVValueMapping
            (Samples.caseJob MoreSamples.typeMapping true) (Samples.caseTask true)
            MoreSamples.typedCache)
         Samples.caseFile
  = [("500", [("Id", Some "500"); ("Type", Some "Customer")]);
     ("501", [("Id", Some "501"); ("Type", Some "cust")])]%string.
Proof. reflexivity. Qed.


End RepairMoreFacts.

(** ** Properties of the value mapping file *)

Module MigrationJobCsvFacts.
Import Js JsFacts MigrationJobTask RepairMore MigrationJobCsv.

Section ValueMapping.
Variable objectsMap : JsMap bool.

Local Abbreviation loadRow := (loadValueMappingRow objectsMap).
Local Abbreviation entryOf := (entryOf objectsMap).

Lemma loadValueMappingRow_entry (m : JsMap (JsMap string)) (row : Row)
    (key rawValue : string) :
  mappingEntry (loadRow m row) key rawValue =
  match entryOf row with
  | Some (k, r, v) =>
      if String.eqb k key && String.eqb r rawValue then Some v
      else mappingEntry m key rawValue
  | None => mappingEntry m key rawValue
  end.
Proof.
  unfold loadValueMappingRow, MigrationJobCsv.entryOf.
  destruct (truthy _ && truthy _); [|done].
  destruct (get _ objectsMap) as [[|]|]; [|done|done].
  set (k := (trim _ ++ trim _)%string). set (r := trim (toString (prop row "RawValue"))).
  set (v := trim (toString (prop row "Value"))).
  unfold mappingEntry, has. unfold JsMap in *.
  destruct (get k m) as [valuesMap|] eqn:Hget; cbn [negb].
  - rewrite get_set.
    destruct (String.eqb_spec k key) as [<- | Hne]; cbn [andb]; [|done].
    rewrite Hget, get_set. by destruct (String.eqb r rawValue).
  - rewrite get_set_eq, !get_set.
    destruct (String.eqb_spec k key) as [<- | Hne]; cbn [andb].
    + rewrite Hget. simpl. by destruct (String.eqb r rawValue).
    + done.
Qed.

Lemma fold_loadValueMappingRow_entry (csvRows : list Row) (m : JsMap (JsMap string))
    (key rawValue : string) :
  mappingEntry (fold_left loadRow csvRows m) key rawValue =
  match lastEntry objectsMap csvRows key rawValue with
  | Some v => Some v
  | None => mappingEntry m key rawValue
  end.
Proof.
  unfold lastEntry. induction csvRows as [|row csvRows IH] using rev_ind; [done|].
  rewrite !fold_left_app. cbn [fold_left].
  rewrite loadValueMappingRow_entry, IH.
  destruct (entryOf row) as [[[k r] v]|]; [|done].
  by destruct (String.eqb k key && String.eqb r rawValue).
Qed.

(** X16.  The tables that [_loadValueMappingFileAsync] builds answer as one
    table with the last row winning: the entry for a key and a raw value is
    the value of the last row of the file that stands for such an entry,
    and the entry that the tables held before when no row does.  A row
    stands for an entry when it names a field and an object of the script
    that has a value mapping; all names and values are trimmed. *)
Theorem loadValueMappingFile_last_row_wins (csvRows : list Row)
    (m : JsMap (JsMap string)) (key rawValue : string) :
  mappingEntry (loadValueMappingFile objectsMap csvRows m) key rawValue =
  match lastEntry objectsMap csvRows key rawValue with
  | Some v => Some v
  | None => mappingEntry m key rawValue
  end.
Proof.
  unfold loadValueMappingFile. destruct csvRows as [|row csvRows]; [done|].
  cbn [length Nat.ltb Nat.leb]. apply fold_loadValueMappingRow_entry.
Qed.

(** X17.  A cell is mapped as the file says: once the file is loaded, the value
    mapping of the repair replaces a cell, in a column whose name after the
    name of the object reads as the key of the last row of the file, by the
    trimmed value of that row when the trimmed text of the cell is the
    trimmed raw value of that row. *)
Theorem loadValueMappingFile_then_map (before : list Row) (row : Row)
    (m : JsMap (JsMap string)) (tasks : list Task) (t : Task) (field : string)
    (csvRow : Row) (key rawValue value : string) :
  entryOf row = Some (key, rawValue, value) ->
  (sObjectName t ++ field)%string = key ->
  trim (toString (prop csvRow field)) = rawValue ->
  prop (mapColumnValue
          (mkJob tasks (loadValueMappingFile objectsMap (before ++ [row]) m))
          t csvRow field)
       field
  = Some value.
Proof.
  intros Hentry Hkey Hraw.
  destruct (RepairMoreFacts.mapColumnValue_cell
              (mkJob tasks (loadValueMappingFile objectsMap (before ++ [row]) m))
              t csvRow field) as [-> _].
  pose proof (fold_loadValueMappingRow_entry (before ++ [row]) m key rawValue) as Hlast.
  unfold lastEntry in Hlast. rewrite (fold_left_app _ before [row] None) in Hlast.
  cbn [fold_left] in Hlast.
  rewrite Hentry, !String.eqb_refl in Hlast. cbn [andb] in Hlast.
  unfold mappedValue, loadValueMappingFile. cbn [csvValuesMapping].
  rewrite length_app, Nat.add_comm. cbn [length Nat.add Nat.ltb Nat.leb].
  rewrite Hkey, Hraw. unfold mappingEntry in Hlast.
  destruct (get key _) as [valuesMap|]; [|done]. by rewrite Hlast.
Qed.
End ValueMapping.

Lemma loadValueMappingFile_then_map_witness :
  prop (mapColumnValue
          (mkJob [] (loadValueMappingFile [("Case"%string, true)]
                       ([] ++ [[("ObjectName", Some " Case"); ("FieldName", Some "Type");
                                ("RawValue", Some "Cust");
                                ("Value", Some "Customer ")]%string])
                       []))
          (Samples.caseTask true)
          [("Id", Some "500"); ("Type", Some "Cust ")]%string "Type"%string)
       "Type"%string
  = Some "Customer"%string.
Proof.
  apply (loadValueMappingFile_then_map [("Case"%string, true)] []
           [("ObjectName", Some " Case"); ("FieldName", Some "Type");
            ("RawValue", Some "Cust"); ("Value", Some "Customer ")]%string
           [] [] (Samples.caseTask true) "Type"%string
           [("Id", Some "500"); ("Type", Some "Cust ")]%string
           "CaseType"%string "Cust"%string "Customer"%string); reflexivity.
Defined.

(** *** Validation and repair of all source files *)

Section ValidateAndRepair.
Variable readCsvFileAsync : string -> option nat -> list Row.
Variable getRecordValue :
  string -> Row -> string -> option string -> option string -> Value.
Variable now : string.
Variable getResourceString : RESOURCES -> string.
Variable readCsvFile : string -> bool -> FileMap.
Variable formatId : nat -> string.
Variable abortWithPrompt : list ICSVIssues -> bool.
Variable job : Job.

Local Abbreviation validateCSV' := (validateCSV readCsvFileAsync now getResourceString).
Local Abbreviation repairCSV' :=
  (repairCSV getRecordValue now getResourceString readCsvFile formatId job).
Local Abbreviation validateAll := (validateAll readCsvFileAsync now getResourceString job).
Local Abbreviation repairStep :=
  (repairStep getRecordValue now getResourceString readCsvFile formatId job).
Local Abbreviation repairAll :=
  (repairAll getRecordValue now getResourceString readCsvFile formatId job).
Local Abbreviation run :=
  (validateAndRepairSourceCSVFiles readCsvFileAsync getRecordValue now getResourceString
     readCsvFile formatId abortWithPrompt job).
Local Abbreviation written c :=
  (map (fun f : string * list Row => WriteCsvFile (fst f) (snd f))
       (saveCachedCsvDataFiles c)).

Lemma fold_validate (tasks : list Task) (issues : list ICSVIssues) :
  fold_left (fun issues task => issues ++ validateCSV' task) tasks issues
  = issues ++ flat_map validateCSV' tasks.
Proof.
  revert issues. induction tasks as [|task tasks IH]; intros issues; simpl.
  - by rewrite app_nil_r.
  - by rewrite IH, app_assoc.
Qed.

Lemma written_no_prompt (c : CachedCSVContent) : List.filter isPrompt (written c) = [].
Proof. induction (saveCachedCsvDataFiles c) as [|f fs IH]; simpl; done. Qed.

Lemma writtenPaths_written (c : CachedCSVContent) :
  writtenPaths (written c) = map fst (saveCachedCsvDataFiles c).
Proof.
  unfold writtenPaths. induction (saveCachedCsvDataFiles c) as [|f fs IH]; simpl; [done|].
  by rewrite IH.
Qed.

Lemma writtenPaths_app (e1 e2 : list CsvEvent) :
  writtenPaths (e1 ++ e2) = writtenPaths e1 ++ writtenPaths e2.
Proof. unfold writtenPaths. apply flat_map_app. Qed.

(** The paths that the run writes are those of the files that
    [saveCachedCsvDataFiles] writes for the cache that the repairs leave,
    unless the first prompt ends the job. *)
Lemma run_writtenPaths (issues0 : list ICSVIssues) (c0 : CachedCSVContent) :
  writtenPaths (csvEvents (run issues0 c0)) = []
  \/ writtenPaths (csvEvents (run issues0 c0))
     = map fst (saveCachedCsvDataFiles (fst (repairAll c0 (validateAll issues0)))).
Proof.
  unfold validateAndRepairSourceCSVFiles.
  destruct (Nat.ltb 0 (length (validateAll issues0)) && negb _); [by left|]. right.
  destruct (repairAll c0 (validateAll issues0)) as [c1 issues2]. cbn [fst].
  destruct (Nat.ltb 0 (length (validateAll issues0)));
    destruct (Nat.ltb 0 (length issues2)); cbn [negb csvEvents];
    rewrite ?writtenPaths_app, writtenPaths_written; simpl; by rewrite ?app_nil_r.
Qed.

Lemma fold_repairStep_issues (tasks : list Task)
    (acc : CachedCSVContent * list ICSVIssues) :
  exists more, snd (fold_left repairStep tasks acc) = snd acc ++ more.
Proof.
  revert acc. induction tasks as [|task tasks IH]; intros acc; simpl.
  - exists []. by rewrite app_nil_r.
  - destruct (IH (repairStep acc task)) as [more ->]. cbn [MigrationJobCsv.repairStep snd].
    eexists. by rewrite <- app_assoc.
Qed.

(** X18.  [_validateAndRepairSourceCSVFiles] asks at most once whether to go
    on: when the validation has found issues, the issues that the repairs
    add afterwards are reported without a second prompt.  When neither
    finds an issue, nothing is asked and no report is written. *)
Theorem validateAndRepair_prompts_once (issues0 : list ICSVIssues)
    (c0 : CachedCSVContent) :
  length (List.filter isPrompt (csvEvents (run issues0 c0))) <= 1
  /\ (csvIssues (run issues0 c0) = [] ->
      csvEvents (run issues0 c0) = written (cachedCSVContent (run issues0 c0))
      /\ completed (run issues0 c0) = true).
Proof.
  unfold validateAndRepairSourceCSVFiles.
  destruct (Nat.ltb 0 (length (validateAll issues0))) eqn:Hfound; cbn [andb].
  - destruct (abortWithPrompt (validateAll issues0)); cbn [negb].
    + destruct (fold_repairStep_issues (jobTasks job) (c0, validateAll issues0))
        as [more Hmore].
      fold (repairAll c0 (validateAll issues0)) in Hmore. cbn [snd] in Hmore.
      destruct (repairAll c0 (validateAll issues0)) as [c1 issues2]. cbn [snd] in Hmore.
      assert (issues2 <> []) as Hsome.
      { rewrite Hmore. intros Hnil. apply app_eq_nil in Hnil as [Hnil _].
        rewrite Hnil in Hfound. discriminate Hfound. }
      destruct (Nat.ltb 0 (length issues2)) eqn:Hfound2;
        cbn [csvEvents csvIssues cachedCSVContent completed].
      * rewrite !List.filter_app, written_no_prompt. simpl. split; [lia|done].
      * rewrite !List.filter_app, written_no_prompt. simpl. split; [lia|done].
    + cbn [csvEvents csvIssues]. simpl. split; [lia|].
      intros Hnone. rewrite Hnone in Hfound. discriminate Hfound.
  - destruct (repairAll c0 (validateAll issues0)) as [c1 issues2].
    destruct (Nat.ltb 0 (length issues2)) eqn:Hfound2;
      cbn [negb csvEvents csvIssues cachedCSVContent completed app].
    + rewrite !List.filter_app, written_no_prompt. simpl. split; [lia|].
      intros ->. discriminate Hfound2.
    + rewrite written_no_prompt. simpl. split; [lia|done].
Qed.
End ValidateAndRepair.



(** *** What the run writes *)

Section Writes.
Variable readCsvFileAsync : string -> option nat -> list Row.
Variable getRecordValue :
  string -> Row -> string -> option string -> option string -> Value.
Variable now : string.
Variable getResourceString : RESOURCES -> string.
Variable readCsvFile : string -> bool -> FileMap.
Variable formatId : nat -> string.
Variable abortWithPrompt : list ICSVIssues -> bool.
Variable job : Job.

Local Abbreviation repairCSV' :=
  (repairCSV getRecordValue now getResourceString readCsvFile formatId job).
Local Abbreviation validateAll := (validateAll readCsvFileAsync now getResourceString job).
Local Abbreviation repairStep :=
  (repairStep getRecordValue now getResourceString readCsvFile formatId job).
Local Abbreviation repairAll :=
  (repairAll getRecordValue now getResourceString readCsvFile formatId job).
Local Abbreviation run :=
  (validateAndRepairSourceCSVFiles readCsvFileAsync getRecordValue now getResourceString
     readCsvFile formatId abortWithPrompt job).

Lemma saveCachedCsvDataFiles_marked (c : CachedCSVContent) (path : string) :
  In path (map fst (saveCachedCsvDataFiles c)) ->
  path ∈ updatedFilenames c /\ has path (csvDataCacheMap c) = true.
Proof.
  unfold saveCachedCsvDataFiles. rewrite in_map_iff.
  intros ([p rows] & <- & Hin). apply in_flat_map in Hin as (filePath & Hkey & Hin).
  destruct (bool_decide (filePath ∈ updatedFilenames c)) eqn:Hmarked; [|done].
  destruct Hin as [[= <- <-] | []]. cbn [fst].
  split; [by apply bool_decide_eq_true in Hmarked|].
  by apply has_keys, list_elem_of_In.
Qed.

Lemma saveCachedCsvDataFiles_unmarked (c : CachedCSVContent) :
  updatedFilenames c = ∅ -> saveCachedCsvDataFiles c = [].
Proof.
  intros Hnone. unfold saveCachedCsvDataFiles. rewrite Hnone.
  induction (keys (csvDataCacheMap c)) as [|k ks IH]; simpl; [done|].
  rewrite bool_decide_eq_false_2 by apply not_elem_of_empty. done.
Qed.

Lemma fold_repairStep_marks (tasks : list Task)
    (acc : CachedCSVContent * list ICSVIssues) (path : string) :
  path ∈ updatedFilenames (fst (fold_left repairStep tasks acc)) ->
  path ∈ updatedFilenames (fst acc)
  \/ exists task, In task tasks
                  /\ (path = sourceCsvFilename task \/ path ∈ childFiles job task).
Proof.
  revert acc. induction tasks as [|task tasks IH]; intros acc Hpath; simpl in *; [by left|].
  destruct (IH _ Hpath) as [Hin | (task' & Htask' & Hrelated)].
  - cbn [MigrationJobCsv.repairStep fst] in Hin.
    destruct (RepairMoreFacts.repairCSV_marks_bound getRecordValue now getResourceString
                readCsvFile formatId job task (fst acc)) as [_ Hbound].
    apply Hbound, elem_of_union in Hin as [Hin | Hin];
      [|right; exists task; split; [by left|by right]].
    apply elem_of_union in Hin as [Hin | Hin]; [by left|].
    right. exists task. split; [by left|]. left. by apply elem_of_singleton in Hin.
  - right. exists task'. split; [by right|done].
Qed.

(** X19.  Every file that [_validateAndRepairSourceCSVFiles] writes back is in
    the cache and is marked as changed; and a path that was not marked
    before is the source file of a task of the job, or of a task found for
    a child field of the external id of one. *)
Theorem validateAndRepair_writes_related_files (issues0 : list ICSVIssues)
    (c0 : CachedCSVContent) (path : string) :
  In path (writtenPaths (csvEvents (run issues0 c0))) ->
  (path ∈ updatedFilenames (cachedCSVContent (run issues0 c0))
   /\ has path (csvDataCacheMap (cachedCSVContent (run issues0 c0))) = true)
  /\ (path ∈ updatedFilenames c0
      \/ exists task,
           In task (jobTasks job)
           /\ (path = sourceCsvFilename task \/ path ∈ childFiles job task)).
Proof.
  unfold validateAndRepairSourceCSVFiles.
  destruct (Nat.ltb 0 (length (validateAll issues0)) && negb _); [by intros []|].
  pose proof (fold_repairStep_marks (jobTasks job) (c0, validateAll issues0) path) as Hmarks.
  fold (repairAll c0 (validateAll issues0)) in Hmarks.
  destruct (repairAll c0 (validateAll issues0)) as [c1 issues2]. cbn [fst] in Hmarks.
  assert (In path (map fst (saveCachedCsvDataFiles c1)) ->
          (path ∈ updatedFilenames c1 /\ has path (csvDataCacheMap c1) = true)
          /\ (path ∈ updatedFilenames c0
              \/ exists task,
                   In task (jobTasks job)
                   /\ (path = sourceCsvFilename task \/ path ∈ childFiles job task)))
    as Hwritten.
  { intros Hin. apply saveCachedCsvDataFiles_marked in Hin as [Hmarked Hcached].
    split; [done|]. by apply Hmarks. }
  destruct (Nat.ltb 0 (length (validateAll issues0)));
    destruct (Nat.ltb 0 (length issues2)); cbn [negb csvEvents cachedCSVContent];
    rewrite ?writtenPaths_app, writtenPaths_written; simpl; rewrite ?app_nil_r;
    exact Hwritten.
Qed.

(** *** A job without source files *)

Lemma readCsvFileOnce_no_rows (c : CachedCSVContent) (path : string) (own : bool) :
  (forall p, rowsOf c p = []) ->
  readCsvFile path own = [] ->
  fst (readCsvFileOnce readCsvFile c path own) = []
  /\ (forall p, rowsOf (snd (readCsvFileOnce readCsvFile c path own)) p = [])
  /\ updatedFilenames (snd (readCsvFileOnce readCsvFile c path own)) = updatedFilenames c.
Proof.
  intros Hnone Hread. pose proof (Hnone path) as Hpath.
  unfold readCsvFileOnce, rowsOf in *.
  destruct (get path (csvDataCacheMap c)) as [rows|]; cbn [fst snd]; [done|].
  rewrite Hread. split; [done|]. split; [|done].
  intros p. cbn [setRows csvDataCacheMap]. rewrite get_set.
  destruct (String.eqb path p); [done|]. apply Hnone.
Qed.

Lemma fold_repairStep_no_rows (tasks : list Task)
    (acc : CachedCSVContent * list ICSVIssues) :
  (forall task, In task tasks -> readCsvFile (sourceCsvFilename task) true = []) ->
  (forall p, rowsOf (fst acc) p = []) ->
  snd (fold_left repairStep tasks acc) = snd acc
  /\ updatedFilenames (fst (fold_left repairStep tasks acc)) = updatedFilenames (fst acc).
Proof.
  revert acc. induction tasks as [|task tasks IH]; intros acc Hread Hnone; simpl; [done|].
  destruct (readCsvFileOnce_no_rows (fst acc) (sourceCsvFilename task) true Hnone)
    as (Hempty & Hnone1 & Hupd1); [apply Hread; by left|].
  assert (repairCSV' task (fst acc)
          = (snd (readCsvFileOnce readCsvFile (fst acc) (sourceCsvFilename task) true), []))
    as Hrepair.
  { unfold repairCSV.
    destruct (readCsvFileOnce readCsvFile (fst acc) (sourceCsvFilename task) true)
      as [currentFileMap c1]. cbn [fst snd] in *. by rewrite Hempty. }
  destruct (IH (repairStep acc task)) as [Hissues Hupd].
  - intros task' Htask'. apply Hread. by right.
  - cbn [MigrationJobCsv.repairStep fst]. by rewrite Hrepair.
  - rewrite Hissues, Hupd. cbn [MigrationJobCsv.repairStep fst snd].
    rewrite Hrepair. cbn [fst snd]. by rewrite app_nil_r.
Qed.

(** X20.  When the source file of every task is missing or empty and the cache
    holds no row and no changed path, the run reports exactly the
    empty-file issue of each task, in the order of the tasks, writes no
    file back and marks none as changed. *)
Theorem validateAndRepair_all_missing (c0 : CachedCSVContent) :
  (forall task, In task (jobTasks job) ->
     readCsvFileAsync (sourceCsvFilename task) (Some 1) = []
     /\ readCsvFile (sourceCsvFilename task) true = []) ->
  (forall p, rowsOf c0 p = []) ->
  updatedFilenames c0 = ∅ ->
  csvIssues (run [] c0) = map (emptyFileIssue now getResourceString) (jobTasks job)
  /\ writtenPaths (csvEvents (run [] c0)) = []
  /\ updatedFilenames (cachedCSVContent (run [] c0)) = ∅.
Proof.
  intros Hmissing Hnone Hunmarked.
  assert (validateAll [] = map (emptyFileIssue now getResourceString) (jobTasks job))
    as Hvalidate.
  { unfold MigrationJobCsv.validateAll. rewrite fold_validate. cbn [app].
    assert (forall tasks,
              (forall task, In task tasks ->
                 readCsvFileAsync (sourceCsvFilename task) (Some 1) = []) ->
              flat_map (validateCSV readCsvFileAsync now getResourceString) tasks
              = map (emptyFileIssue now getResourceString) tasks) as Hflat.
    { induction tasks as [|task tasks IH]; intros Hheader; simpl; [done|].
      rewrite (MigrationJobTaskFacts.validateCSV_empty readCsvFileAsync now
                 getResourceString task) by (apply Hheader; by left).
      simpl. f_equal. apply IH. intros task' Htask'. apply Hheader. by right. }
    apply Hflat. intros task Htask. by apply Hmissing. }
  destruct (fold_repairStep_no_rows (jobTasks job) (c0, validateAll [])) as [Hissues Hupd].
  { intros task Htask. by apply Hmissing. }
  { done. }
  fold (repairAll c0 (validateAll [])) in Hissues, Hupd. cbn [fst snd] in Hissues, Hupd.
  unfold validateAndRepairSourceCSVFiles.
  destruct (Nat.ltb 0 (length (validateAll [])) && negb _);
    cbn [csvIssues csvEvents cachedCSVContent]; [done|].
  destruct (repairAll c0 (validateAll [])) as [c1 issues2]. cbn [fst snd] in Hissues, Hupd.
  rewrite Hunmarked in Hupd.
  destruct (Nat.ltb 0 (length (validateAll [])));
    destruct (Nat.ltb 0 (length issues2));
    cbn [negb csvIssues csvEvents cachedCSVContent];
    rewrite ?writtenPaths_app, ?writtenPaths_written,
            (saveCachedCsvDataFiles_unmarked c1 Hupd); simpl;
    (split; [congruence|done]).
Qed.
End Writes.



Lemma validateAndRepair_all_missing_witness :
  let run :=
    validateAndRepairSourceCSVFiles (fun _ _ => []) Samples.getRecordValue
      "2020-05-01"%string (fun _ => "The file is empty"%string) (fun _ _ => [])
      Samples.formatId (fun _ => true) (Samples.caseJob [] false) [] Samples.emptyCache in
  csvIssues run
  = [mkIssue "2020-05-01" (Some "Account") None None None None None "The file is empty";
     mkIssue "2020-05-01" (Some "Case") None None None None None "The file is empty"]%string
  /\ writtenPaths (csvEvents run) = []
  /\ updatedFilenames (cachedCSVContent run) = ∅.
Proof.
  apply (validateAndRepair_all_missing (fun _ _ => []) Samples.getRecordValue
           "2020-05-01"%string (fun _ => "The file is empty"%string) (fun _ _ => [])
           Samples.formatId (fun _ => true) (Samples.caseJob [] false) Samples.emptyCache).
  - intros task _. split; reflexivity.
  - intros p. reflexivity.
  - reflexivity.
Defined.

Lemma validateAndRepair_writes_related_files_witness :
  let run :=
    validateAndRepairSourceCSVFiles (fun _ _ => []) Samples.getRecordValue
      "2020-05-01"%string (fun _ => "Missing parent record"%string) (Samples.disk "Nope")
      Samples.formatId (fun _ => true) (Samples.caseJob [] false) [] Samples.emptyCache in
  In Samples.caseFile (writtenPaths (csvEvents run))
  /\ has Samples.caseFile (csvDataCacheMap (cachedCSVContent run)) = true.
Proof.
  intros run.
  assert (In Samples.caseFile (writtenPaths (csvEvents run))) as Hwritten.
  { vm_compute. tauto. }
  split; [exact Hwritten|].
  destruct (validateAndRepair_writes_related_files (fun _ _ => []) Samples.getRecordValue
              "2020-05-01"%string (fun _ => "Missing parent record"%string)
              (Samples.disk "Nope") Samples.formatId (fun _ => true)
              (Samples.caseJob [] false) [] Samples.emptyCache Samples.caseFile Hwritten)
    as [[_ Hcached] _].
  exact Hcached.
Defined.


End MigrationJobCsvFacts.

